(** * Music-Flow: the Spotify matching core of [dags/scripts/spotify_elt.py]

    A shallow embedding of the title normalizer, the three candidate
    scorers, the query cascades, the collectors and the run ledger, with
    the properties the specification states about them.

    Conventions of the embedding.
    - A Python [str] is the list of its Unicode code points ([list N]);
      [lit] turns an ASCII literal of the source into such a list.
    - Python integers are [Z] (durations) or [nat] (counters, indexes).
    - The true division of [percent_in_desc] is IEEE binary64, as in
      CPython, through the kernel's primitive floats.
    - A [dict] is a [gmap]; the module-level dictionaries and lists of the
      script are the fields of one [state] record threaded explicitly.
    - An exception is a value [Raise e] of the [result] type. *)

From Stdlib Require Import ZArith NArith List Ascii String Lia.
From Stdlib Require PrimFloat Uint63 DecimalString.
From stdpp Require Import base gmap list.

Set Default Proof Using "Type".

(* ===================================================================== *)
(** * Strings *)
(* ===================================================================== *)

Abbreviation str := (list N).

(** An ASCII literal of the source as a list of code points. *)
Definition lit (s : string) : str :=
  map N_of_ascii (list_ascii_of_string s).

(** [p] is a prefix of [s] ([s.startswith(p)]). *)
Fixpoint is_prefix (p s : str) : bool :=
  match p, s with
  | [], _ => true
  | _ :: _, [] => false
  | a :: p', b :: s' => (a =? b)%N && is_prefix p' s'
  end.

(** [needle in hay] on [str]: some suffix of [hay] starts with [needle]. *)
Fixpoint contains (needle hay : str) : bool :=
  is_prefix needle hay
  || match hay with
     | [] => false
     | _ :: t => contains needle t
     end.

(** [sep.join(parts)]. *)
Fixpoint join (sep : str) (parts : list str) : str :=
  match parts with
  | [] => []
  | [p] => p
  | p :: rest => p ++ sep ++ join sep rest
  end.

(** [re.sub(pat, rep, s)] for a pattern that is a non-empty literal:
    scanning from the left, each occurrence found is replaced and the scan
    resumes after it.  [skip] counts the characters of the occurrence that
    are still to be dropped. *)
Fixpoint sub_literal (pat rep : str) (skip : nat) (s : str) : str :=
  match s with
  | [] => []
  | x :: r =>
      match skip with
      | S k => sub_literal pat rep k r
      | O =>
          if is_prefix pat s
          then rep ++ sub_literal pat rep (length pat - 1) r
          else x :: sub_literal pat rep 0 r
      end
  end.

Definition re_sub_literal (pat rep s : str) : str := sub_literal pat rep 0 s.

(** The double quote of the f-strings that put the title in quotes. *)
Definition dquote : N := 34.

(** The ASCII part of [str.lower]: [A]-[Z] become [a]-[z]. *)
Definition ascii_lower_char (c : N) : N :=
  if (65 <=? c)%N && (c <=? 90)%N then (c + 32)%N else c.

Definition ascii_lower (s : str) : str := map ascii_lower_char s.

(* ===================================================================== *)
(** * Title normalizer: [fix_youtube_title] *)
(* ===================================================================== *)

(** The pattern is [(\((.*?)\)|\[(.*?)\]|【(.*?)】)], replaced by the empty
    string.  Each alternative is an opening delimiter, a lazy [.*?] and
    the matching closing delimiter; [.] matches every character but the
    line feed. *)

Definition line_feed : N := 10.

(** The closing delimiter an opening delimiter asks for. *)
Definition closing (c : N) : option N :=
  if (c =? 40)%N then Some 41%N            (* ( ) *)
  else if (c =? 91)%N then Some 93%N       (* [ ] *)
  else if (c =? 12304)%N then Some 12305%N (* U+3010, U+3011 *)
  else None.

(** [.*?c] read from the start of [t]: the lazy star stops at the first
    [c], and fails when a line feed or the end of the string comes first.
    The result is what follows the match. *)
Fixpoint find_close (c : N) (t : str) : option str :=
  match t with
  | [] => None
  | y :: t' =>
      if (y =? c)%N then Some t'
      else if (y =? line_feed)%N then None
      else find_close c t'
  end.

(** [find_close] with the continuation [k] applied to what follows. *)
Definition find_close_k {A} (c : N) (k : str -> A) : str -> option A :=
  fix go (t : str) : option A :=
    match t with
    | [] => None
    | y :: t' =>
        if (y =? c)%N then Some (k t')
        else if (y =? line_feed)%N then None
        else go t'
    end.

(** [re.sub] with this pattern: at each position, leftmost first, a match
    is dropped and the scan resumes after it; where nothing matches the
    character is kept. *)
Fixpoint fix_youtube_title (youtube_title : str) : str :=
  match youtube_title with
  | [] => []
  | x :: r =>
      match closing x with
      | None => x :: fix_youtube_title r
      | Some c =>
          match find_close_k c fix_youtube_title r with
          | Some out => out
          | None => x :: fix_youtube_title r
          end
      end
  end.

(** [re.search] with the pattern: it matches somewhere in [s]. *)
Fixpoint has_span (s : str) : bool :=
  match s with
  | [] => false
  | x :: r =>
      match closing x with
      | Some c => bool_decide (is_Some (find_close c r)) || has_span r
      | None => has_span r
      end
  end.

(** A bracketed span lying on one line: an opening delimiter, characters
    other than the line feed, and the matching closing delimiter. *)
Definition line_span (s : str) : Prop :=
  exists pre o mid c post,
    s = pre ++ o :: mid ++ c :: post /\ closing o = Some c /\ line_feed ∉ mid.

(** A bracketed span starts at the head of [s] and lies on one line. *)
Definition starts_span (s : str) : Prop :=
  exists o c mid post,
    s = o :: mid ++ c :: post /\ closing o = Some c /\ line_feed ∉ mid.

(** What the pattern removes from a title, said without the scan of
    [re.sub].  Where a span starts, the span is dropped up to the first
    closing delimiter that matches its opening delimiter, and what follows
    that delimiter is read in the same way; any other character is kept. *)
Inductive removes_leftmost_spans : str -> str -> Prop :=
| removes_end : removes_leftmost_spans [] []
| removes_span (o c : N) (mid post out : str) :
    closing o = Some c -> c ∉ mid -> line_feed ∉ mid ->
    removes_leftmost_spans post out ->
    removes_leftmost_spans (o :: mid ++ c :: post) out
| removes_keep (x : N) (r out : str) :
    ~ starts_span (x :: r) ->
    removes_leftmost_spans r out ->
    removes_leftmost_spans (x :: r) (x :: out).

(* ===================================================================== *)
(** * Exceptions *)
(* ===================================================================== *)

Inductive exn : Type :=
| ZeroDivisionError   (* a true division by zero *)
| TypeError           (* a call that misses a required positional argument *)
| IndexError.         (* [iloc] past the end of a frame *)

Inductive result (A : Type) : Type :=
| Ok (a : A)
| Raise (e : exn).
Arguments Ok {A} a.
Arguments Raise {A} e.

#[global] Instance result_ret : MRet result := fun A a => Ok a.

#[global] Instance result_bind : MBind result := fun A B k r =>
  match r with
  | Ok a => k a
  | Raise e => Raise e
  end.

Definition returns {A} (r : result A) : Prop := exists a, r = Ok a.

(* ===================================================================== *)
(** * Data model *)
(* ===================================================================== *)

(** A row of [df_videos] (the SQL of [extract_videos] lower-cases
    [description]). *)
Record row : Type := {
  row_log_id : Z;
  row_youtube_playlist_id : str;
  row_youtube_title : str;
  row_youtube_channel : str;
  row_description : str;
  row_duration_ms : Z
}.

(** A row of [df_playlists] once [spotify_playlist_id] (column 2) is set. *)
Record playlist_row : Type := {
  pr_youtube_playlist_id : str;
  pr_playlist_name : str;
  pr_spotify_playlist_id : str
}.

(** The parts of the catalog's answers the script reads. *)
Record sp_track : Type := {
  st_uri : str;
  st_album_uri : str;        (* track["album"]["uri"] *)
  st_name : str;
  st_artists : list str;     (* artist["name"] for each artist *)
  st_duration_ms : Z
}.

Record sp_album : Type := {
  sa_uri : str;
  sa_name : str;
  sa_artists : list str
}.

Record sp_album_track : Type := {
  at_uri : str;
  at_name : str;
  at_duration_ms : Z
}.

Record sp_playlist : Type := {
  sl_uri : str;
  sl_id : str;
  sl_name : str;
  sl_owner : str             (* playlist["owner"]["display_name"] *)
}.

(** [track["track"]] of a playlist entry; an entry whose track is gone has
    none (its [track.get("track", ...)] is falsy). *)
Record sp_playlist_track : Type := {
  pt_uri : str;
  pt_name : str;
  pt_artists : list str;
  pt_duration_ms : Z;
  pt_album_uri : str
}.

(** The catalog client [sp]: [sp.search(q, limit, type)] by type,
    [sp.album(uri)] and [sp.playlist(uri)] (their track items). *)
Record spotify : Type := {
  search_track : str -> nat -> list sp_track;
  search_album : str -> nat -> list sp_album;
  album : str -> list sp_album_track;
  search_playlist : str -> nat -> list sp_playlist;
  playlist : str -> list (option sp_playlist_track)
}.

(** The dictionaries the [qsearch_*] functions return. *)
Record track_info : Type := {
  ti_track_uri : str;
  ti_album_uri : str;
  ti_track_title : str;
  ti_track_artists : str;
  ti_duration_ms : Z;
  ti_found_on_try : nat;
  ti_difference_ms : Z;
  ti_tracks_in_desc : nat;
  ti_q : str;
  ti_search_type_id : nat
}.

Record album_info : Type := {
  ai_album_uri : str;
  ai_tracks_uri : list str;
  ai_tracks_info : list (str * str * Z);
  ai_album_title : str;
  ai_album_artists : str;
  ai_duration_ms : Z;
  ai_total_tracks : nat;
  ai_found_on_try : nat;
  ai_difference_ms : Z;
  ai_tracks_in_desc : nat;
  ai_q : str;
  ai_search_type_id : nat
}.

Record playlist_info : Type := {
  pi_playlist_uri : str;
  pi_playlist_id : str;
  pi_tracks_uri : list str;
  pi_tracks_info : list (str * str * list str * Z * str);
  pi_playlist_title : str;
  pi_playlist_owner : str;
  pi_duration_ms : Z;
  pi_total_tracks : nat;
  pi_found_on_try : nat;
  pi_difference_ms : Z;
  pi_tracks_in_desc : nat;
  pi_q : str;
  pi_search_type_id : nat
}.

(** A value of [distinct_tracks]:
    (album_uri, playlist_uri, track_title, track_artists, duration_ms). *)
Record track_entry : Type := {
  te_album_uri : str;
  te_playlist_uri : option str;
  te_track_title : str;
  te_track_artists : str;
  te_duration_ms : Z
}.

(** A value of [distinct_albums] and of [distinct_playlists_others]:
    (title, artists or owner, duration_ms, total_tracks). *)
Record entity_entry : Type := {
  ee_title : str;
  ee_by : str;
  ee_duration_ms : Z;
  ee_total_tracks : nat
}.

(** A tuple of [log_albums], [log_playlists_others] or [log_tracks]. *)
Record log_entry : Type := {
  le_log_id : Z;
  le_uri : str;
  le_user_playlist_id : str;
  le_found_on_try : nat;
  le_difference_ms : Z;
  le_tracks_in_desc : nat;
  le_q : str;
  le_search_type_id : nat;
  le_status : str
}.

(** The module-level dictionaries and lists. *)
Record state : Type := {
  distinct_albums : gmap str entity_entry;
  distinct_playlists_others : gmap str entity_entry;
  distinct_tracks : gmap str track_entry;
  albums_to_like : list str;
  playlists_to_like : list str;
  tracks_to_like : list str;
  playlist_items : gmap str (list str);   (* defaultdict(list) *)
  log_albums : list log_entry;
  log_playlists_others : list log_entry;
  log_tracks : list log_entry
}.

Definition init : state := {|
  distinct_albums := ∅;
  distinct_playlists_others := ∅;
  distinct_tracks := ∅;
  albums_to_like := [];
  playlists_to_like := [];
  tracks_to_like := [];
  playlist_items := ∅;
  log_albums := [];
  log_playlists_others := [];
  log_tracks := []
|}.

Definition set_distinct_albums (v : gmap str entity_entry) (s : state) : state :=
  {| distinct_albums := v;
     distinct_playlists_others := distinct_playlists_others s;
     distinct_tracks := distinct_tracks s;
     albums_to_like := albums_to_like s;
     playlists_to_like := playlists_to_like s;
     tracks_to_like := tracks_to_like s;
     playlist_items := playlist_items s;
     log_albums := log_albums s;
     log_playlists_others := log_playlists_others s;
     log_tracks := log_tracks s |}.

Definition set_distinct_playlists_others (v : gmap str entity_entry) (s : state) : state :=
  {| distinct_albums := distinct_albums s;
     distinct_playlists_others := v;
     distinct_tracks := distinct_tracks s;
     albums_to_like := albums_to_like s;
     playlists_to_like := playlists_to_like s;
     tracks_to_like := tracks_to_like s;
     playlist_items := playlist_items s;
     log_albums := log_albums s;
     log_playlists_others := log_playlists_others s;
     log_tracks := log_tracks s |}.

Definition set_distinct_tracks (v : gmap str track_entry) (s : state) : state :=
  {| distinct_albums := distinct_albums s;
     distinct_playlists_others := distinct_playlists_others s;
     distinct_tracks := v;
     albums_to_like := albums_to_like s;
     playlists_to_like := playlists_to_like s;
     tracks_to_like := tracks_to_like s;
     playlist_items := playlist_items s;
     log_albums := log_albums s;
     log_playlists_others := log_playlists_others s;
     log_tracks := log_tracks s |}.

Definition set_albums_to_like (v : list str) (s : state) : state :=
  {| distinct_albums := distinct_albums s;
     distinct_playlists_others := distinct_playlists_others s;
     distinct_tracks := distinct_tracks s;
     albums_to_like := v;
     playlists_to_like := playlists_to_like s;
     tracks_to_like := tracks_to_like s;
     playlist_items := playlist_items s;
     log_albums := log_albums s;
     log_playlists_others := log_playlists_others s;
     log_tracks := log_tracks s |}.

Definition set_playlists_to_like (v : list str) (s : state) : state :=
  {| distinct_albums := distinct_albums s;
     distinct_playlists_others := distinct_playlists_others s;
     distinct_tracks := distinct_tracks s;
     albums_to_like := albums_to_like s;
     playlists_to_like := v;
     tracks_to_like := tracks_to_like s;
     playlist_items := playlist_items s;
     log_albums := log_albums s;
     log_playlists_others := log_playlists_others s;
     log_tracks := log_tracks s |}.

Definition set_tracks_to_like (v : list str) (s : state) : state :=
  {| distinct_albums := distinct_albums s;
     distinct_playlists_others := distinct_playlists_others s;
     distinct_tracks := distinct_tracks s;
     albums_to_like := albums_to_like s;
     playlists_to_like := playlists_to_like s;
     tracks_to_like := v;
     playlist_items := playlist_items s;
     log_albums := log_albums s;
     log_playlists_others := log_playlists_others s;
     log_tracks := log_tracks s |}.

Definition set_playlist_items (v : gmap str (list str)) (s : state) : state :=
  {| distinct_albums := distinct_albums s;
     distinct_playlists_others := distinct_playlists_others s;
     distinct_tracks := distinct_tracks s;
     albums_to_like := albums_to_like s;
     playlists_to_like := playlists_to_like s;
     tracks_to_like := tracks_to_like s;
     playlist_items := v;
     log_albums := log_albums s;
     log_playlists_others := log_playlists_others s;
     log_tracks := log_tracks s |}.

Definition set_log_albums (v : list log_entry) (s : state) : state :=
  {| distinct_albums := distinct_albums s;
     distinct_playlists_others := distinct_playlists_others s;
     distinct_tracks := distinct_tracks s;
     albums_to_like := albums_to_like s;
     playlists_to_like := playlists_to_like s;
     tracks_to_like := tracks_to_like s;
     playlist_items := playlist_items s;
     log_albums := v;
     log_playlists_others := log_playlists_others s;
     log_tracks := log_tracks s |}.

Definition set_log_playlists_others (v : list log_entry) (s : state) : state :=
  {| distinct_albums := distinct_albums s;
     distinct_playlists_others := distinct_playlists_others s;
     distinct_tracks := distinct_tracks s;
     albums_to_like := albums_to_like s;
     playlists_to_like := playlists_to_like s;
     tracks_to_like := tracks_to_like s;
     playlist_items := playlist_items s;
     log_albums := log_albums s;
     log_playlists_others := v;
     log_tracks := log_tracks s |}.

Definition set_log_tracks (v : list log_entry) (s : state) : state :=
  {| distinct_albums := distinct_albums s;
     distinct_playlists_others := distinct_playlists_others s;
     distinct_tracks := distinct_tracks s;
     albums_to_like := albums_to_like s;
     playlists_to_like := playlists_to_like s;
     tracks_to_like := tracks_to_like s;
     playlist_items := playlist_items s;
     log_albums := log_albums s;
     log_playlists_others := log_playlists_others s;
     log_tracks := v |}.

(** The three values of [status]. *)
Definition saved : str := lit "saved".
Definition skipped_during : str := lit "skipped (saved during the run)".
Definition skipped_before : str := lit "skipped (saved before the run)".

(** The destination that stands for the user's library. *)
Definition liked_sentinel : str := lit "0".

(* ===================================================================== *)
(** * Collectors and the run ledger *)
(* ===================================================================== *)

(** [(uri, user_playlist_id) in ((uri, playlist_id) for _, uri, playlist_id, *_ in log)]:
    the search of a ledger by its primary key. *)
Definition in_log (uri user_playlist_id : str) (log : list log_entry) : bool :=
  existsb
    (fun e => bool_decide ((le_uri e, le_user_playlist_id e) = (uri, user_playlist_id)))
    log.

(** [playlist_items[k]] on the [defaultdict(list)]: a missing key is
    created with the empty list. *)
Definition dd_get (m : gmap str (list str)) (k : str)
  : list str * gmap str (list str) :=
  match m !! k with
  | Some l => (l, m)
  | None => ([], <[k := []]> m)
  end.

(** [l.extend(uri for uri in uris if uri not in l)].  The generator is
    consumed by [extend] one item at a time while [l] grows, so every test
    [uri not in l] sees the items appended so far. *)
Fixpoint extend_unique (l uris : list str) : list str :=
  match uris with
  | [] => l
  | uri :: rest =>
      if bool_decide (uri ∈ l)
      then extend_unique l rest
      else extend_unique (l ++ [uri]) rest
  end.

Definition collect_track (s : state) (info : track_info)
    (user_playlist_id : str) (liked_tracks_uri : list str) : str * state :=
  if in_log (ti_track_uri info) user_playlist_id (log_tracks s) then
    (skipped_during, s)
  else if bool_decide (ti_track_uri info ∈ liked_tracks_uri)
          && bool_decide (user_playlist_id = liked_sentinel) then
    (skipped_before, s)
  else if bool_decide (user_playlist_id ≠ liked_sentinel) then
    (* Add the track to the playlist *)
    let '(l, m) := dd_get (playlist_items s) user_playlist_id in
    if bool_decide (ti_track_uri info ∈ l)
    then (saved, set_playlist_items m s)
    else (saved, set_playlist_items (<[user_playlist_id := l ++ [ti_track_uri info]]> m) s)
  else
    (* Like the track *)
    (saved, set_tracks_to_like (tracks_to_like s ++ [ti_track_uri info]) s).

(** [not x] on the playlist field of a registry tuple: [None] and the
    empty string are falsy. *)
Definition falsy (o : option str) : bool :=
  match o with
  | None => true
  | Some [] => true
  | Some (_ :: _) => false
  end.

(** The guard of the two registry writes that keep a playlist reference:
    [not distinct_tracks.get(uri) or not distinct_tracks[uri][1]]
    (a 5-tuple is never falsy). *)
Definition may_write (dt : gmap str track_entry) (uri : str) : bool :=
  match dt !! uri with
  | None => true
  | Some e => falsy (te_playlist_uri e)
  end.

Definition mk_log_entry (log_id : Z) (uri user_playlist_id : str)
    (found_on_try : nat) (difference_ms : Z) (tracks_in_desc : nat)
    (q : str) (search_type_id : nat) (status : str) : log_entry :=
  {| le_log_id := log_id; le_uri := uri;
     le_user_playlist_id := user_playlist_id;
     le_found_on_try := found_on_try; le_difference_ms := difference_ms;
     le_tracks_in_desc := tracks_in_desc; le_q := q;
     le_search_type_id := search_type_id; le_status := status |}.

Definition log_track (s : state) (info : track_info)
    (user_playlist_id : str) (log_id : Z) (status : str) : state :=
  let s1 :=
    if may_write (distinct_tracks s) (ti_track_uri info) then
      set_distinct_tracks
        (<[ti_track_uri info :=
             {| te_album_uri := ti_album_uri info;
                te_playlist_uri := None;
                te_track_title := ti_track_title info;
                te_track_artists := ti_track_artists info;
                te_duration_ms := ti_duration_ms info |}]> (distinct_tracks s)) s
    else s in
  set_log_tracks
    (log_tracks s1 ++
       [mk_log_entry log_id (ti_track_uri info) user_playlist_id
          (ti_found_on_try info) (ti_difference_ms info)
          (ti_tracks_in_desc info) (ti_q info) (ti_search_type_id info) status])
    s1.

Definition collect_album (s : state) (info : album_info)
    (user_playlist_id : str) (liked_albums_uri : list str) : str * state :=
  if in_log (ai_album_uri info) user_playlist_id (log_albums s) then
    (skipped_during, s)
  else if bool_decide (ai_album_uri info ∈ liked_albums_uri)
          && bool_decide (user_playlist_id = liked_sentinel) then
    (skipped_before, s)
  else if bool_decide (user_playlist_id ≠ liked_sentinel) then
    (* Add album tracks to the playlist and also remove duplicates *)
    let '(l, m) := dd_get (playlist_items s) user_playlist_id in
    (saved,
     set_playlist_items
       (<[user_playlist_id := extend_unique l (ai_tracks_uri info)]> m) s)
  else
    (* Like the album *)
    (saved, set_albums_to_like (albums_to_like s ++ [ai_album_uri info]) s).

(** The loop of [log_album] over [tracks_info]. *)
Definition log_album_tracks (info : album_info)
    (dt : gmap str track_entry) : gmap str track_entry :=
  fold_left
    (fun dt '(track_uri, title, duration_ms) =>
       if may_write dt track_uri then
         <[track_uri :=
             {| te_album_uri := ai_album_uri info;
                te_playlist_uri := None;
                te_track_title := title;
                te_track_artists := ai_album_artists info;
                te_duration_ms := duration_ms |}]> dt
       else dt)
    (ai_tracks_info info) dt.

Definition log_album (s : state) (info : album_info)
    (user_playlist_id : str) (log_id : Z) (status : str) : state :=
  let s1 :=
    set_distinct_albums
      (<[ai_album_uri info :=
           {| ee_title := ai_album_title info;
              ee_by := ai_album_artists info;
              ee_duration_ms := ai_duration_ms info;
              ee_total_tracks := ai_total_tracks info |}]> (distinct_albums s)) s in
  let s2 := set_distinct_tracks (log_album_tracks info (distinct_tracks s1)) s1 in
  set_log_albums
    (log_albums s2 ++
       [mk_log_entry log_id (ai_album_uri info) user_playlist_id
          (ai_found_on_try info) (ai_difference_ms info)
          (ai_tracks_in_desc info) (ai_q info) (ai_search_type_id info) status])
    s2.

Definition collect_other_playlist (s : state) (info : playlist_info)
    (user_playlist_id : str) : str * state :=
  if negb (in_log (pi_playlist_uri info) user_playlist_id (log_playlists_others s)) then
    if bool_decide (user_playlist_id ≠ liked_sentinel) then
      (* Add playlist tracks to the current user playlist and also
         remove duplicates *)
      let '(l, m) := dd_get (playlist_items s) user_playlist_id in
      (saved,
       set_playlist_items
         (<[user_playlist_id := extend_unique l (pi_tracks_uri info)]> m) s)
    else
      (* Like the playlist *)
      (saved, set_playlists_to_like (playlists_to_like s ++ [pi_playlist_id info]) s)
  else
    (skipped_during, s).

(** The loop of [log_other_playlist] over [tracks_info]. *)
Definition log_other_playlist_tracks (info : playlist_info)
    (dt : gmap str track_entry) : gmap str track_entry :=
  fold_left
    (fun dt '(track_uri, title, artists, duration_ms, album_uri) =>
       <[track_uri :=
           {| te_album_uri := album_uri;
              te_playlist_uri := Some (pi_playlist_uri info);
              te_track_title := title;
              te_track_artists := join (lit "; ") artists;
              te_duration_ms := duration_ms |}]> dt)
    (pi_tracks_info info) dt.

Definition log_other_playlist (s : state) (info : playlist_info)
    (user_playlist_id : str) (log_id : Z) (status : str) : state :=
  let s1 :=
    set_distinct_playlists_others
      (<[pi_playlist_uri info :=
           {| ee_title := pi_playlist_title info;
              ee_by := pi_playlist_owner info;
              ee_duration_ms := pi_duration_ms info;
              ee_total_tracks := pi_total_tracks info |}]>
         (distinct_playlists_others s)) s in
  let s2 := set_distinct_tracks (log_other_playlist_tracks info (distinct_tracks s1)) s1 in
  set_log_playlists_others
    (log_playlists_others s2 ++
       [mk_log_entry log_id (pi_playlist_uri info) user_playlist_id
          (pi_found_on_try info) (pi_difference_ms info)
          (pi_tracks_in_desc info) (pi_q info) (pi_search_type_id info) status])
    s2.

(** [playlist.iloc[0, 2]] on the rows of [df_playlists] whose
    [youtube_playlist_id] is the row's: the third column of the first of
    them, and [IndexError] when there is none. *)
Definition get_user_playlist_id (r : row) (df_playlists : list playlist_row)
  : result str :=
  let playlist :=
    filter (fun p => pr_youtube_playlist_id p = row_youtube_playlist_id r)
           df_playlists in
  match playlist with
  | [] => Raise IndexError
  | p :: _ => Ok (pr_spotify_playlist_id p)
  end.

(* ===================================================================== *)
(** * Candidate scorers and query cascades *)
(* ===================================================================== *)

(** A Python integer (here a counter, far below 2^53) as a binary64. *)
Definition float_of_nat (n : nat) : PrimFloat.float :=
  PrimFloat.of_uint63 (Uint63.of_Z (Z.of_nat n)).

(** [(tracks_in_desc / total) * 100] for a divisor that is not zero. *)
Definition percent_of (tracks_in_desc total : nat) : PrimFloat.float :=
  PrimFloat.mul
    (PrimFloat.div (float_of_nat tracks_in_desc) (float_of_nat total))
    (float_of_nat 100).

(** [(tracks_in_desc / total) * 100]: the true division raises on a zero
    divisor. *)
Definition percent_in_desc (tracks_in_desc total : nat) : result PrimFloat.float :=
  match total with
  | O => Raise ZeroDivisionError
  | S _ => Ok (percent_of tracks_in_desc total)
  end.

(** [percent >= 60]. *)
Definition at_least_60 (percent : PrimFloat.float) : bool :=
  PrimFloat.leb (float_of_nat 60) percent.

(** The same test on exact rationals: [k / n * 100 >= 60]. *)
Definition exact_at_least_60 (k n : nat) : bool :=
  (60 * Z.of_nat n <=? 100 * Z.of_nat k)%Z.

(** Truth value of a Python integer. *)
Definition truthy (n : nat) : bool := negb (n =? 0)%nat.

Definition max_diff : Z := 40000.

(** The accumulators of the loop over the tracks of an album or of a
    playlist. *)
Record album_acc : Type := {
  acc_tracks_uri : list str;
  acc_tracks_info : list (str * str * Z);
  acc_diff : Z;
  acc_tracks_in_desc : nat;
  acc_length : Z
}.

Record playlist_acc : Type := {
  pacc_tracks_uri : list str;
  pacc_tracks_info : list (str * str * list str * Z * str);
  pacc_diff : Z;
  pacc_tracks_in_desc : nat;
  pacc_length : Z
}.

Section Matching.

(** [str.lower], left abstract: every statement below holds whatever
    Unicode case mapping stands for it. *)
Variable lower : str -> str.

(** The catalog client. *)
Variable sp : spotify.

(** ** Tracks *)

(** The loop over [track["artists"]]: the names collected and the
    number of them found in the video title. *)
Definition artists_loop (r : row) (names : list str) : list str * nat :=
  fold_left
    (fun '(artists, artists_in_title) name =>
       (artists ++ [name],
        if contains (lower name) (lower (row_youtube_title r))
        then S artists_in_title else artists_in_title))
    names ([], 0).

(** The body of the loop of [qsearch_track] for one candidate. *)
Definition score_track (r : row) (q : str) (search_type_id track_num : nat)
    (track : sp_track) : option track_info :=
  let diff := Z.abs (st_duration_ms track - row_duration_ms r) in
  let '(artists, artists_in_title) := artists_loop r (st_artists track) in
  let track_in_title :=
    if contains (lower (st_name track)) (lower (row_youtube_title r))
    then 1 else 0 in
  if (diff <=? 5000)%Z || (truthy track_in_title && truthy artists_in_title)
  then Some {| ti_track_uri := st_uri track;
               ti_album_uri := st_album_uri track;
               ti_track_title := st_name track;
               ti_track_artists := join (lit "; ") artists;
               ti_duration_ms := st_duration_ms track;
               ti_found_on_try := track_num;
               ti_difference_ms := Z.abs diff;
               ti_tracks_in_desc := 1;
               ti_q := q;
               ti_search_type_id := search_type_id |}
  else None.

(** [for track_num, track in enumerate(items)]: the first candidate
    accepted is returned; falling off the loop returns [None]. *)
Fixpoint qsearch_track_loop (r : row) (q : str) (search_type_id track_num : nat)
    (items : list sp_track) : option track_info :=
  match items with
  | [] => None
  | track :: rest =>
      match score_track r q search_type_id track_num track with
      | Some info => Some info
      | None => qsearch_track_loop r q search_type_id (S track_num) rest
      end
  end.

(** [qsearch_track(row, sp, q, search_type_id, limit)].  [sp] is a
    required positional parameter: [sp_arg] is [None] at a call that
    does not pass it, and the call raises [TypeError]. *)
Definition qsearch_track (r : row) (sp_arg : option spotify) (q : str)
    (search_type_id limit : nat) : result (option track_info) :=
  match sp_arg with
  | None => Raise TypeError
  | Some sp' =>
      Ok (qsearch_track_loop r q search_type_id 0 (search_track sp' q limit))
  end.

Definition topic_marker : str := lit " - Topic".

Definition find_track (r : row) : result (option track_info) :=
  (* First try, depends on whether it is a Topic Channel *)
  track_info ←
    (if contains topic_marker (row_youtube_channel r) then
       let artist := re_sub_literal topic_marker [] (row_youtube_channel r) in
       let artist := re_sub_literal (lit "'") (lit " ") artist in
       let q := lit "track:" ++ row_youtube_title r ++ lit " artist:" ++ artist in
       qsearch_track r (Some sp) q 0 2
     else
       qsearch_track r None (row_youtube_title r) 1 2);
  (* Second try, track + space + track name in quotes *)
  track_info ←
    (if negb (bool_decide (is_Some track_info)) then
       let q := lit "track " ++ [dquote] ++ row_youtube_title r ++ [dquote] in
       qsearch_track r (Some sp) q 2 2
     else Ok track_info);
  (* Third try, channel name + space + track title *)
  track_info ←
    (if negb (bool_decide (is_Some track_info)) then
       let artist := re_sub_literal topic_marker [] (row_youtube_channel r) in
       let q := artist ++ lit " " ++ row_youtube_title r in
       qsearch_track r (Some sp) q 3 2
     else Ok track_info);
  Ok track_info.

(** ** Albums *)

(** One turn of the loop over [tracks["tracks"]["items"]]. *)
Definition album_step (r : row) (acc : album_acc) (track : sp_album_track)
  : album_acc :=
  {| acc_tracks_in_desc :=
       if contains (lower (at_name track)) (row_description r)
       then S (acc_tracks_in_desc acc) else acc_tracks_in_desc acc;
     acc_tracks_uri := acc_tracks_uri acc ++ [at_uri track];
     acc_tracks_info :=
       acc_tracks_info acc ++ [(at_uri track, at_name track, at_duration_ms track)];
     acc_length := (acc_length acc + at_duration_ms track)%Z;
     acc_diff := (acc_diff acc - at_duration_ms track)%Z |}.

Definition album_loop (r : row) (tracks : list sp_album_track) : album_acc :=
  fold_left (album_step r) tracks
    {| acc_tracks_uri := []; acc_tracks_info := [];
       acc_diff := row_duration_ms r; acc_tracks_in_desc := 0;
       acc_length := 0 |}.

(** The body of the loop of [qsearch_album] for one candidate whose
    tracks are [tracks]. *)
Definition score_album (r : row) (q : str) (search_type_id album_num : nat)
    (a : sp_album) (tracks : list sp_album_track) : result (option album_info) :=
  let acc := album_loop r tracks in
  percent ← percent_in_desc (acc_tracks_in_desc acc) (length (acc_tracks_uri acc));
  if (Z.abs (acc_diff acc) <? max_diff)%Z
     || ((4 <=? length (acc_tracks_uri acc))%nat && at_least_60 percent)
  then Ok (Some {| ai_album_uri := sa_uri a;
                   ai_tracks_uri := acc_tracks_uri acc;
                   ai_tracks_info := acc_tracks_info acc;
                   ai_album_title := sa_name a;
                   ai_album_artists := join (lit "; ") (sa_artists a);
                   ai_duration_ms := acc_length acc;
                   ai_total_tracks := length (acc_tracks_uri acc);
                   ai_found_on_try := album_num;
                   ai_difference_ms := Z.abs (acc_diff acc);
                   ai_tracks_in_desc := acc_tracks_in_desc acc;
                   ai_q := q;
                   ai_search_type_id := search_type_id |})
  else Ok None.

Fixpoint qsearch_album_loop (r : row) (q : str) (search_type_id album_num : nat)
    (items : list sp_album) : result (option album_info) :=
  match items with
  | [] => Ok None
  | a :: rest =>
      found ← score_album r q search_type_id album_num a (album sp (sa_uri a));
      match found with
      | Some info => Ok (Some info)
      | None => qsearch_album_loop r q search_type_id (S album_num) rest
      end
  end.

Definition qsearch_album (r : row) (q : str) (search_type_id limit : nat)
  : result (option album_info) :=
  qsearch_album_loop r q search_type_id 0 (search_album sp q limit).

Definition find_album (r : row) : result (option album_info) :=
  let youtube_title := fix_youtube_title (row_youtube_title r) in
  album_info ← qsearch_album r youtube_title 0 1;
  album_info ←
    (if negb (bool_decide (is_Some album_info)) then
       let q := lit "album " ++ [dquote] ++ youtube_title ++ [dquote] in
       qsearch_album r q 1 1
     else Ok album_info);
  album_info ←
    (if negb (bool_decide (is_Some album_info)) then
       qsearch_album r (row_youtube_title r) 2 1
     else Ok album_info);
  Ok album_info.

(** ** Playlists *)

(** One turn of the loop over the entries of a playlist; an entry
    without a track is passed over. *)
Definition playlist_step (r : row) (acc : playlist_acc)
    (entry : option sp_playlist_track) : playlist_acc :=
  match entry with
  | None => acc
  | Some track =>
      {| pacc_tracks_in_desc :=
           if contains (lower (pt_name track)) (row_description r)
           then S (pacc_tracks_in_desc acc) else pacc_tracks_in_desc acc;
         pacc_tracks_uri := pacc_tracks_uri acc ++ [pt_uri track];
         pacc_tracks_info :=
           pacc_tracks_info acc ++
             [(pt_uri track, pt_name track, pt_artists track,
               pt_duration_ms track, pt_album_uri track)];
         pacc_length := (pacc_length acc + pt_duration_ms track)%Z;
         pacc_diff := (pacc_diff acc - pt_duration_ms track)%Z |}
  end.

Definition playlist_loop (r : row) (entries : list (option sp_playlist_track))
  : playlist_acc :=
  fold_left (playlist_step r) entries
    {| pacc_tracks_uri := []; pacc_tracks_info := [];
       pacc_diff := row_duration_ms r; pacc_tracks_in_desc := 0;
       pacc_length := 0 |}.

Definition score_playlist (r : row) (q : str) (search_type_id playlist_num : nat)
    (p : sp_playlist) (entries : list (option sp_playlist_track))
  : result (option playlist_info) :=
  let acc := playlist_loop r entries in
  let total_tracks := length (pacc_tracks_uri acc) in
  percent ← percent_in_desc (pacc_tracks_in_desc acc) total_tracks;
  if (Z.abs (pacc_diff acc) <? max_diff)%Z
     || ((4 <=? total_tracks)%nat && at_least_60 percent)
  then Ok (Some {| pi_playlist_uri := sl_uri p;
                   pi_playlist_id := sl_id p;
                   pi_tracks_uri := pacc_tracks_uri acc;
                   pi_tracks_info := pacc_tracks_info acc;
                   pi_playlist_title := sl_name p;
                   pi_playlist_owner := sl_owner p;
                   pi_duration_ms := pacc_length acc;
                   pi_total_tracks := total_tracks;
                   pi_found_on_try := playlist_num;
                   pi_difference_ms := Z.abs (pacc_diff acc);
                   pi_tracks_in_desc := pacc_tracks_in_desc acc;
                   pi_q := q;
                   pi_search_type_id := search_type_id |})
  else Ok None.

Fixpoint qsearch_playlist_loop (r : row) (q : str)
    (search_type_id playlist_num : nat) (items : list sp_playlist)
  : result (option playlist_info) :=
  match items with
  | [] => Ok None
  | p :: rest =>
      found ← score_playlist r q search_type_id playlist_num p
                (playlist sp (sl_uri p));
      match found with
      | Some info => Ok (Some info)
      | None => qsearch_playlist_loop r q search_type_id (S playlist_num) rest
      end
  end.

Definition qsearch_playlist (r : row) (q : str) (search_type_id limit : nat)
  : result (option playlist_info) :=
  qsearch_playlist_loop r q search_type_id 0 (search_playlist sp q limit).

Definition find_other_playlist (r : row) : result (option playlist_info) :=
  (* First try, just video title *)
  playlist_info ← qsearch_playlist r (row_youtube_title r) 1 2;
  (* Second try, playlist + space + playlist name in quotes *)
  playlist_info ←
    (if negb (bool_decide (is_Some playlist_info)) then
       let q := lit "playlist " ++ [dquote] ++ row_youtube_title r ++ [dquote] in
       qsearch_playlist r q 2 2
     else Ok playlist_info);
  (* Third try, channel name + space + playlist title *)
  playlist_info ←
    (if negb (bool_decide (is_Some playlist_info)) then
       let q := row_youtube_channel r ++ lit " " ++ row_youtube_title r in
       qsearch_playlist r q 3 2
     else Ok playlist_info);
  Ok playlist_info.

(** ** The per-record driver *)

(** [THRESHOLD_MS] of the environment, read as an integer; [None] when
    it is unset or empty. *)
Variable THRESHOLD_MS : option Z.

Definition over_threshold (r : row) : bool :=
  match THRESHOLD_MS with
  | Some t => (t <=? row_duration_ms r)%Z
  | None => false
  end.

Definition prepare_spotify (s : state) (r : row)
    (df_playlists : list playlist_row)
    (liked_albums_uri liked_tracks_uri : list str) : result state :=
  user_playlist_id ← get_user_playlist_id r df_playlists;
  if over_threshold r then
    (* ALBUM OR PLAYLIST *)
    album_info ← find_album r;
    match album_info with
    | Some info =>
        let '(status, s1) := collect_album s info user_playlist_id liked_albums_uri in
        Ok (log_album s1 info user_playlist_id (row_log_id r) status)
    | None =>
        playlist_info ← find_other_playlist r;
        match playlist_info with
        | Some info =>
            let '(status, s1) := collect_other_playlist s info user_playlist_id in
            Ok (log_other_playlist s1 info user_playlist_id (row_log_id r) status)
        | None => Ok s
        end
    end
  else
    (* TRACK *)
    track_info ← find_track r;
    match track_info with
    | Some info =>
        let '(status, s1) := collect_track s info user_playlist_id liked_tracks_uri in
        Ok (log_track s1 info user_playlist_id (row_log_id r) status)
    | None => Ok s
    end.

End Matching.

(* ===================================================================== *)
(** * Runs of the collector *)
(* ===================================================================== *)

(** The operations that write the shared dictionaries and lists. *)
Inductive op : Type :=
| CollectTrack (info : track_info) (user_playlist_id : str) (liked : list str)
| LogTrack (info : track_info) (user_playlist_id : str) (log_id : Z) (status : str)
| CollectAlbum (info : album_info) (user_playlist_id : str) (liked : list str)
| LogAlbum (info : album_info) (user_playlist_id : str) (log_id : Z) (status : str)
| CollectOtherPlaylist (info : playlist_info) (user_playlist_id : str)
| LogOtherPlaylist (info : playlist_info) (user_playlist_id : str) (log_id : Z)
    (status : str).

Definition exec (s : state) (o : op) : state :=
  match o with
  | CollectTrack info d liked => snd (collect_track s info d liked)
  | LogTrack info d log_id status => log_track s info d log_id status
  | CollectAlbum info d liked => snd (collect_album s info d liked)
  | LogAlbum info d log_id status => log_album s info d log_id status
  | CollectOtherPlaylist info d => snd (collect_other_playlist s info d)
  | LogOtherPlaylist info d log_id status => log_other_playlist s info d log_id status
  end.

Definition run (ops : list op) (s : state) : state := fold_left exec ops s.

(** What [prepare_spotify] does with an accepted match: collect, then
    log with the status found. *)
Definition save_track (s : state) (info : track_info) (user_playlist_id : str)
    (log_id : Z) (liked_tracks_uri : list str) : state :=
  let '(status, s1) := collect_track s info user_playlist_id liked_tracks_uri in
  log_track s1 info user_playlist_id log_id status.

Definition save_album (s : state) (info : album_info) (user_playlist_id : str)
    (log_id : Z) (liked_albums_uri : list str) : state :=
  let '(status, s1) := collect_album s info user_playlist_id liked_albums_uri in
  log_album s1 info user_playlist_id log_id status.

Definition save_other_playlist (s : state) (info : playlist_info)
    (user_playlist_id : str) (log_id : Z) : state :=
  let '(status, s1) := collect_other_playlist s info user_playlist_id in
  log_other_playlist s1 info user_playlist_id log_id status.

(** The statuses of a ledger, in order. *)
Definition statuses (log : list log_entry) : list str := map le_status log.

(** No list of [playlist_items] holds a URI twice. *)
Definition staging_nodup (s : state) : Prop :=
  forall d l, playlist_items s !! d = Some l -> NoDup l.

(** The playlist reference of a track of the registry, if it has one
    that is not falsy. *)
Definition owning_playlist (s : state) (track_uri : str) : option str :=
  match distinct_tracks s !! track_uri with
  | Some e => if falsy (te_playlist_uri e) then None else te_playlist_uri e
  | None => None
  end.

(** The operations that write [distinct_tracks]. *)
Definition registry_op (o : op) : Prop :=
  match o with
  | LogTrack _ _ _ _ | LogAlbum _ _ _ _ | LogOtherPlaylist _ _ _ _ => True
  | _ => False
  end.



(* ===================================================================== *)
(** * The scoring rules as the specification words them *)
(* ===================================================================== *)

(** The number of elements of [l] that pass [p]. *)
Definition count_if {A} (p : A -> bool) (l : list A) : nat :=
  length (List.filter p l).

(** [a] is a case-insensitive substring of [b]. *)
Definition ci_substring (lower : str -> str) (a b : str) : bool :=
  contains (lower a) (lower b).

(** Track rule: the durations differ by at most 5000 ms, or the title of
    the candidate and one of its artists are case-insensitive substrings of
    the video title. *)
Definition track_rule (lower : str -> str) (r : row) (track : sp_track) : Prop :=
  (Z.abs (st_duration_ms track - row_duration_ms r) <= 5000)%Z
  \/ (ci_substring lower (st_name track) (row_youtube_title r) = true
      /\ exists artist, artist ∈ st_artists track
           /\ ci_substring lower artist (row_youtube_title r) = true).

(** The sum of the durations of the tracks of an album. *)
Definition album_duration (tracks : list sp_album_track) : Z :=
  fold_right Z.add 0%Z (map at_duration_ms tracks).

(** The number of track titles that are case-insensitive substrings of the
    description. *)
Definition titles_in_desc (lower : str -> str) (r : row)
    (tracks : list sp_album_track) : nat :=
  count_if (fun t => ci_substring lower (at_name t) (row_description r)) tracks.

(** Album rule: the durations differ by less than 40000 ms, or there are at
    least 4 tracks and at least 60 percent of their titles are in the
    description. *)
Definition album_rule (lower : str -> str) (r : row)
    (tracks : list sp_album_track) : Prop :=
  (Z.abs (row_duration_ms r - album_duration tracks) < 40000)%Z
  \/ (4 <= length tracks
      /\ at_least_60 (percent_of (titles_in_desc lower r tracks) (length tracks)) = true).

(** The album scorer accepts a candidate, whatever the query that led to
    it. *)
Definition album_accepted (lower : str -> str) (r : row)
    (tracks : list sp_album_track) : Prop :=
  forall q search_type_id album_num a,
    exists info,
      score_album lower r q search_type_id album_num a tracks = Ok (Some info).

(** The album rule for every candidate, the one without tracks included. *)
Definition album_rule_for_every_candidate (lower : str -> str) : Prop :=
  forall r tracks,
    lower (row_description r) = row_description r ->
    album_accepted lower r tracks <-> album_rule lower r tracks.

(** The binary64 test [percent >= 60] against the exact one, for every
    count [k <= n] of every total [1 <= n <= bound]. *)
Definition percent_checks (bound : nat) : bool :=
  forallb
    (fun n =>
       forallb
         (fun k => Bool.eqb (at_least_60 (percent_of k n)) (exact_at_least_60 k n))
         (seq 0 (S n)))
    (seq 1 bound).

(** Track rule for one candidate, with its two boundary cases. *)
Definition track_accepted (lower : str -> str) (r : row) (track : sp_track) : Prop :=
  forall q search_type_id track_num,
    is_Some (score_track lower r q search_type_id track_num track).

Definition track_rejected (lower : str -> str) (r : row) (track : sp_track) : Prop :=
  forall q search_type_id track_num,
    score_track lower r q search_type_id track_num track = None.

(** The URIs of the tracks of a playlist match. *)
Definition playlist_track_uris (info : playlist_info) : list str :=
  map (fun '(track_uri, _, _, _, _) => track_uri) (pi_tracks_info info).

(* ===================================================================== *)
(** * The earlier resolver: [dags/spotify_etl.py] *)
(* ===================================================================== *)

Module Etl.

(** What [get_spotify_playlist_id] reads of a row of [df_videos]. *)
Record video_row : Type := {
  v_playlist_name : str;
  v_title : str
}.

(** The two [logging.info] messages of [get_spotify_playlist_id]. *)
Inductive message : Type :=
| NotFoundSkipped (playlist_name title : str)
| FirstChosen (found : nat) (playlist_name : str).

(** The result ([None] for the bare [return]) and the messages logged. *)
Definition get_spotify_playlist_id (r : video_row) (df_playlists : list playlist_row)
  : option str * list message :=
  let playlist :=
    filter (fun p => pr_playlist_name p = v_playlist_name r) df_playlists in
  match playlist with
  | [] => (None, [NotFoundSkipped (v_playlist_name r) (v_title r)])
  | p :: rest =>
      (Some (pr_spotify_playlist_id p),
       if (1 <? length playlist)%nat
       then [FirstChosen (length playlist) (v_playlist_name r)]
       else [])
  end.

End Etl.

(* ===================================================================== *)
(** * Sample data *)
(* ===================================================================== *)

Module Sample.

(** A video of a topic channel and the catalog track it stands for. *)
Definition topic_row : row :=
  {| row_log_id := 1;
     row_youtube_playlist_id := lit "0";
     row_youtube_title := lit "Artist - Song";
     row_youtube_channel := lit "Artist - Topic";
     row_description := [];
     row_duration_ms := 180000 |}.

(** The same video on an ordinary channel. *)
Definition plain_row : row :=
  {| row_log_id := 2;
     row_youtube_playlist_id := lit "0";
     row_youtube_title := lit "Artist - Song";
     row_youtube_channel := lit "Some Channel";
     row_description := [];
     row_duration_ms := 180000 |}.

Definition song : sp_track :=
  {| st_uri := lit "spotify:track:song";
     st_album_uri := lit "spotify:album:single";
     st_name := lit "Song";
     st_artists := [lit "Artist"];
     st_duration_ms := 182000 |}.

(** A track whose duration is [delta] ms away and whose names are not in the
    title. *)
Definition other_track (delta : Z) : sp_track :=
  {| st_uri := lit "spotify:track:other";
     st_album_uri := lit "spotify:album:other";
     st_name := lit "Elsewhere";
     st_artists := [lit "Nobody"];
     st_duration_ms := 180000 + delta |}.

(** A track named in capitals, far from the duration of the video. *)
Definition shouting_track : sp_track :=
  {| st_uri := lit "spotify:track:loud";
     st_album_uri := lit "spotify:album:loud";
     st_name := lit "SONG";
     st_artists := [lit "Somebody"; lit "ARTIST"];
     st_duration_ms := 400000 |}.

(** A catalog that answers every track query with [song] and has no
    album and no playlist. *)
Definition catalog : spotify :=
  {| search_track := fun _ _ => [song];
     search_album := fun _ _ => [];
     album := fun _ => [];
     search_playlist := fun _ _ => [];
     playlist := fun _ => [] |}.

Definition liked_library : list playlist_row :=
  [{| pr_youtube_playlist_id := lit "0";
      pr_playlist_name := lit "Liked";
      pr_spotify_playlist_id := lit "0" |}].

(** An hour-long video whose description names three of the five tracks
    of the album. *)
Definition album_row : row :=
  {| row_log_id := 3;
     row_youtube_playlist_id := lit "PL1";
     row_youtube_title := lit "Album Name (2021) [Full Album]";
     row_youtube_channel := lit "Label";
     row_description := lit "1. intro 2. second song 3. third song";
     row_duration_ms := 3600000 |}.

Definition album_track (uri name : string) (duration_ms : Z) : sp_album_track :=
  {| at_uri := lit uri; at_name := lit name; at_duration_ms := duration_ms |}.

Definition five_tracks : list sp_album_track :=
  [album_track "t1" "Intro" 60000; album_track "t2" "Second Song" 200000;
   album_track "t3" "Third Song" 200000; album_track "t4" "Fourth" 200000;
   album_track "t5" "Fifth" 200000].

(** Three tracks, all named in the description, far from the duration. *)
Definition three_tracks : list sp_album_track :=
  [album_track "t1" "Intro" 60000; album_track "t2" "Second Song" 200000;
   album_track "t3" "Third Song" 200000].

Definition an_album : sp_album :=
  {| sa_uri := lit "spotify:album:a"; sa_name := lit "Album Name";
     sa_artists := [lit "Artist"] |}.

(** A catalog whose only album has the five tracks, and one whose only
    album has none. *)
Definition album_catalog : spotify :=
  {| search_track := fun _ _ => [];
     search_album := fun _ _ => [an_album];
     album := fun _ => five_tracks;
     search_playlist := fun _ _ => [];
     playlist := fun _ => [] |}.

Definition empty_album_catalog : spotify :=
  {| search_track := fun _ _ => [];
     search_album := fun _ _ => [an_album];
     album := fun _ => [];
     search_playlist := fun _ _ => [];
     playlist := fun _ => [] |}.

Definition two_playlists : list playlist_row :=
  [{| pr_youtube_playlist_id := lit "0";
      pr_playlist_name := lit "Liked";
      pr_spotify_playlist_id := lit "0" |};
   {| pr_youtube_playlist_id := lit "PL1";
      pr_playlist_name := lit "Albums";
      pr_spotify_playlist_id := lit "sp1" |}].

(** A video shorter than 40 s. *)
Definition short_row : row :=
  {| row_log_id := 4;
     row_youtube_playlist_id := lit "0";
     row_youtube_title := lit "Jingle";
     row_youtube_channel := lit "Label";
     row_description := [];
     row_duration_ms := 30000 |}.

Definition a_playlist : sp_playlist :=
  {| sl_uri := lit "spotify:playlist:p"; sl_id := lit "p";
     sl_name := lit "Mix"; sl_owner := lit "Someone" |}.

(** A catalog without albums whose only playlist has two entries, both
    of tracks that are gone. *)
Definition gone_playlist_catalog : spotify :=
  {| search_track := fun _ _ => [];
     search_album := fun _ _ => [];
     album := fun _ => [];
     search_playlist := fun _ _ => [a_playlist];
     playlist := fun _ => [None; None] |}.

Definition track_match : track_info :=
  {| ti_track_uri := lit "spotify:track:song";
     ti_album_uri := lit "spotify:album:single";
     ti_track_title := lit "Song";
     ti_track_artists := lit "Artist";
     ti_duration_ms := 182000;
     ti_found_on_try := 0;
     ti_difference_ms := 2000;
     ti_tracks_in_desc := 1;
     ti_q := lit "track:Artist - Song artist:Artist";
     ti_search_type_id := 0 |}.

(** Two albums that share the track [t2]. *)
Definition album_match (uri : string) (tracks : list string) : album_info :=
  {| ai_album_uri := lit uri;
     ai_tracks_uri := map lit tracks;
     ai_tracks_info := map (fun t => (lit t, lit t, 200000%Z)) tracks;
     ai_album_title := lit uri;
     ai_album_artists := lit "Artist";
     ai_duration_ms := 200000 * Z.of_nat (length tracks);
     ai_total_tracks := length tracks;
     ai_found_on_try := 0;
     ai_difference_ms := 0;
     ai_tracks_in_desc := 0;
     ai_q := lit uri;
     ai_search_type_id := 0 |}.

Definition album_one : album_info := album_match "spotify:album:one" ["t1"; "t2"]%string.
Definition album_two : album_info := album_match "spotify:album:two" ["t2"; "t3"; "t2"]%string.

(** Two playlists that share the track [t2]. *)
Definition playlist_match (uri : string) (tracks : list string) : playlist_info :=
  {| pi_playlist_uri := lit uri;
     pi_playlist_id := lit uri;
     pi_tracks_uri := map lit tracks;
     pi_tracks_info :=
       map (fun t => (lit t, lit t, [lit "Artist"], 200000%Z, lit "spotify:album:x"))
           tracks;
     pi_playlist_title := lit uri;
     pi_playlist_owner := lit "Someone";
     pi_duration_ms := 200000 * Z.of_nat (length tracks);
     pi_total_tracks := length tracks;
     pi_found_on_try := 0;
     pi_difference_ms := 0;
     pi_tracks_in_desc := 0;
     pi_q := lit uri;
     pi_search_type_id := 1 |}.

Definition playlist_one : playlist_info := playlist_match "spotify:playlist:one" ["t1"; "t2"]%string.

End Sample.

(* ===================================================================== *)
(** * The playlist rule as the scorer's comment words it *)
(* ===================================================================== *)

(** The entries of a playlist whose track is still there. *)
Definition available (entries : list (option sp_playlist_track))
  : list sp_playlist_track :=
  omap id entries.

Definition playlist_duration (tracks : list sp_playlist_track) : Z :=
  fold_right Z.add 0%Z (map pt_duration_ms tracks).

(** The number of track titles whose lower-cased form is in the
    description. *)
Definition playlist_titles_in_desc (lower : str -> str) (r : row)
    (tracks : list sp_playlist_track) : nat :=
  count_if (fun t => contains (lower (pt_name t)) (row_description r)) tracks.

(** Difference in 40 seconds or 60%+ tracks found in the description, only
    if there are at least 4 tracks: all of it over the available tracks. *)
Definition playlist_rule (lower : str -> str) (r : row)
    (tracks : list sp_playlist_track) : Prop :=
  (Z.abs (row_duration_ms r - playlist_duration tracks) < 40000)%Z
  \/ (4 <= length tracks
      /\ at_least_60
           (percent_of (playlist_titles_in_desc lower r tracks) (length tracks))
         = true).

(* ===================================================================== *)
(** * The run: the loop of [main] over the videos, and the flush *)
(* ===================================================================== *)

(** [df_videos.apply(prepare_spotify, axis=1, args=[...])]: the rows in
    order, on the shared state; an exception ends the run. *)
Fixpoint apply_prepare_spotify (lower : str -> str) (sp : spotify)
    (threshold : option Z) (s : state) (df_videos : list row)
    (df_playlists : list playlist_row)
    (liked_albums_uri liked_tracks_uri : list str) : result state :=
  match df_videos with
  | [] => Ok s
  | r :: rest =>
      s' ← prepare_spotify lower sp threshold s r df_playlists
             liked_albums_uri liked_tracks_uri;
      apply_prepare_spotify lower sp threshold s' rest df_playlists
        liked_albums_uri liked_tracks_uri
  end.

(** The calls that change the user's library. *)
Inductive api_call : Type :=
| current_user_saved_albums_add (uris : list str)
| current_user_follow_playlist (playlist_id : str)
| current_user_saved_tracks_add (uris : list str)
| playlist_add_items (playlist_id : str) (uris : list str).

(** The URIs, or the id, that a call hands to the catalog. *)
Definition uris_of_call (c : api_call) : list str :=
  match c with
  | current_user_saved_albums_add uris => uris
  | current_user_follow_playlist playlist_id => [playlist_id]
  | current_user_saved_tracks_add uris => uris
  | playlist_add_items _ uris => uris
  end.

Section Flush.

(** [split_to_50size_chunks] of [youtube_elt], a module outside these
    sources. *)
Variable split_to_50size_chunks : list str -> list (list str).

Definition like_albums (albums_to_like : list str) : list api_call :=
  match albums_to_like with
  | [] => []
  | _ :: _ => map current_user_saved_albums_add (split_to_50size_chunks albums_to_like)
  end.

Definition like_playlists (playlists_to_like : list str) : list api_call :=
  map current_user_follow_playlist playlists_to_like.

Definition like_tracks (tracks_to_like : list str) : list api_call :=
  match tracks_to_like with
  | [] => []
  | _ :: _ => map current_user_saved_tracks_add (split_to_50size_chunks tracks_to_like)
  end.

(** [populate_user_playlists] over [playlist_items.items()], given as the
    list [items]: the calls made, and the exception that ended them if
    any.  After the calls for a playlist its name is read with
    [playlist.iloc[0, 1]] from the rows of [df_playlists] that carry its
    id. *)
Fixpoint populate_user_playlists (items : list (str * list str))
    (df_playlists : list playlist_row) : list api_call * option exn :=
  match items with
  | [] => ([], None)
  | (user_playlist_id, tracks_uri) :: rest =>
      let calls :=
        map (playlist_add_items user_playlist_id)
            (split_to_50size_chunks tracks_uri) in
      match filter (fun p => pr_spotify_playlist_id p = user_playlist_id)
                   df_playlists with
      | [] => (calls, Some IndexError)
      | _ :: _ =>
          let '(calls', e) := populate_user_playlists rest df_playlists in
          (calls ++ calls', e)
      end
  end.

End Flush.

(* ===================================================================== *)
(** * The playlists created before the run *)
(* ===================================================================== *)

Section Playlists.

(** The catalog seen as a state [api], and
    [sp.user_playlist_create(user_id, name, public=False, collaborative=False)]
    on it: the new state and the id of the playlist created. *)
Variable api : Type.
Variable user_playlist_create : api -> str -> str -> api * str.

(** On a row (youtube_playlist_id, playlist_name) of [df_playlists]. *)
Definition create_user_playlists_from_df (a : api) (user_id : str)
    (youtube_playlist_id playlist_name : str) : api * str :=
  if bool_decide (youtube_playlist_id ≠ lit "0")
  then user_playlist_create a user_id playlist_name
  else (a, lit "0").

(** [df_playlists["spotify_playlist_id"] = df_playlists.apply(create_user_playlists_from_df, ...)]:
    the frame with its third column. *)
Fixpoint create_user_playlists (a : api) (user_id : str)
    (df_playlists : list (str * str)) : api * list playlist_row :=
  match df_playlists with
  | [] => (a, [])
  | (youtube_playlist_id, playlist_name) :: rest =>
      let '(a1, spotify_playlist_id) :=
        create_user_playlists_from_df a user_id youtube_playlist_id playlist_name in
      let '(a2, rows) := create_user_playlists a1 user_id rest in
      (a2,
       {| pr_youtube_playlist_id := youtube_playlist_id;
          pr_playlist_name := playlist_name;
          pr_spotify_playlist_id := spotify_playlist_id |} :: rows)
  end.

End Playlists.

(* ===================================================================== *)
(** * The log table: [create_df_spotify_log] *)
(* ===================================================================== *)

(** A cell of a frame; [NaN] where a frame has no value. *)
Inductive cell : Type :=
| CInt (z : Z)
| CStr (s : str)
| NaN.

(** A frame: its column names and its rows, cell by column. *)
Record frame : Type := {
  f_columns : list str;
  f_rows : list (list cell)
}.

(** A tuple of a ledger, field by field. *)
Definition tuple_cells (e : log_entry) : list cell :=
  [CInt (le_log_id e); CStr (le_uri e); CStr (le_user_playlist_id e);
   CInt (Z.of_nat (le_found_on_try e)); CInt (le_difference_ms e);
   CInt (Z.of_nat (le_tracks_in_desc e)); CStr (le_q e);
   CInt (Z.of_nat (le_search_type_id e)); CStr (le_status e)].

(** [pd.DataFrame(log, columns=cols)]. *)
Definition DataFrame (log : list log_entry) (cols : list str) : frame :=
  {| f_columns := cols; f_rows := map tuple_cells log |}.

(** The cell of a row under the column [c], [NaN] when the row has no
    such column. *)
Fixpoint cell_of (c : str) (cols : list str) (cells : list cell) : cell :=
  match cols, cells with
  | c' :: cols', x :: cells' =>
      if bool_decide (c' = c) then x else cell_of c cols' cells'
  | _, _ => NaN
  end.

(** The rows of a frame laid out under the columns [cols]. *)
Definition laid_out (cols : list str) (f : frame) : list (list cell) :=
  map (fun cells => map (fun c => cell_of c (f_columns f) cells) cols) (f_rows f).

(** The elements of [l] that are not in [seen], each once, in order of
    first appearance. *)
Fixpoint first_occurrences (seen l : list str) : list str :=
  match l with
  | [] => []
  | x :: rest =>
      if bool_decide (x ∈ seen) then first_occurrences seen rest
      else x :: first_occurrences (x :: seen) rest
  end.

(** The columns of [fs], each once, in order of appearance. *)
Definition all_columns (fs : list frame) : list str :=
  first_occurrences [] (concat (map f_columns fs)).

(** [pd.concat(fs)]: the rows of the frames one after the other, under
    the columns of all of them. *)
Definition pd_concat (fs : list frame) : frame :=
  let cols := all_columns fs in
  {| f_columns := cols; f_rows := concat (map (laid_out cols) fs) |}.

(** [df[cols]]: the columns [cols] in that order; no frame ([KeyError])
    when one of them is not a column of [df]. *)
Definition select (cols : list str) (f : frame) : option frame :=
  if bool_decide (Forall (fun c => c ∈ f_columns f) cols)
  then Some {| f_columns := cols; f_rows := laid_out cols f |}
  else None.

(** [cols.insert(i, x)] and [cols.pop(i)] for an index within the list. *)
Definition list_insert_at {A} (i : nat) (x : A) (l : list A) : list A :=
  take i l ++ x :: drop i l.

Definition list_pop {A} (i : nat) (l : list A) : list A := delete i l.

Definition log_cols : list str :=
  [lit "log_id"; lit "album_uri"; lit "user_playlist_id"; lit "found_on_try";
   lit "difference_ms"; lit "tracks_in_desc"; lit "q"; lit "search_type_id";
   lit "status"].

Definition create_df_spotify_log (log_albums log_playlists_others log_tracks
    : list log_entry) : option frame :=
  let cols := log_cols in
  let df1 := DataFrame log_albums cols in
  let cols := <[1 := lit "playlist_uri"]> cols in
  let df2 := DataFrame log_playlists_others cols in
  let cols := <[1 := lit "track_uri"]> cols in
  let df3 := DataFrame log_tracks cols in
  let df_spotify_log := pd_concat [df1; df2; df3] in
  let cols := list_insert_at 1 (lit "playlist_uri") cols in
  let cols := list_insert_at 1 (lit "album_uri") cols in
  let cols := list_pop 4 cols in  (* drop user_playlist_id *)
  select cols df_spotify_log.

(** The names of the fields of [log_schema] in [main], in order. *)
Definition log_schema : list str :=
  [lit "log_id"; lit "album_uri"; lit "playlist_uri"; lit "track_uri";
   lit "found_on_try"; lit "difference_ms"; lit "tracks_in_desc"; lit "q";
   lit "search_type_id"; lit "status"].

(** The row of the log table for a tuple of the ledger number [kind]
    (0 albums, 1 playlists, 2 tracks). *)
Definition log_table_row (kind : nat) (e : log_entry) : list cell :=
  [CInt (le_log_id e);
   if (kind =? 0)%nat then CStr (le_uri e) else NaN;
   if (kind =? 1)%nat then CStr (le_uri e) else NaN;
   if (kind =? 2)%nat then CStr (le_uri e) else NaN;
   CInt (Z.of_nat (le_found_on_try e)); CInt (le_difference_ms e);
   CInt (Z.of_nat (le_tracks_in_desc e)); CStr (le_q e);
   CInt (Z.of_nat (le_search_type_id e)); CStr (le_status e)].

(* ===================================================================== *)
(** * More sample data *)
(* ===================================================================== *)

Module Cases.

(** The album video of [Sample] under a title without brackets. *)
Definition bare_album_row : row :=
  {| row_log_id := 5;
     row_youtube_playlist_id := lit "PL1";
     row_youtube_title := lit "Album Name";
     row_youtube_channel := lit "Label";
     row_description := lit "1. intro 2. second song 3. third song";
     row_duration_ms := 3600000 |}.

Definition playlist_track (uri name : string) (duration_ms : Z) : sp_playlist_track :=
  {| pt_uri := lit uri; pt_name := lit name; pt_artists := [lit "Artist"];
     pt_duration_ms := duration_ms; pt_album_uri := lit "spotify:album:x" |}.

(** Five entries, one of them of a track that is gone; three of the four
    titles left are in the description of the album videos. *)
Definition entries : list (option sp_playlist_track) :=
  [Some (playlist_track "t1" "Intro" 60000); None;
   Some (playlist_track "t2" "Second Song" 200000);
   Some (playlist_track "t3" "Third Song" 200000);
   Some (playlist_track "t4" "Fourth" 200000)].

(** A catalog without albums whose only playlist has these entries. *)
Definition playlist_catalog : spotify :=
  {| search_track := fun _ _ => [];
     search_album := fun _ _ => [];
     album := fun _ => [];
     search_playlist := fun _ _ => [Sample.a_playlist];
     playlist := fun _ => entries |}.

(** A catalog state that counts the playlists created and names the n-th
    one "sp" followed by n as a letter. *)
Definition create_numbered (n : nat) (user_id name : str) : nat * str :=
  (S n, lit "sp" ++ [N.of_nat (97 + n)]).

Definition youtube_playlists : list (str * str) :=
  [(lit "0", lit "Liked"); (lit "PL1", lit "Albums"); (lit "PL2", lit "Mixes")].

(** A catalog with the song and the album of [Sample], and three videos
    to resolve over it: an album, a track of a topic channel, and the
    album once more. *)
Definition full_catalog : spotify :=
  {| search_track := fun _ _ => [Sample.song];
     search_album := fun _ _ => [Sample.an_album];
     album := fun _ => Sample.five_tracks;
     search_playlist := fun _ _ => [];
     playlist := fun _ => [] |}.

Definition videos : list row :=
  [Sample.album_row; Sample.topic_row; Sample.album_row].

End Cases.

(* ===================================================================== *)
(** * What a run keeps true *)
(* ===================================================================== *)

(** The list staged for [d], empty when [d] is not a key. *)
Definition staged (s : state) (d : str) : list str :=
  default [] (playlist_items s !! d).

(** Nothing is staged for liking twice, nothing that the snapshot taken
    before the run holds, and everything staged for liking is in the ledger
    for the destination "0". *)
Definition likes_ok (liked_albums_uri liked_tracks_uri : list str) (s : state)
  : Prop :=
  NoDup (tracks_to_like s) /\ NoDup (albums_to_like s)
  /\ (forall u, u ∈ tracks_to_like s ->
        (u ∉ liked_tracks_uri) /\ in_log u liked_sentinel (log_tracks s) = true)
  /\ (forall u, u ∈ albums_to_like s ->
        (u ∉ liked_albums_uri) /\ in_log u liked_sentinel (log_albums s) = true).

(** Every entry of a ledger has its entity in the registry of its kind. *)
Definition ledger_in_registry (s : state) : Prop :=
  (forall e, e ∈ log_tracks s -> is_Some (distinct_tracks s !! le_uri e))
  /\ (forall e, e ∈ log_albums s -> is_Some (distinct_albums s !! le_uri e))
  /\ (forall e, e ∈ log_playlists_others s ->
        is_Some (distinct_playlists_others s !! le_uri e)).

(** Every key of the staging map is the id of a playlist of
    [df_playlists] and is not the sentinel "0". *)
Definition staging_known (df_playlists : list playlist_row) (s : state) : Prop :=
  forall d l, playlist_items s !! d = Some l ->
    d <> liked_sentinel
    /\ exists p, p ∈ df_playlists /\ pr_spotify_playlist_id p = d.

(** The entries that [s'] has and [s] has not, ledger by ledger. *)
Definition ledger_grows (s s' : state) (tracks albums playlists : list log_entry)
  : Prop :=
  log_tracks s' = log_tracks s ++ tracks
  /\ log_albums s' = log_albums s ++ albums
  /\ log_playlists_others s' = log_playlists_others s ++ playlists.

(** What a collector does to the staging map when it stages [uris] for
    the playlist [d]: the list of [d] keeps what it had, in order, and gains
    the URIs it had not; the other lists and the rest of the state are
    untouched. *)
Definition staged_for_playlist (s s' : state) (d : str) (uris : list str) : Prop :=
  d <> liked_sentinel
  /\ staged s d `prefix_of` staged s' d
  /\ (forall x, x ∈ staged s' d <-> x ∈ staged s d \/ x ∈ uris)
  /\ is_Some (playlist_items s' !! d)
  /\ (forall k, k <> d -> playlist_items s' !! k = playlist_items s !! k)
  /\ s' = set_playlist_items (playlist_items s') s.

(* ===================================================================== *)
(** * The earlier resolver as a whole: [dags/spotify_etl.py] *)
(* ===================================================================== *)

(** [str(n)] of a Python integer. *)
Definition str_of_Z (z : Z) : str :=
  lit (DecimalString.NilZero.string_of_int (Z.to_int z)).

(** [percent >= 70]. *)
Definition at_least_70 (percent : PrimFloat.float) : bool :=
  PrimFloat.leb (float_of_nat 70) percent.

Module Earlier.

(** The catalog calls, under names that the functions of this script do
    not take. *)
Definition sp_search_track := search_track.
Definition sp_search_album := search_album.
Definition sp_album_tracks := album.

(** A row of [df_videos]; [playlist_name] is null for a video outside
    every playlist (the join is a left join). *)
Record video : Type := {
  video_id : str;
  playlist_name : option str;
  channel_name : str;
  title : str;
  description : str;
  duration_ms : Z
}.

(** A tuple of [spotify_log]. *)
Record entry : Type := {
  spotify_uri : str;
  spotify_playlist_id : option str;
  youtube_video_id : str;
  found_on_try : str;
  difference_ms : str;
  tracks_in_desc : option str;
  q : str;
  search_type_id : str;
  status : str
}.

(** The dictionaries and the list of the script, the calls made to the
    catalog (this resolver likes and adds at once) and the messages
    logged. *)
Record state : Type := {
  spotify_albums : gmap str (str * str * str * str);
  spotify_tracks : gmap str (str * str * str * str);
  spotify_log : list entry;
  calls : list api_call;
  messages : list Etl.message
}.

Definition empty : state :=
  {| spotify_albums := ∅; spotify_tracks := ∅; spotify_log := [];
     calls := []; messages := [] |}.

(** [(uri, spotify_playlist_id) in ((uri, playlist_id) for uri, playlist_id, *_ in spotify_log)]. *)
Definition logged (uri : str) (playlist_id : option str) (log : list entry) : bool :=
  existsb
    (fun e => bool_decide ((spotify_uri e, spotify_playlist_id e) = (uri, playlist_id)))
    log.

(** Truth value of [spotify_playlist_id]. *)
Definition has_playlist (playlist_id : option str) : option str :=
  match playlist_id with
  | Some (c :: id) => Some (c :: id)
  | _ => None
  end.

(** The accumulators of the loop of [search_album] over the tracks. *)
Record scan : Type := {
  tracks_uri : list str;
  tracks_info : list (str * str * Z);
  diff : Z;
  in_desc : nat;
  album_length : Z
}.

(** [logging.info] of some messages. *)
Definition add_messages (ms : list Etl.message) (st : state) : state :=
  {| spotify_albums := spotify_albums st;
     spotify_tracks := spotify_tracks st;
     spotify_log := spotify_log st;
     calls := calls st;
     messages := messages st ++ ms |}.

Section Resolver.

Variable lower : str -> str.
Variable sp : spotify.
Variable THRESHOLD_MS : option Z.

(** The loop over [track['artists']]. *)
Definition artists_loop (v : video) (names : list str) : list str * nat :=
  fold_left
    (fun '(artists, artists_in_title) name =>
       (artists ++ [name],
        if contains (lower name) (lower (title v))
        then S artists_in_title else artists_in_title))
    names ([], 0).

(** What [search_track] and [search_album] do with an accepted entity:
    the status, and the call made when the pair is new to the log. *)
Definition like_or_skip (st : state) (uri : str) (playlist_id : option str)
    (to_playlist : str -> api_call) (to_library : api_call) : str * list api_call :=
  if negb (logged uri playlist_id (spotify_log st)) then
    (lit "saved",
     match has_playlist playlist_id with
     | Some id => [to_playlist id]
     | None => [to_library]
     end)
  else (lit "skipped", []).

(** The body of the loop of [search_track] for the candidate [track]: it
    returns on both branches of its test. *)
Definition score_track (st : state) (v : video) (playlist_id : option str)
    (query search_type : str) (track_num : nat) (track : sp_track) : state * bool :=
  let d := Z.abs (st_duration_ms track - duration_ms v) in
  let '(artists, artists_in_title) := artists_loop v (st_artists track) in
  let track_in_title :=
    if contains (lower (st_name track)) (lower (title v)) then 1 else 0 in
  if (d <=? 5000)%Z || (truthy track_in_title && truthy artists_in_title) then
    let '(verdict, new_calls) :=
      like_or_skip st (st_uri track) playlist_id
        (fun id => playlist_add_items id [st_uri track])
        (current_user_saved_tracks_add [st_uri track]) in
    ({| spotify_albums := spotify_albums st;
        spotify_tracks :=
          <[st_uri track :=
              (st_album_uri track, st_name track, join (lit "; ") artists,
               str_of_Z (st_duration_ms track))]> (spotify_tracks st);
        spotify_log :=
          spotify_log st ++
            [{| spotify_uri := st_uri track;
                spotify_playlist_id := playlist_id;
                youtube_video_id := video_id v;
                found_on_try := str_of_Z (Z.of_nat track_num);
                difference_ms := str_of_Z (Z.abs d);
                tracks_in_desc := None;
                q := query;
                search_type_id := search_type;
                status := verdict |}];
        calls := calls st ++ new_calls;
        messages := messages st |},
     true)
  else (st, false).

(** [search_track]: the loop over the candidates ends in its first turn,
    whatever the test gives; [None] when the search returns nothing. *)
Definition search_track (st : state) (v : video) (playlist_id : option str)
    (query search_type : str) (limit : nat) : state * option bool :=
  match sp_search_track sp query limit with
  | [] => (st, None)
  | track :: _ =>
      let '(st', found) := score_track st v playlist_id query search_type 0 track in
      (st', Some found)
  end.

(** [if not found]. *)
Definition not_found (found : option bool) : bool :=
  match found with
  | Some true => false
  | _ => true
  end.

Definition save_track (st : state) (v : video) (playlist_id : option str) : state :=
  (* First try, depends on whether it is a Topic Channel *)
  let '(st, found) :=
    if contains (lit " - Topic") (channel_name v) then
      let artist := re_sub_literal (lit " - Topic") [] (channel_name v) in
      let artist := re_sub_literal (lit "'") (lit " ") artist in
      let query := lit "track:" ++ title v ++ lit " artist:" ++ artist in
      search_track st v playlist_id query (lit "0") 2
    else
      search_track st v playlist_id (title v) (lit "1") 2 in
  (* Second try, track + space + track name in quotes *)
  let '(st, found) :=
    if not_found found then
      let query := lit "track " ++ [dquote] ++ title v ++ [dquote] in
      search_track st v playlist_id query (lit "2") 2
    else (st, found) in
  (* Third try, channel name + space + track title *)
  let '(st, found) :=
    if not_found found then
      let artist := re_sub_literal (lit " - Topic") [] (channel_name v) in
      let query := artist ++ lit " " ++ title v in
      search_track st v playlist_id query (lit "3") 2
    else (st, found) in
  st.

(** The loop of [search_album] over the tracks of an album: it stops
    after the track that takes [diff] under -20000. *)
Fixpoint scan_tracks (v : video) (acc : scan) (tracks : list sp_album_track) : scan :=
  match tracks with
  | [] => acc
  | track :: rest =>
      let acc :=
        {| in_desc :=
             if contains (lower (at_name track)) (description v)
             then S (in_desc acc) else in_desc acc;
           tracks_uri := tracks_uri acc ++ [at_uri track];
           tracks_info :=
             tracks_info acc ++ [(at_uri track, at_name track, at_duration_ms track)];
           album_length := (album_length acc + at_duration_ms track)%Z;
           diff := (diff acc - at_duration_ms track)%Z |} in
      if (diff acc <? -20000)%Z then acc else scan_tracks v acc rest
  end.

Definition start (v : video) : scan :=
  {| tracks_uri := []; tracks_info := []; diff := duration_ms v; in_desc := 0;
     album_length := 0 |}.

(** The loop of [search_album] over [tracks_info], on [spotify_tracks]. *)
Definition register_tracks (a : sp_album) (infos : list (str * str * Z))
    (tracks : gmap str (str * str * str * str)) : gmap str (str * str * str * str) :=
  fold_left
    (fun tracks '(track_uri, name, duration) =>
       <[track_uri :=
           (sa_uri a, name, join (lit "; ") (sa_artists a), str_of_Z duration)]> tracks)
    infos tracks.

(** The body of the loop of [search_album] for the candidate [a]. *)
Definition score_album (st : state) (v : video) (playlist_id : option str)
    (query search_type : str) (album_num : nat) (a : sp_album)
  : result (state * bool) :=
  let acc := scan_tracks v (start v) (sp_album_tracks sp (sa_uri a)) in
  percent ← percent_in_desc (in_desc acc) (length (tracks_uri acc));
  if (Z.abs (diff acc) <? 40000)%Z
     || ((4 <=? length (tracks_uri acc))%nat && at_least_70 percent) then
    let '(verdict, new_calls) :=
      like_or_skip st (sa_uri a) playlist_id
        (fun id => playlist_add_items id (tracks_uri acc))
        (current_user_saved_albums_add [sa_uri a]) in
    Ok ({| spotify_albums :=
             <[sa_uri a :=
                 (sa_name a, join (lit "; ") (sa_artists a),
                  str_of_Z (album_length acc),
                  str_of_Z (Z.of_nat (length (tracks_uri acc))))]> (spotify_albums st);
           spotify_tracks := register_tracks a (tracks_info acc) (spotify_tracks st);
           spotify_log :=
             spotify_log st ++
               [{| spotify_uri := sa_uri a;
                   spotify_playlist_id := playlist_id;
                   youtube_video_id := video_id v;
                   found_on_try := str_of_Z (Z.of_nat album_num);
                   difference_ms := str_of_Z (Z.abs (diff acc));
                   tracks_in_desc := Some (str_of_Z (Z.of_nat (in_desc acc)));
                   q := query;
                   search_type_id := search_type;
                   status := verdict |}];
           calls := calls st ++ new_calls;
           messages := messages st |},
        true)
  else Ok (st, false).

Definition search_album (st : state) (v : video) (playlist_id : option str)
    (query search_type : str) (limit : nat) : result (state * option bool) :=
  match sp_search_album sp query limit with
  | [] => Ok (st, None)
  | a :: _ =>
      '(st', found) ← score_album st v playlist_id query search_type 0 a;
      Ok (st', Some found)
  end.

Definition save_album (st : state) (v : video) (playlist_id : option str)
  : result state :=
  (* First try, just video title *)
  '(st, found) ← search_album st v playlist_id (title v) (lit "1") 2;
  (* Second try, album + space + album name in quotes *)
  '(st, found) ←
    (if not_found found then
       let query := lit "album " ++ [dquote] ++ title v ++ [dquote] in
       search_album st v playlist_id query (lit "2") 2
     else Ok (st, found));
  Ok st.

Definition over_threshold (v : video) : bool :=
  match THRESHOLD_MS with
  | Some t => (t <=? duration_ms v)%Z
  | None => false
  end.

(** [populate_spotify]: the playlist of the video is looked up when the
    video has one; whatever the lookup gives, the album or the track is
    then searched and saved. *)
Definition populate_spotify (st : state) (v : video)
    (df_playlists : list playlist_row) : result state :=
  let '(playlist_id, st) :=
    match playlist_name v with
    | Some (c :: name) =>
        let '(id, logged_messages) :=
          Etl.get_spotify_playlist_id
            {| Etl.v_playlist_name := c :: name; Etl.v_title := title v |}
            df_playlists in
        (id, add_messages logged_messages st)
    | _ => (None, st)
    end in
  if over_threshold v then save_album st v playlist_id
  else Ok (save_track st v playlist_id).

(** [df_videos.apply(populate_spotify, axis = 1)]. *)
Fixpoint apply_populate_spotify (st : state) (df_videos : list video)
    (df_playlists : list playlist_row) : result state :=
  match df_videos with
  | [] => Ok st
  | v :: rest =>
      st ← populate_spotify st v df_playlists;
      apply_populate_spotify st rest df_playlists
  end.

End Resolver.

(** The primary key of an entry of the log, and the entries that stand
    for a call made. *)
Definition key (e : entry) : str * option str :=
  (spotify_uri e, spotify_playlist_id e).

Definition is_saved (e : entry) : bool :=
  bool_decide (status e = lit "saved").

Definition saved_keys (log : list entry) : list (str * option str) :=
  map key (filter (fun e => is_saved e = true) log).

(** The row with its playlist name set to null. *)
Definition without_playlist (v : video) : video :=
  {| video_id := video_id v; playlist_name := None;
     channel_name := channel_name v; title := title v;
     description := description v; duration_ms := duration_ms v |}.

(** What one accepted candidate does to the state: one entry more in the
    log, and one call more exactly when the entry is saved. *)
Definition one_entry (v : video) (playlist_id : option str) (st st' : state)
    (e : entry) : Prop :=
  spotify_log st' = spotify_log st ++ [e] /\
  messages st' = messages st /\
  spotify_playlist_id e = playlist_id /\
  youtube_video_id e = video_id v /\
  found_on_try e = lit "0" /\
  ((status e = lit "saved" /\
    logged (spotify_uri e) playlist_id (spotify_log st) = false /\
    exists c, calls st' = calls st ++ [c]) \/
   (status e = lit "skipped" /\
    logged (spotify_uri e) playlist_id (spotify_log st) = true /\
    calls st' = calls st)).

(** No key is saved twice, and every saved entry stands for one call. *)
Definition calls_match_log (st : state) : Prop :=
  NoDup (saved_keys (spotify_log st)) /\
  length (calls st) = length (saved_keys (spotify_log st)).

End Earlier.

(** Videos for the earlier resolver: a track of a topic channel outside
    every playlist, an album in the playlist Albums whose description
    names four of the five tracks, and the track again in a playlist that
    has no row in the table of playlists. *)
Module EarlierCases.

Definition topic_video : Earlier.video :=
  {| Earlier.video_id := lit "v1";
     Earlier.playlist_name := None;
     Earlier.channel_name := lit "Artist - Topic";
     Earlier.title := lit "Artist - Song";
     Earlier.description := [];
     Earlier.duration_ms := 180000 |}.

Definition album_video : Earlier.video :=
  {| Earlier.video_id := lit "v2";
     Earlier.playlist_name := Some (lit "Albums");
     Earlier.channel_name := lit "Label";
     Earlier.title := lit "Album Name (2021) [Full Album]";
     Earlier.description := lit "1. intro 2. second song 3. third song 4. fourth";
     Earlier.duration_ms := 3600000 |}.

Definition unknown_video : Earlier.video :=
  {| Earlier.video_id := lit "v3";
     Earlier.playlist_name := Some (lit "Gone");
     Earlier.channel_name := lit "Artist - Topic";
     Earlier.title := lit "Artist - Song";
     Earlier.description := [];
     Earlier.duration_ms := 180000 |}.

Definition videos : list Earlier.video :=
  [album_video; topic_video; album_video; unknown_video].

End EarlierCases.

(* ===================================================================== *)
(** * Properties of the title normalizer *)
(* ===================================================================== *)

Lemma find_close_k_fmap {A} (c : N) (k : str -> A) (t : str) :
  find_close_k c k t = k <$> find_close c t.
Proof.
  induction t as [|y t IH]; simpl; [done|].
  destruct (y =? c)%N; [done|]. by destruct (y =? line_feed)%N.
Qed.

Lemma fix_youtube_title_cons (x : N) (r : str) :
  fix_youtube_title (x :: r) =
  match closing x with
  | None => x :: fix_youtube_title r
  | Some c =>
      match find_close c r with
      | Some rest => fix_youtube_title rest
      | None => x :: fix_youtube_title r
      end
  end.
Proof.
  simpl. destruct (closing x) as [c|]; [|done].
  rewrite find_close_k_fmap. by destruct (find_close c r).
Qed.

Lemma find_close_Some (c : N) (r rest : str) :
  find_close c r = Some rest ->
  exists mid, r = mid ++ c :: rest /\ (c ∉ mid) /\ (line_feed ∉ mid).
Proof.
  revert rest. induction r as [|y r IH]; intros rest; simpl; [done|].
  destruct (N.eqb_spec y c) as [->|Hc].
  - intros [= ->]. exists []. split; [done|]. split; apply not_elem_of_nil.
  - destruct (N.eqb_spec y line_feed) as [->|Hn]; [done|].
    intros H. destruct (IH _ H) as (mid & -> & H1 & H2).
    exists (y :: mid). split; [done|].
    split; rewrite not_elem_of_cons; split; auto.
Qed.

Lemma find_close_is_Some (c : N) (mid post : str) :
  line_feed ∉ mid -> is_Some (find_close c (mid ++ c :: post)).
Proof.
  induction mid as [|y mid IH]; simpl; intros Hn.
  - rewrite N.eqb_refl. by eexists.
  - apply not_elem_of_cons in Hn as [Hy Hn].
    destruct (y =? c)%N; [by eexists|].
    destruct (N.eqb_spec y line_feed) as [->|_]; [done|]. by apply IH.
Qed.

Lemma find_close_length (c : N) (r rest : str) :
  find_close c r = Some rest -> length rest < length r.
Proof.
  intros H. destruct (find_close_Some _ _ _ H) as (mid & -> & _).
  rewrite length_app. simpl. lia.
Qed.

Lemma closing_not_line_feed (x c : N) : closing x = Some c -> x <> line_feed /\ c <> line_feed.
Proof.
  unfold closing.
  destruct (N.eqb_spec x 40) as [->|_]; [intros [= <-]; done|].
  destruct (N.eqb_spec x 91) as [->|_]; [intros [= <-]; done|].
  destruct (N.eqb_spec x 12304) as [->|_]; [intros [= <-]; done|done].
Qed.

(** What follows a match on the line of [r] holds no [c] that [r] did not
    hold on that line. *)
Lemma find_close_after (c d : N) (r rest : str) :
  d <> line_feed ->
  find_close c r = None -> find_close d r = Some rest -> find_close c rest = None.
Proof.
  intros Hd. induction r as [|y r IH]; simpl; [done|].
  destruct (N.eqb_spec y c) as [->|Hc]; [done|].
  destruct (N.eqb_spec y line_feed) as [->|Hn].
  - intros _. destruct (N.eqb_spec line_feed d) as [<-|_]; done.
  - intros Hnone. destruct (N.eqb_spec y d) as [->|_]; [by intros [= <-]|]. by apply IH.
Qed.

Lemma fix_youtube_title_keeps_unclosed_len (n : nat) (c : N) (r : str) :
  length r <= n ->
  find_close c r = None -> find_close c (fix_youtube_title r) = None.
Proof.
  revert r. induction n as [|n IH]; intros [|y r] Hlen; simpl in Hlen; try done; try lia.
  intros Hnone. rewrite fix_youtube_title_cons.
  simpl in Hnone.
  destruct (N.eqb_spec y c) as [->|Hc]; [done|].
  assert (Hkeep : find_close c (y :: fix_youtube_title r) = None).
  { simpl. destruct (N.eqb_spec y c); [done|].
    destruct (y =? line_feed)%N; [done|]. apply IH; [lia|done]. }
  destruct (closing y) as [d|] eqn:Hy; [|done].
  destruct (find_close d r) as [rest|] eqn:Hrest; [|done].
  apply closing_not_line_feed in Hy as [Hy Hd].
  destruct (N.eqb_spec y line_feed) as [Heq|_]; [by destruct Hy|].
  apply IH.
  - apply find_close_length in Hrest. lia.
  - simpl in Hnone. by apply (find_close_after c d r rest).
Qed.

Lemma fix_youtube_title_keeps_unclosed (c : N) (r : str) :
  find_close c r = None -> find_close c (fix_youtube_title r) = None.
Proof. by apply (fix_youtube_title_keeps_unclosed_len (length r)). Qed.

Lemma has_span_fix_youtube_title_len (n : nat) (s : str) :
  length s <= n -> has_span (fix_youtube_title s) = false.
Proof.
  revert s. induction n as [|n IH]; intros [|y r] Hlen; simpl in Hlen; try done; try lia.
  rewrite fix_youtube_title_cons.
  destruct (closing y) as [d|] eqn:Hy.
  - destruct (find_close d r) as [rest|] eqn:Hrest.
    + apply IH. apply find_close_length in Hrest. lia.
    + simpl. rewrite Hy. rewrite (fix_youtube_title_keeps_unclosed _ _ Hrest).
      rewrite bool_decide_eq_false_2; [|by intros [? ?]]. apply IH. lia.
  - simpl. rewrite Hy. apply IH. lia.
Qed.

Lemma has_span_fix_youtube_title (s : str) : has_span (fix_youtube_title s) = false.
Proof. by apply (has_span_fix_youtube_title_len (length s)). Qed.

Lemma has_span_line_span (s : str) : has_span s = true <-> line_span s.
Proof.
  split.
  - induction s as [|x r IH]; simpl; [done|].
    assert (Hrec : has_span r = true -> line_span (x :: r)).
    { intros H. destruct (IH H) as (pre & o & mid & c & post & -> & Ho & Hn).
      by exists (x :: pre), o, mid, c, post. }
    destruct (closing x) as [c|] eqn:Hx; [|done].
    intros [H|H]%orb_true_iff; [|by auto].
    apply bool_decide_eq_true in H as [rest H].
    destruct (find_close_Some _ _ _ H) as (mid & -> & _ & Hn).
    by exists [], x, mid, c, rest.
  - intros (pre & o & mid & c & post & -> & Ho & Hn).
    induction pre as [|y pre IH]; simpl.
    + rewrite Ho. apply orb_true_iff. left. apply bool_decide_eq_true.
      by apply find_close_is_Some.
    + destruct (closing y); [|done]. apply orb_true_iff. by right.
Qed.

Lemma fix_youtube_title_id (s : str) : has_span s = false -> fix_youtube_title s = s.
Proof.
  induction s as [|x r IH]; [done|].
  rewrite fix_youtube_title_cons. simpl.
  destruct (closing x) as [c|].
  - intros [H1 H2]%orb_false_iff. apply bool_decide_eq_false in H1.
    destruct (find_close c r) as [rest|]; [by destruct H1; eexists|].
    by rewrite IH.
  - intros H. by rewrite IH.
Qed.

Lemma fix_youtube_title_sublist_len (n : nat) (s : str) :
  length s <= n -> sublist (fix_youtube_title s) s.
Proof.
  revert s. induction n as [|n IH]; intros [|y r] Hlen; simpl in Hlen; try done; try lia.
  rewrite fix_youtube_title_cons.
  assert (Hk : sublist (y :: fix_youtube_title r) (y :: r)).
  { apply sublist_skip, IH. lia. }
  destruct (closing y) as [d|]; [|done].
  destruct (find_close d r) as [rest|] eqn:Hrest; [|done].
  pose proof (find_close_length _ _ _ Hrest).
  destruct (find_close_Some _ _ _ Hrest) as (mid & -> & _).
  apply sublist_cons. etrans; [apply IH; simpl in *; lia|].
  change (d :: rest) with ([d] ++ rest). rewrite app_assoc.
  by apply sublist_inserts_l.
Qed.


(** A span that holds a line feed stays: [.] does not match it. *)
Lemma fix_youtube_title_line_feed :
  fix_youtube_title (lit "(a" ++ [line_feed] ++ lit "b)")
  = lit "(a" ++ [line_feed] ++ lit "b)".
Proof. reflexivity. Qed.

Lemma find_close_first (c : N) (mid post : str) :
  c ∉ mid -> line_feed ∉ mid -> find_close c (mid ++ c :: post) = Some post.
Proof.
  induction mid as [|y mid IH]; simpl; intros Hc Hn.
  - by rewrite N.eqb_refl.
  - apply not_elem_of_cons in Hc as [Hyc Hc].
    apply not_elem_of_cons in Hn as [Hyn Hn].
    destruct (N.eqb_spec y c) as [->|_]; [done|].
    destruct (N.eqb_spec y line_feed) as [->|_]; [done|]. by apply IH.
Qed.

Lemma starts_span_find_close (x : N) (r : str) :
  starts_span (x :: r) <->
  exists c, closing x = Some c /\ is_Some (find_close c r).
Proof.
  split.
  - intros (o & c & mid & post & [= -> ->] & Hc & Hn).
    exists c. split; [done|]. by apply find_close_is_Some.
  - intros (c & Hc & [rest Hrest]).
    destruct (find_close_Some _ _ _ Hrest) as (mid & -> & _ & Hn).
    by exists x, c, mid, rest.
Qed.

Lemma fix_youtube_title_keep (x : N) (r : str) :
  ~ starts_span (x :: r) ->
  fix_youtube_title (x :: r) = x :: fix_youtube_title r.
Proof.
  intros Hno. rewrite fix_youtube_title_cons.
  destruct (closing x) as [c|] eqn:Hc; [|done].
  destruct (find_close c r) as [rest|] eqn:Hrest; [|done].
  destruct Hno. apply starts_span_find_close. exists c. split; [done|]. by eexists.
Qed.

Lemma fix_youtube_title_span (o c : N) (mid post : str) :
  closing o = Some c -> c ∉ mid -> line_feed ∉ mid ->
  fix_youtube_title (o :: mid ++ c :: post) = fix_youtube_title post.
Proof.
  intros Ho Hc Hn. rewrite fix_youtube_title_cons, Ho.
  by rewrite find_close_first.
Qed.

Lemma removes_leftmost_spans_fix_youtube_title (x y : str) :
  removes_leftmost_spans x y -> fix_youtube_title x = y.
Proof.
  induction 1 as [|o c mid post out Ho Hc Hn _ IH|x r out Hno _ IH].
  - done.
  - by rewrite fix_youtube_title_span.
  - by rewrite fix_youtube_title_keep, IH.
Qed.

Lemma fix_youtube_title_removes_len (n : nat) (x : str) :
  length x <= n -> removes_leftmost_spans x (fix_youtube_title x).
Proof.
  revert x. induction n as [|n IH]; intros [|y r] Hlen; simpl in Hlen;
    try lia; try apply removes_end.
  rewrite fix_youtube_title_cons.
  assert (Hkeep : ~ starts_span (y :: r) ->
                  removes_leftmost_spans (y :: r) (y :: fix_youtube_title r)).
  { intros Hno. apply removes_keep; [done|]. apply IH. lia. }
  destruct (closing y) as [c|] eqn:Hy.
  - destruct (find_close c r) as [rest|] eqn:Hrest.
    + pose proof (find_close_length _ _ _ Hrest) as Hshort.
      destruct (find_close_Some _ _ _ Hrest) as (mid & -> & Hc & Hn).
      apply removes_span; [done..|]. apply IH. lia.
    + apply Hkeep. intros (c' & Hc' & Hsome)%starts_span_find_close.
      rewrite Hy in Hc'. injection Hc' as <-. rewrite Hrest in Hsome.
      by destruct Hsome.
  - apply Hkeep. intros (c' & Hc' & _)%starts_span_find_close. by rewrite Hy in Hc'.
Qed.

Lemma closing_of_closing (o c : N) : closing o = Some c -> o <> c /\ closing c = None.
Proof.
  unfold closing.
  destruct (N.eqb_spec o 40) as [->|_]; [intros [= <-]; done|].
  destruct (N.eqb_spec o 91) as [->|_]; [intros [= <-]; done|].
  destruct (N.eqb_spec o 12304) as [->|_]; [intros [= <-]; done|done].
Qed.

Lemma fix_youtube_title_plain (pre r : str) :
  Forall (fun x => closing x = None) pre ->
  fix_youtube_title (pre ++ r) = pre ++ fix_youtube_title r.
Proof.
  induction 1 as [|x pre Hx _ IH]; [done|].
  rewrite <- app_comm_cons, fix_youtube_title_cons, Hx, IH. done.
Qed.

(** Of a span nested in a span of the same kind the closing delimiter of
    the outer span stays in the title. *)
Lemma fix_youtube_title_nested (o c : N) (pre a b post : str) :
  closing o = Some c ->
  Forall (fun x => closing x = None) pre ->
  c ∉ a -> line_feed ∉ a -> c ∉ b -> line_feed ∉ b ->
  fix_youtube_title (pre ++ o :: a ++ o :: b ++ c :: c :: post)
  = pre ++ c :: fix_youtube_title post.
Proof.
  intros Ho Hpre Hca Hna Hcb Hnb.
  destruct (closing_of_closing _ _ Ho) as [Hoc Hc].
  destruct (closing_not_line_feed _ _ Ho) as [Hon _].
  rewrite fix_youtube_title_plain by done. f_equal.
  replace (o :: a ++ o :: b ++ c :: c :: post)
    with (o :: (a ++ o :: b) ++ c :: c :: post)
    by (by rewrite <- app_assoc).
  rewrite fix_youtube_title_span; [|done|..].
  - by rewrite fix_youtube_title_cons, Hc.
  - rewrite elem_of_app, elem_of_cons. intros [?|[?|?]]; done.
  - rewrite elem_of_app, elem_of_cons. intros [?|[?|?]]; done.
Qed.

(** C9. [fix_youtube_title] is the function that reads the title from the
    left, drops each opening parenthesis, square bracket or full-width
    bracket that has its closing delimiter later on the same line together
    with everything up to the first such closing delimiter, resumes after
    it and keeps every other character.  Its result holds no bracketed
    span on one line and is what is left of the title when characters are
    taken out; normalize("Album Name (2021) [Full Album]") is
    "Album Name  ", and normalize(normalize(x)) = normalize(x) for every
    string x.  It does not remove every bracketed span with its delimiters,
    as the comment in the function says it does: of a span nested in a
    span of the same kind the outer closing delimiter stays
    ("Album Name (Deluxe (2021))" gives "Album Name )"), of two spans that
    overlap the second stays in part ("[c (d] e)" gives " e)"), and a span
    that holds a line feed stays whole. *)
Theorem C9_fix_youtube_title :
  (forall x y, removes_leftmost_spans x y <-> fix_youtube_title x = y)
  /\ (forall x, ~ line_span (fix_youtube_title x))
  /\ (forall x, sublist (fix_youtube_title x) x)
  /\ fix_youtube_title (lit "Album Name (2021) [Full Album]") = lit "Album Name  "
  /\ (forall x, fix_youtube_title (fix_youtube_title x) = fix_youtube_title x)
  /\ (forall o c pre a b post,
        closing o = Some c ->
        Forall (fun x => closing x = None) pre ->
        c ∉ a -> line_feed ∉ a -> c ∉ b -> line_feed ∉ b ->
        fix_youtube_title (pre ++ o :: a ++ o :: b ++ c :: c :: post)
        = pre ++ c :: fix_youtube_title post)
  /\ fix_youtube_title (lit "Album Name (Deluxe (2021))") = lit "Album Name )"
  /\ fix_youtube_title (lit "[c (d] e)") = lit " e)"
  /\ fix_youtube_title (lit "(a" ++ [line_feed] ++ lit "b)")
     = lit "(a" ++ [line_feed] ++ lit "b)".
Proof.
  split; [|split; [|split; [|split; [|split; [|split; [|split; [|split]]]]]]].
  - intros x y. split; [apply removes_leftmost_spans_fix_youtube_title|].
    intros <-. by apply (fix_youtube_title_removes_len (length x)).
  - intros x H%has_span_line_span. by rewrite has_span_fix_youtube_title in H.
  - intros x. by apply (fix_youtube_title_sublist_len (length x)).
  - reflexivity.
  - intros x. apply fix_youtube_title_id, has_span_fix_youtube_title.
  - intros o c pre a b post. apply fix_youtube_title_nested.
  - reflexivity.
  - reflexivity.
  - reflexivity.
Qed.

Lemma C9_fix_youtube_title_witness :
  closing 40 = Some 41%N
  /\ fix_youtube_title (lit "Album Name " ++ 40%N :: lit "Deluxe " ++ 40%N :: lit "2021"
                          ++ 41%N :: 41%N :: [])
     = lit "Album Name " ++ [41%N].
Proof.
  split; [reflexivity|].
  destruct C9_fix_youtube_title as (_ & _ & _ & _ & _ & Hnested & _).
  apply (Hnested 40%N 41%N (lit "Album Name ") (lit "Deluxe ") (lit "2021") []).
  - reflexivity.
  - vm_compute. repeat constructor.
  - intros H%list_elem_of_In. vm_compute in H. intuition discriminate.
  - intros H%list_elem_of_In. vm_compute in H. intuition discriminate.
  - intros H%list_elem_of_In. vm_compute in H. intuition discriminate.
  - intros H%list_elem_of_In. vm_compute in H. intuition discriminate.
Defined.

(* ===================================================================== *)
(** * Properties of the scorers *)
(* ===================================================================== *)

Section Rules.
Variable lower : str -> str.

(** ** Tracks *)

Lemma artists_loop_gen (r : row) (names acc : list str) (k : nat) :
  fold_left
    (fun '(artists, artists_in_title) name =>
       (artists ++ [name],
        if contains (lower name) (lower (row_youtube_title r))
        then S artists_in_title else artists_in_title))
    names (acc, k)
  = (acc ++ names,
     k + count_if (fun a => ci_substring lower a (row_youtube_title r)) names).
Proof.
  revert acc k. induction names as [|a names IH]; intros acc k; simpl.
  - by rewrite app_nil_r, Nat.add_0_r.
  - rewrite IH, <- app_assoc. f_equal. unfold count_if, ci_substring. simpl.
    destruct (contains (lower a) (lower (row_youtube_title r))); simpl; lia.
Qed.

Lemma artists_loop_eq (r : row) (names : list str) :
  artists_loop lower r names
  = (names, count_if (fun a => ci_substring lower a (row_youtube_title r)) names).
Proof. unfold artists_loop. by rewrite artists_loop_gen. Qed.

Lemma truthy_count_if {A} (p : A -> bool) (l : list A) :
  truthy (count_if p l) = true <-> exists x, x ∈ l /\ p x = true.
Proof.
  unfold truthy, count_if. rewrite negb_true_iff, Nat.eqb_neq. split.
  - destruct (List.filter p l) as [|x l'] eqn:H; [done|]. intros _.
    assert (Hin : In x (List.filter p l)) by (rewrite H; by left).
    apply filter_In in Hin as [Hin Hp]. exists x. by rewrite list_elem_of_In.
  - intros (x & Hin & Hp) Hlen. apply length_zero_iff_nil in Hlen.
    assert (Hx : In x (List.filter p l)).
    { apply filter_In. by rewrite <- list_elem_of_In. }
    by rewrite Hlen in Hx.
Qed.

Lemma score_track_accepts (r : row) (q : str) (search_type_id track_num : nat)
    (track : sp_track) :
  is_Some (score_track lower r q search_type_id track_num track)
  <-> track_rule lower r track.
Proof.
  unfold score_track, track_rule. rewrite artists_loop_eq.
  set (k := count_if _ _). set (t := contains _ _).
  assert (Hk : truthy k = true <-> exists artist, artist ∈ st_artists track
           /\ ci_substring lower artist (row_youtube_title r) = true)
    by apply truthy_count_if.
  assert (Ht : truthy (if t then 1 else 0) = t) by by destruct t.
  rewrite Ht. fold t in Hk |- *. unfold ci_substring at 1. fold t.
  destruct (Z.leb_spec (Z.abs (st_duration_ms track - row_duration_ms r)) 5000) as [Hd|Hd];
    simpl.
  - split; [by left | by eexists].
  - destruct t; simpl.
    + destruct (truthy k) eqn:Hkk.
      * split; [|by eexists]. intros _. right. split; [done|]. by apply Hk.
      * split; [by intros [? ?]|]. intros [?|[_ H]]; [lia|].
        apply Hk in H. done.
    + split; [by intros [? ?]|]. intros [?|[? _]]; [lia|done].
Qed.


(** ** Albums *)

Lemma album_loop_gen (r : row) (tracks : list sp_album_track) (acc : album_acc) :
  lower (row_description r) = row_description r ->
  fold_left (album_step lower r) tracks acc
  = {| acc_tracks_uri := acc_tracks_uri acc ++ map at_uri tracks;
       acc_tracks_info :=
         acc_tracks_info acc
         ++ map (fun t => (at_uri t, at_name t, at_duration_ms t)) tracks;
       acc_diff := (acc_diff acc - album_duration tracks)%Z;
       acc_tracks_in_desc := acc_tracks_in_desc acc + titles_in_desc lower r tracks;
       acc_length := (acc_length acc + album_duration tracks)%Z |}.
Proof.
  intros Hdesc. revert acc. induction tracks as [|t tracks IH]; intros acc.
  - destruct acc. simpl. unfold album_duration, titles_in_desc, count_if. simpl.
    rewrite !app_nil_r, Z.sub_0_r, Z.add_0_r, Nat.add_0_r. done.
  - simpl. rewrite IH. unfold album_step at 1 2 3 4 5. simpl.
    rewrite <- !app_assoc. simpl.
    unfold album_duration, titles_in_desc, count_if, ci_substring. simpl.
    rewrite Hdesc.
    f_equal; [lia| |lia].
    destruct (contains (lower (at_name t)) (row_description r)); simpl; lia.
Qed.

Lemma album_loop_eq (r : row) (tracks : list sp_album_track) :
  lower (row_description r) = row_description r ->
  album_loop lower r tracks
  = {| acc_tracks_uri := map at_uri tracks;
       acc_tracks_info := map (fun t => (at_uri t, at_name t, at_duration_ms t)) tracks;
       acc_diff := (row_duration_ms r - album_duration tracks)%Z;
       acc_tracks_in_desc := titles_in_desc lower r tracks;
       acc_length := album_duration tracks |}.
Proof. intros H. unfold album_loop. by rewrite album_loop_gen. Qed.

Lemma album_loop_length (r : row) (tracks : list sp_album_track) :
  length (acc_tracks_uri (album_loop lower r tracks)) = length tracks.
Proof.
  unfold album_loop.
  assert (H : forall acc, length (acc_tracks_uri (fold_left (album_step lower r) tracks acc))
                = length (acc_tracks_uri acc) + length tracks).
  { induction tracks as [|t tracks IH]; intros acc; simpl; [lia|].
    rewrite IH. simpl. rewrite length_app. simpl. lia. }
  by rewrite H.
Qed.

Lemma score_album_rule (r : row) (q : str) (search_type_id album_num : nat)
    (a : sp_album) (tracks : list sp_album_track) :
  lower (row_description r) = row_description r ->
  tracks <> [] ->
  exists found,
    score_album lower r q search_type_id album_num a tracks = Ok found
    /\ (is_Some found <-> album_rule lower r tracks).
Proof.
  intros Hdesc Hne. unfold score_album. rewrite (album_loop_eq _ _ Hdesc).
  cbn [acc_tracks_uri acc_tracks_info acc_diff acc_tracks_in_desc acc_length].
  rewrite length_map. unfold album_rule, max_diff.
  assert (Hlen : length tracks <> 0) by by destruct tracks.
  destruct (length tracks) as [|n]; [done|].
  unfold percent_in_desc, mbind, result_bind. cbv beta iota.
  destruct (Z.ltb_spec (Z.abs (row_duration_ms r - album_duration tracks)) 40000)
    as [Hd|Hd];
    destruct (Nat.leb_spec 4 (S n)) as [Hn|Hn];
    destruct (at_least_60 (percent_of (titles_in_desc lower r tracks) (S n))) eqn:Hp;
    cbn [orb andb]; eexists; (split; [reflexivity|]);
    (split; [intros [? ?]; try discriminate; auto | intros H; try by eexists]).
  all: destruct H as [?|[? ?]]; try lia; try discriminate.
Qed.

Lemma score_album_no_tracks (r : row) (q : str) (search_type_id album_num : nat)
    (a : sp_album) :
  score_album lower r q search_type_id album_num a [] = Raise ZeroDivisionError.
Proof. reflexivity. Qed.

End Rules.

Lemma percent_checks_200 : percent_checks 200 = true.
Proof. vm_compute. reflexivity. Qed.

Lemma at_least_60_exact (k n : nat) :
  1 <= n <= 200 -> k <= n ->
  at_least_60 (percent_of k n) = exact_at_least_60 k n.
Proof.
  intros Hn Hk. pose proof percent_checks_200 as H. unfold percent_checks in H.
  rewrite forallb_forall in H. specialize (H n).
  rewrite forallb_forall in H.
  apply Bool.eqb_prop, H; apply in_seq; lia.
Qed.

Lemma count_if_le {A} (p : A -> bool) (l : list A) : count_if p l <= length l.
Proof. unfold count_if. apply filter_length_le. Qed.

Lemma album_accepted_rule (lower : str -> str) (r : row) (tracks : list sp_album_track) :
  lower (row_description r) = row_description r ->
  tracks <> [] ->
  album_accepted lower r tracks <-> album_rule lower r tracks.
Proof.
  intros Hdesc Hne. split.
  - intros H.
    set (a := {| sa_uri := []; sa_name := []; sa_artists := [] |}).
    destruct (H [] 0 0 a) as [info Hi].
    destruct (score_album_rule lower r [] 0 0 a tracks Hdesc Hne) as (found & Hf & Hiff).
    rewrite Hi in Hf. injection Hf as <-. by apply Hiff.
  - intros H q stid n a.
    destruct (score_album_rule lower r q stid n a tracks Hdesc Hne) as (found & Hf & Hiff).
    apply Hiff in H as [info ->]. by exists info.
Qed.

(** C1. For every video record (its description lower-cased) and every
    candidate album with at least one track, the album scorer returns
    without raising and accepts the candidate if and only if
    abs(record.duration_ms - sum of the track durations) < 40000, or the
    album has at least 4 tracks and the percentage of its track titles that
    are case-insensitive substrings of the description is at least 60; an
    album with 5 tracks, 3 of them in the description, is accepted, and an
    album with 3 tracks is accepted only through the duration path; up to
    200 tracks the binary64 percentage test is the exact one.  On an album
    without tracks the scorer raises [ZeroDivisionError] before the test,
    also where the rule accepts (a record shorter than 40000 ms). *)
Theorem C1_album_rule (lower : str -> str) (r : row) (tracks : list sp_album_track) :
  lower (row_description r) = row_description r ->
  (tracks <> [] ->
   (album_accepted lower r tracks <-> album_rule lower r tracks)
   /\ (forall q search_type_id album_num a,
         returns (score_album lower r q search_type_id album_num a tracks))
   /\ (length tracks = 5 -> titles_in_desc lower r tracks = 3 ->
       album_accepted lower r tracks)
   /\ (length tracks = 3 ->
       (album_accepted lower r tracks
        <-> (Z.abs (row_duration_ms r - album_duration tracks) < 40000)%Z))
   /\ (length tracks <= 200 ->
       (at_least_60 (percent_of (titles_in_desc lower r tracks) (length tracks)) = true
        <-> 60 * length tracks <= 100 * titles_in_desc lower r tracks)))
  /\ (tracks = [] ->
      (forall q search_type_id album_num a,
         score_album lower r q search_type_id album_num a tracks
         = Raise ZeroDivisionError)
      /\ ~ album_accepted lower r tracks
      /\ ((Z.abs (row_duration_ms r) < 40000)%Z -> album_rule lower r tracks)).
Proof.
  intros Hdesc. split.
  - intros Hne.
    pose proof (album_accepted_rule lower r tracks Hdesc Hne) as Hrule.
    split; [done|]. split; [|split; [|split]].
    + intros q stid n a.
      destruct (score_album_rule lower r q stid n a tracks Hdesc Hne) as (found & Hf & _).
      by exists found.
    + intros H5 H3. apply Hrule. right. rewrite H5, H3. split; [lia|reflexivity].
    + intros H3. rewrite Hrule. unfold album_rule. rewrite H3. split.
      * intros [?|[? _]]; [done|lia].
      * by left.
    + intros Hlen. rewrite at_least_60_exact.
      * unfold exact_at_least_60. rewrite Z.leb_le. lia.
      * destruct tracks; [done|]. simpl in *. lia.
      * apply count_if_le.
  - intros ->. split; [|split].
    + intros q stid n a. apply score_album_no_tracks.
    + intros H.
      destruct (H [] 0 0 {| sa_uri := []; sa_name := []; sa_artists := [] |})
        as [info Hinfo].
      by rewrite score_album_no_tracks in Hinfo.
    + intros Hd. left. unfold album_duration. simpl. by rewrite Z.sub_0_r.
Qed.

Lemma C1_album_rule_witness :
  album_accepted ascii_lower Sample.album_row Sample.five_tracks
  /\ ~ album_accepted ascii_lower Sample.album_row Sample.three_tracks
  /\ album_rule ascii_lower Sample.short_row []
  /\ score_album ascii_lower Sample.short_row [] 0 0 Sample.an_album []
     = Raise ZeroDivisionError.
Proof.
  destruct (C1_album_rule ascii_lower Sample.album_row Sample.five_tracks)
    as [H5 _]; [reflexivity|].
  destruct H5 as (_ & _ & H5 & _); [discriminate|].
  destruct (C1_album_rule ascii_lower Sample.album_row Sample.three_tracks)
    as [H3 _]; [reflexivity|].
  destruct H3 as (_ & _ & _ & H3 & _); [discriminate|].
  destruct (C1_album_rule ascii_lower Sample.short_row [])
    as [_ H0]; [reflexivity|].
  destruct H0 as (Hraise & _ & Hrule); [reflexivity|].
  split; [|split; [|split]].
  - apply H5; reflexivity.
  - intros H. apply H3 in H; [|reflexivity]. vm_compute in H. discriminate H.
  - apply Hrule. reflexivity.
  - apply Hraise.
Defined.

(** The album rule does not hold for every candidate: the album without
    tracks of a short video is one the rule accepts and the scorer does
    not. *)
Lemma album_rule_fails_without_tracks :
  ~ album_rule_for_every_candidate ascii_lower.
Proof.
  intros H. destruct (H Sample.short_row [] eq_refl) as [_ Hacc].
  destruct (Hacc (or_introl eq_refl) [] 0 0 Sample.an_album) as [info Hinfo].
  discriminate Hinfo.
Qed.

(** [qsearch_track] returns the first candidate that the rule accepts,
    with its rank, and [None] when the rule accepts none. *)
Lemma qsearch_track_loop_first (lower : str -> str) (r : row) (q : str)
    (search_type_id track_num : nat) (items : list sp_track) (info : track_info) :
  qsearch_track_loop lower r q search_type_id track_num items = Some info <->
  exists i track,
    items !! i = Some track
    /\ score_track lower r q search_type_id (track_num + i) track = Some info
    /\ forall j track', j < i -> items !! j = Some track' ->
         score_track lower r q search_type_id (track_num + j) track' = None.
Proof.
  revert track_num. induction items as [|t items IH]; intros n; simpl.
  - split; [done|]. by intros (i & track & Hi & _).
  - destruct (score_track lower r q search_type_id n t) as [found|] eqn:Ht.
    + split.
      * intros [= <-]. exists 0, t. rewrite Nat.add_0_r. split; [done|].
        split; [done|]. intros j track' Hj. lia.
      * intros ([|i] & track & Hi & Hs & Hfirst).
        -- simpl in Hi. injection Hi as <-. rewrite Nat.add_0_r in Hs. congruence.
        -- specialize (Hfirst 0 t (Nat.lt_0_succ i) eq_refl).
           rewrite Nat.add_0_r in Hfirst. congruence.
    + rewrite IH. split.
      * intros (i & track & Hi & Hs & Hfirst). exists (S i), track.
        rewrite Nat.add_succ_r. split; [done|]. split; [done|].
        intros [|j] track' Hj Hl.
        -- simpl in Hl. injection Hl as <-. by rewrite Nat.add_0_r.
        -- rewrite Nat.add_succ_r. apply (Hfirst j); [lia|done].
      * intros ([|i] & track & Hi & Hs & Hfirst).
        -- simpl in Hi. injection Hi as <-. rewrite Nat.add_0_r in Hs. congruence.
        -- exists i, track. rewrite Nat.add_succ_r in Hs. split; [done|].
           split; [done|]. intros j track' Hj Hl.
           specialize (Hfirst (S j) track'). rewrite Nat.add_succ_r in Hfirst.
           apply Hfirst; [lia|done].
Qed.

(** C2. For every video record and candidate track, the track scorer accepts
    the candidate if and only if abs(candidate.duration_ms -
    record.duration_ms) <= 5000, or the candidate's title is a
    case-insensitive substring of the record's title and at least one
    candidate artist name is one too.  A difference of exactly 5000 ms
    accepts; a difference of 5001 ms with neither the title nor an artist in
    the record's title rejects. *)
Theorem C2_track_rule (lower : str -> str) (r : row) (track : sp_track) :
  (forall q search_type_id track_num,
     is_Some (score_track lower r q search_type_id track_num track)
     <-> track_rule lower r track)
  /\ (Z.abs (st_duration_ms track - row_duration_ms r) = 5000%Z ->
      track_accepted lower r track)
  /\ (Z.abs (st_duration_ms track - row_duration_ms r) = 5001%Z ->
      ci_substring lower (st_name track) (row_youtube_title r) = false ->
      (forall artist, artist ∈ st_artists track ->
         ci_substring lower artist (row_youtube_title r) = false) ->
      track_rejected lower r track).
Proof.
  split; [|split].
  - intros q stid n. apply score_track_accepts.
  - intros H q stid n. apply score_track_accepts. left. lia.
  - intros H Ht Ha q stid n.
    destruct (score_track lower r q stid n track) as [info|] eqn:Hs; [|done].
    assert (Hacc : is_Some (score_track lower r q stid n track)) by by rewrite Hs.
    apply score_track_accepts in Hacc as [?|[Ht' _]]; [lia|]. congruence.
Qed.

Lemma C2_track_rule_witness :
  track_accepted ascii_lower Sample.topic_row (Sample.other_track 5000)
  /\ track_rejected ascii_lower Sample.topic_row (Sample.other_track 5001)
  /\ track_accepted ascii_lower Sample.topic_row Sample.shouting_track.
Proof.
  destruct (C2_track_rule ascii_lower Sample.topic_row (Sample.other_track 5000))
    as (_ & H5000 & _).
  destruct (C2_track_rule ascii_lower Sample.topic_row (Sample.other_track 5001))
    as (_ & _ & H5001).
  destruct (C2_track_rule ascii_lower Sample.topic_row Sample.shouting_track)
    as (Hiff & _).
  split; [|split].
  - apply H5000. reflexivity.
  - apply H5001; [reflexivity | reflexivity |].
    intros artist ->%list_elem_of_singleton. reflexivity.
  - intros q search_type_id track_num. apply Hiff. right. split; [reflexivity|].
    exists (lit "ARTIST"). split; [|reflexivity].
    apply list_elem_of_further, list_elem_of_here.
Defined.

Lemma playlist_loop_gone (lower : str -> str) (r : row) (gone : nat) :
  playlist_loop lower r (replicate gone None)
  = {| pacc_tracks_uri := []; pacc_tracks_info := [];
       pacc_diff := row_duration_ms r; pacc_tracks_in_desc := 0;
       pacc_length := 0 |}.
Proof.
  unfold playlist_loop. generalize (Build_playlist_acc [] [] (row_duration_ms r) 0 0).
  induction gone as [|n IH]; intros acc; simpl; [done|]. apply IH.
Qed.

(** C3. The percentage of titles in the description is computed before the
    acceptance test, and its division is not guarded: on an album without
    tracks, and on a playlist all of whose entries are gone, the scorer
    raises [ZeroDivisionError] instead of rejecting the candidate. *)
Theorem C3_percent_division_unguarded (lower : str -> str) (r : row) (q : str)
    (search_type_id num : nat) (a : sp_album) (p : sp_playlist) (gone : nat) :
  score_album lower r q search_type_id num a [] = Raise ZeroDivisionError
  /\ score_playlist lower r q search_type_id num p (replicate gone None)
     = Raise ZeroDivisionError.
Proof.
  split; [reflexivity|]. unfold score_playlist. by rewrite playlist_loop_gone.
Qed.

(** The exception leaves [qsearch_album]: every candidate before the empty
    one was rejected, the candidates after it are not looked at. *)
Lemma qsearch_album_loop_raises (lower : str -> str) (sp : spotify) (r : row)
    (q : str) (search_type_id album_num : nat) (a : sp_album) (rest : list sp_album) :
  album sp (sa_uri a) = [] ->
  qsearch_album_loop lower sp r q search_type_id album_num (a :: rest)
  = Raise ZeroDivisionError.
Proof. intros H. simpl. by rewrite H. Qed.

(* ===================================================================== *)
(** * Properties of the cascades and of the driver *)
(* ===================================================================== *)

(** ** The track cascade *)

(** On a topic channel: the scoped query, then the quoted title, then the
    channel name and the title; the first match ends the cascade. *)
Lemma find_track_topic (lower : str -> str) (sp : spotify) (r : row) :
  contains topic_marker (row_youtube_channel r) = true ->
  let title := row_youtube_title r in
  let channel := re_sub_literal topic_marker [] (row_youtube_channel r) in
  let artist := re_sub_literal (lit "'") (lit " ") channel in
  let try q search_type_id :=
    qsearch_track_loop lower r q search_type_id 0 (search_track sp q 2) in
  find_track lower sp r
  = Ok match try (lit "track:" ++ title ++ lit " artist:" ++ artist) 0 with
       | Some info => Some info
       | None =>
           match try (lit "track " ++ [dquote] ++ title ++ [dquote]) 2 with
           | Some info => Some info
           | None => try (channel ++ lit " " ++ title) 3
           end
       end.
Proof.
  intros H. unfold find_track. rewrite H. simpl.
  destruct (qsearch_track_loop lower r _ 0 _) as [info|]; simpl; [done|].
  by destruct (qsearch_track_loop lower r _ 2 _) as [info|].
Qed.

(** C7. On a channel without the topic marker the first strategy calls
    [qsearch_track] without its [sp] argument: [find_track] raises
    [TypeError], no query on the raw title is issued, no later strategy is
    tried, and [prepare_spotify] raises on the track path. *)
Theorem C7_find_track_plain_channel_raises (lower : str -> str) (sp : spotify)
    (r : row) :
  contains topic_marker (row_youtube_channel r) = false ->
  find_track lower sp r = Raise TypeError
  /\ (forall threshold s df_playlists liked_albums_uri liked_tracks_uri,
        over_threshold threshold r = false ->
        returns (get_user_playlist_id r df_playlists) ->
        prepare_spotify lower sp threshold s r df_playlists
          liked_albums_uri liked_tracks_uri
        = Raise TypeError).
Proof.
  intros H.
  assert (Hf : find_track lower sp r = Raise TypeError).
  { unfold find_track. by rewrite H. }
  split; [done|]. intros th s df la lt Hth [d Hd].
  unfold prepare_spotify. by rewrite Hd, Hf, Hth.
Qed.

Lemma C7_find_track_plain_channel_raises_witness :
  find_track ascii_lower Sample.catalog Sample.plain_row = Raise TypeError
  /\ prepare_spotify ascii_lower Sample.catalog None init Sample.plain_row
       Sample.liked_library [] []
     = Raise TypeError.
Proof.
  destruct (C7_find_track_plain_channel_raises ascii_lower Sample.catalog
              Sample.plain_row) as [H1 H2]; [reflexivity|].
  split; [exact H1|]. apply H2; [reflexivity|]. eexists. reflexivity.
Defined.

(** The record of the specification's end-to-end example: the track is
    staged for liking, found on try 0 by strategy 0. *)
Lemma prepare_spotify_topic_row :
  exists s,
    prepare_spotify ascii_lower Sample.catalog None init Sample.topic_row
      Sample.liked_library [] [] = Ok s
    /\ tracks_to_like s = [lit "spotify:track:song"]
    /\ map (fun e => (le_found_on_try e, le_search_type_id e, le_status e))
           (log_tracks s)
       = [(0, 0, saved)].
Proof. eexists. split; [vm_compute; reflexivity|]. split; reflexivity. Qed.

(** An album found by the first strategy, on the normalized title, and
    staged for the playlist of the record. *)
Lemma prepare_spotify_album_row :
  exists s,
    prepare_spotify ascii_lower Sample.album_catalog (Some 600000%Z) init
      Sample.album_row Sample.two_playlists [] [] = Ok s
    /\ playlist_items s !! lit "sp1"
       = Some [lit "t1"; lit "t2"; lit "t3"; lit "t4"; lit "t5"]
    /\ map (fun e => (le_found_on_try e, le_tracks_in_desc e, le_q e,
                      le_search_type_id e, le_status e))
           (log_albums s)
       = [(0, 3, lit "Album Name  ", 0, saved)].
Proof. eexists. split; [vm_compute; reflexivity|]. split; reflexivity. Qed.

(** The same record when the album found has no track. *)
Lemma prepare_spotify_empty_album :
  prepare_spotify ascii_lower Sample.empty_album_catalog (Some 600000%Z) init
    Sample.album_row Sample.two_playlists [] []
  = Raise ZeroDivisionError.
Proof. reflexivity. Qed.

(** The same record when no album is found and the playlist found has
    only entries whose track is gone. *)
Lemma prepare_spotify_gone_playlist :
  prepare_spotify ascii_lower Sample.gone_playlist_catalog (Some 600000%Z) init
    Sample.album_row Sample.two_playlists [] []
  = Raise ZeroDivisionError.
Proof. reflexivity. Qed.

(** ** The destination of a record *)

Lemma get_user_playlist_id_unknown (r : row) (df_playlists : list playlist_row) :
  (forall p, p ∈ df_playlists ->
     pr_youtube_playlist_id p <> row_youtube_playlist_id r) ->
  get_user_playlist_id r df_playlists = Raise IndexError.
Proof.
  intros H. unfold get_user_playlist_id.
  destruct (filter _ df_playlists) as [|p l] eqn:Hf; [done|].
  assert (Hp : p ∈ filter (fun p => pr_youtube_playlist_id p = row_youtube_playlist_id r)
                   df_playlists) by (rewrite Hf; left).
  apply list_elem_of_filter in Hp as [Hp1 Hp2]. by destruct (H p Hp2).
Qed.

(** With several rows for the playlist, the first one gives the
    destination. *)
Lemma get_user_playlist_id_first (r : row) (before after : list playlist_row)
    (p : playlist_row) :
  (forall p', p' ∈ before ->
     pr_youtube_playlist_id p' <> row_youtube_playlist_id r) ->
  pr_youtube_playlist_id p = row_youtube_playlist_id r ->
  get_user_playlist_id r (before ++ p :: after) = Ok (pr_spotify_playlist_id p).
Proof.
  intros Hb Hp. unfold get_user_playlist_id. rewrite filter_app.
  replace (filter _ before) with (@nil playlist_row).
  - simpl. rewrite filter_cons_True by done. done.
  - symmetry. induction before as [|x l IH]; [done|].
    rewrite filter_cons_False.
    + apply IH. intros p' Hp'. apply Hb. by right.
    + apply Hb. left.
Qed.

(** The earlier resolver has the guard: no row gives no destination and
    the message that the video is skipped; several rows give the first. *)
Lemma etl_get_spotify_playlist_id_unknown (r : Etl.video_row)
    (df_playlists : list playlist_row) :
  (forall p, p ∈ df_playlists -> pr_playlist_name p <> Etl.v_playlist_name r) ->
  Etl.get_spotify_playlist_id r df_playlists
  = (None, [Etl.NotFoundSkipped (Etl.v_playlist_name r) (Etl.v_title r)]).
Proof.
  intros H. unfold Etl.get_spotify_playlist_id.
  destruct (filter _ df_playlists) as [|p l] eqn:Hf; [done|].
  assert (Hp : p ∈ filter (fun p => pr_playlist_name p = Etl.v_playlist_name r)
                   df_playlists) by (rewrite Hf; left).
  apply list_elem_of_filter in Hp as [Hp1 Hp2]. by destruct (H p Hp2).
Qed.

(** C8. A record whose playlist reference matches no row of the mapping
    table is not skipped: [get_user_playlist_id] raises [IndexError] and
    so does [prepare_spotify], before any search. *)
Theorem C8_unknown_playlist_raises (lower : str -> str) (sp : spotify)
    (threshold : option Z) (s : state) (r : row) (df_playlists : list playlist_row)
    (liked_albums_uri liked_tracks_uri : list str) :
  (forall p, p ∈ df_playlists ->
     pr_youtube_playlist_id p <> row_youtube_playlist_id r) ->
  get_user_playlist_id r df_playlists = Raise IndexError
  /\ prepare_spotify lower sp threshold s r df_playlists
       liked_albums_uri liked_tracks_uri
     = Raise IndexError.
Proof.
  intros H. pose proof (get_user_playlist_id_unknown r df_playlists H) as Hg.
  split; [done|]. unfold prepare_spotify. by rewrite Hg.
Qed.

Lemma C8_unknown_playlist_raises_witness :
  prepare_spotify ascii_lower Sample.catalog None init Sample.album_row
    Sample.liked_library [] []
  = Raise IndexError.
Proof.
  apply (C8_unknown_playlist_raises ascii_lower Sample.catalog None init
           Sample.album_row Sample.liked_library [] []).
  intros p ->%list_elem_of_singleton. discriminate.
Defined.

(* ===================================================================== *)
(** * Properties of the collectors and of the ledger *)
(* ===================================================================== *)

(** ** The ledger *)

Lemma in_log_app (uri d : str) (l1 l2 : list log_entry) :
  in_log uri d (l1 ++ l2) = in_log uri d l1 || in_log uri d l2.
Proof. unfold in_log. apply existsb_app. Qed.

Lemma in_log_entry (log_id : Z) (uri d : str) (n : nat) (z : Z) (k : nat)
    (q : str) (t : nat) (status : str) :
  in_log uri d [mk_log_entry log_id uri d n z k q t status] = true.
Proof. unfold in_log. simpl. by rewrite bool_decide_eq_true_2. Qed.

Lemma status_values_differ :
  saved <> skipped_during /\ saved <> skipped_before /\ skipped_during <> skipped_before.
Proof. repeat split; discriminate. Qed.

(** ** Tracks: collect, then log *)

Lemma collect_track_first (s : state) (info : track_info) (d : str) (liked : list str) :
  in_log (ti_track_uri info) d (log_tracks s) = false ->
  ~ (ti_track_uri info ∈ liked /\ d = liked_sentinel) ->
  fst (collect_track s info d liked) = saved
  /\ log_tracks (snd (collect_track s info d liked)) = log_tracks s.
Proof.
  intros Hlog Hliked. unfold collect_track. rewrite Hlog.
  destruct (bool_decide (ti_track_uri info ∈ liked)) eqn:H1;
    destruct (bool_decide (d = liked_sentinel)) eqn:H2; simpl.
  - apply bool_decide_eq_true in H1, H2. by destruct Hliked.
  - apply bool_decide_eq_false in H2. rewrite bool_decide_eq_true_2 by done.
    destruct (dd_get _ _) as [l m]; simpl.
    by destruct (bool_decide (ti_track_uri info ∈ l)).
  - apply bool_decide_eq_true in H2. by rewrite bool_decide_eq_false_2 by auto.
  - apply bool_decide_eq_false in H2. rewrite bool_decide_eq_true_2 by done.
    destruct (dd_get _ _) as [l m]; simpl.
    by destruct (bool_decide (ti_track_uri info ∈ l)).
Qed.

Lemma collect_track_seen (s : state) (info : track_info) (d : str) (liked : list str) :
  in_log (ti_track_uri info) d (log_tracks s) = true ->
  collect_track s info d liked = (skipped_during, s).
Proof. intros H. unfold collect_track. by rewrite H. Qed.

Lemma collect_track_liked (s : state) (info : track_info) (liked : list str) :
  in_log (ti_track_uri info) liked_sentinel (log_tracks s) = false ->
  ti_track_uri info ∈ liked ->
  collect_track s info liked_sentinel liked = (skipped_before, s).
Proof.
  intros H Hin. unfold collect_track. rewrite H.
  by rewrite !bool_decide_eq_true_2 by done.
Qed.

Lemma log_tracks_log_track (s : state) (info : track_info) (d : str) (log_id : Z)
    (status : str) :
  log_tracks (log_track s info d log_id status)
  = log_tracks s ++
      [mk_log_entry log_id (ti_track_uri info) d (ti_found_on_try info)
         (ti_difference_ms info) (ti_tracks_in_desc info) (ti_q info)
         (ti_search_type_id info) status].
Proof. unfold log_track. by destruct (may_write _ _). Qed.

Lemma save_track_twice (s : state) (info info' : track_info) (d : str)
    (log_id log_id' : Z) (liked : list str) :
  ti_track_uri info' = ti_track_uri info ->
  in_log (ti_track_uri info) d (log_tracks s) = false ->
  ~ (ti_track_uri info ∈ liked /\ d = liked_sentinel) ->
  exists e1 e2,
    log_tracks (save_track (save_track s info d log_id liked) info' d log_id' liked)
    = log_tracks s ++ [e1; e2]
    /\ statuses [e1; e2] = [saved; skipped_during].
Proof.
  intros Huri Hlog Hliked.
  destruct (collect_track_first s info d liked Hlog Hliked) as [H1 H2].
  unfold save_track at 2. destruct (collect_track s info d liked) as [st1 s1] eqn:Hc1.
  simpl in H1, H2. subst st1.
  unfold save_track. rewrite collect_track_seen.
  - rewrite !log_tracks_log_track, H2, <- app_assoc. simpl. by do 2 eexists.
  - rewrite log_tracks_log_track, in_log_app, Huri, in_log_entry. apply orb_true_r.
Qed.

(** ** Albums: collect, then log *)

Lemma collect_album_first (s : state) (info : album_info) (d : str) (liked : list str) :
  in_log (ai_album_uri info) d (log_albums s) = false ->
  ~ (ai_album_uri info ∈ liked /\ d = liked_sentinel) ->
  fst (collect_album s info d liked) = saved
  /\ log_albums (snd (collect_album s info d liked)) = log_albums s.
Proof.
  intros Hlog Hliked. unfold collect_album. rewrite Hlog.
  destruct (bool_decide (ai_album_uri info ∈ liked)) eqn:H1;
    destruct (bool_decide (d = liked_sentinel)) eqn:H2; simpl.
  - apply bool_decide_eq_true in H1, H2. by destruct Hliked.
  - apply bool_decide_eq_false in H2. rewrite bool_decide_eq_true_2 by done.
    by destruct (dd_get _ _) as [l m].
  - apply bool_decide_eq_true in H2. by rewrite bool_decide_eq_false_2 by auto.
  - apply bool_decide_eq_false in H2. rewrite bool_decide_eq_true_2 by done.
    by destruct (dd_get _ _) as [l m].
Qed.

Lemma collect_album_seen (s : state) (info : album_info) (d : str) (liked : list str) :
  in_log (ai_album_uri info) d (log_albums s) = true ->
  collect_album s info d liked = (skipped_during, s).
Proof. intros H. unfold collect_album. by rewrite H. Qed.

Lemma collect_album_liked (s : state) (info : album_info) (liked : list str) :
  in_log (ai_album_uri info) liked_sentinel (log_albums s) = false ->
  ai_album_uri info ∈ liked ->
  collect_album s info liked_sentinel liked = (skipped_before, s).
Proof.
  intros H Hin. unfold collect_album. rewrite H.
  by rewrite !bool_decide_eq_true_2 by done.
Qed.

Lemma log_albums_log_album (s : state) (info : album_info) (d : str) (log_id : Z)
    (status : str) :
  log_albums (log_album s info d log_id status)
  = log_albums s ++
      [mk_log_entry log_id (ai_album_uri info) d (ai_found_on_try info)
         (ai_difference_ms info) (ai_tracks_in_desc info) (ai_q info)
         (ai_search_type_id info) status].
Proof. reflexivity. Qed.

Lemma save_album_twice (s : state) (info info' : album_info) (d : str)
    (log_id log_id' : Z) (liked : list str) :
  ai_album_uri info' = ai_album_uri info ->
  in_log (ai_album_uri info) d (log_albums s) = false ->
  ~ (ai_album_uri info ∈ liked /\ d = liked_sentinel) ->
  exists e1 e2,
    log_albums (save_album (save_album s info d log_id liked) info' d log_id' liked)
    = log_albums s ++ [e1; e2]
    /\ statuses [e1; e2] = [saved; skipped_during].
Proof.
  intros Huri Hlog Hliked.
  destruct (collect_album_first s info d liked Hlog Hliked) as [H1 H2].
  unfold save_album at 2. destruct (collect_album s info d liked) as [st1 s1] eqn:Hc1.
  simpl in H1, H2. subst st1.
  unfold save_album. rewrite collect_album_seen.
  - rewrite !log_albums_log_album, H2, <- app_assoc. simpl. by do 2 eexists.
  - rewrite log_albums_log_album, in_log_app, Huri, in_log_entry. apply orb_true_r.
Qed.

(** ** Playlists of others *)

Lemma collect_other_playlist_first (s : state) (info : playlist_info) (d : str) :
  in_log (pi_playlist_uri info) d (log_playlists_others s) = false ->
  fst (collect_other_playlist s info d) = saved
  /\ (d = liked_sentinel ->
      snd (collect_other_playlist s info d)
      = set_playlists_to_like (playlists_to_like s ++ [pi_playlist_id info]) s).
Proof.
  intros H. unfold collect_other_playlist. rewrite H. simpl.
  destruct (bool_decide (d ≠ liked_sentinel)) eqn:Hd.
  - apply bool_decide_eq_true in Hd. destruct (dd_get _ _) as [l m]. by split.
  - by split.
Qed.

Lemma collect_other_playlist_seen (s : state) (info : playlist_info) (d : str) :
  in_log (pi_playlist_uri info) d (log_playlists_others s) = true ->
  collect_other_playlist s info d = (skipped_during, s).
Proof. intros H. unfold collect_other_playlist. by rewrite H. Qed.

(** ** The staging map *)

Lemma extend_unique_NoDup (l uris : list str) :
  NoDup l -> NoDup (extend_unique l uris).
Proof.
  revert l. induction uris as [|u uris IH]; intros l Hl; simpl; [done|].
  destruct (bool_decide (u ∈ l)) eqn:Hu; [by apply IH|].
  apply bool_decide_eq_false in Hu. apply IH, NoDup_app.
  split; [done|]. split; [|apply NoDup_singleton].
  intros x Hx ->%list_elem_of_singleton. done.
Qed.

Lemma dd_get_NoDup (m m' : gmap str (list str)) (k : str) (l : list str) :
  (forall d l', m !! d = Some l' -> NoDup l') ->
  dd_get m k = (l, m') ->
  NoDup l /\ (forall v, NoDup v -> forall d l', <[k := v]> m' !! d = Some l' -> NoDup l').
Proof.
  intros Hm. unfold dd_get. destruct (m !! k) as [l0|] eqn:Hk; intros [= <- <-].
  - split; [by eapply Hm|]. intros v Hv d l'.
    destruct (decide (k = d)) as [->|Hne].
    + rewrite lookup_insert_eq. by intros [= <-].
    + rewrite lookup_insert_ne by done. apply Hm.
  - split; [apply NoDup_nil_2|]. intros v Hv d l'.
    destruct (decide (k = d)) as [->|Hne].
    + rewrite lookup_insert_eq. by intros [= <-].
    + rewrite !lookup_insert_ne by done. apply Hm.
Qed.

Lemma dd_get_keeps_NoDup (m m' : gmap str (list str)) (k : str) (l : list str) :
  (forall d l', m !! d = Some l' -> NoDup l') ->
  dd_get m k = (l, m') ->
  forall d l', m' !! d = Some l' -> NoDup l'.
Proof.
  intros Hm. unfold dd_get. destruct (m !! k) as [l0|] eqn:Hk; intros [= <- <-]; [done|].
  intros d l'. destruct (decide (k = d)) as [->|Hne].
  - rewrite lookup_insert_eq. intros [= <-]. apply NoDup_nil_2.
  - rewrite lookup_insert_ne by done. apply Hm.
Qed.

Lemma staging_nodup_set (m : gmap str (list str)) (s : state) :
  (forall d l, m !! d = Some l -> NoDup l) ->
  staging_nodup (set_playlist_items m s).
Proof. done. Qed.

Lemma collect_track_staging (s : state) (info : track_info) (d : str) (liked : list str) :
  staging_nodup s -> staging_nodup (snd (collect_track s info d liked)).
Proof.
  intros Hs. unfold collect_track.
  destruct (in_log _ _ _); [done|].
  destruct (_ && _); [done|].
  destruct (bool_decide (d ≠ liked_sentinel)); [|done].
  destruct (dd_get (playlist_items s) d) as [l m] eqn:Hget.
  destruct (dd_get_NoDup _ _ _ _ Hs Hget) as [Hl Hins].
  destruct (bool_decide (ti_track_uri info ∈ l)) eqn:Hin; simpl.
  - apply staging_nodup_set. by eapply dd_get_keeps_NoDup.
  - apply bool_decide_eq_false in Hin. apply staging_nodup_set, Hins, NoDup_app.
    split; [done|]. split; [|apply NoDup_singleton].
    intros x Hx ->%list_elem_of_singleton. done.
Qed.

Lemma collect_album_staging (s : state) (info : album_info) (d : str) (liked : list str) :
  staging_nodup s -> staging_nodup (snd (collect_album s info d liked)).
Proof.
  intros Hs. unfold collect_album.
  destruct (in_log _ _ _); [done|].
  destruct (_ && _); [done|].
  destruct (bool_decide (d ≠ liked_sentinel)); [|done].
  destruct (dd_get (playlist_items s) d) as [l m] eqn:Hget.
  destruct (dd_get_NoDup _ _ _ _ Hs Hget) as [Hl Hins].
  simpl. by apply staging_nodup_set, Hins, extend_unique_NoDup.
Qed.

Lemma collect_other_playlist_staging (s : state) (info : playlist_info) (d : str) :
  staging_nodup s -> staging_nodup (snd (collect_other_playlist s info d)).
Proof.
  intros Hs. unfold collect_other_playlist.
  destruct (in_log _ _ _); [done|]. simpl.
  destruct (bool_decide (d ≠ liked_sentinel)); [|done].
  destruct (dd_get (playlist_items s) d) as [l m] eqn:Hget.
  destruct (dd_get_NoDup _ _ _ _ Hs Hget) as [Hl Hins].
  simpl. by apply staging_nodup_set, Hins, extend_unique_NoDup.
Qed.

Lemma exec_staging (s : state) (o : op) :
  staging_nodup s -> staging_nodup (exec s o).
Proof.
  intros Hs. destruct o; simpl.
  - by apply collect_track_staging.
  - unfold log_track. by destruct (may_write _ _).
  - by apply collect_album_staging.
  - done.
  - by apply collect_other_playlist_staging.
  - done.
Qed.

Lemma run_staging (ops : list op) (s : state) :
  staging_nodup s -> staging_nodup (run ops s).
Proof.
  revert s. induction ops as [|o ops IH]; intros s Hs; simpl; [done|].
  by apply IH, exec_staging.
Qed.

(** ** The registry of tracks *)






Lemma log_other_playlist_tracks_lookup (info : playlist_info)
    (dt : gmap str track_entry) (u : str) :
  te_playlist_uri <$> (log_other_playlist_tracks info dt !! u)
  = if bool_decide (u ∈ playlist_track_uris info)
    then Some (Some (pi_playlist_uri info))
    else te_playlist_uri <$> (dt !! u).
Proof.
  unfold log_other_playlist_tracks, playlist_track_uris.
  generalize (pi_tracks_info info) as l. intros l. revert dt.
  induction l as [|[[[[uri title] artists] dur] alb] l IH]; intros dt; simpl; [done|].
  rewrite IH. destruct (decide (uri = u)) as [->|Hne].
  - rewrite lookup_insert_eq. simpl.
    rewrite (bool_decide_eq_true_2 (u ∈ u :: _)) by apply list_elem_of_here.
    by destruct (bool_decide _).
  - rewrite lookup_insert_ne by done.
    destruct (bool_decide (u ∈ map _ l)) eqn:Hin.
    + apply bool_decide_eq_true in Hin.
      by rewrite bool_decide_eq_true_2 by by apply list_elem_of_further.
    + apply bool_decide_eq_false in Hin.
      rewrite bool_decide_eq_false_2; [done|].
      intros [?|?]%elem_of_cons; [by subst|done].
Qed.


Lemma distinct_tracks_collect (s : state) (o : op) :
  ~ registry_op o -> distinct_tracks (exec s o) = distinct_tracks s.
Proof.
  destruct o; simpl; try (intros H; by destruct H); intros _.
  - unfold collect_track. repeat case_match; done.
  - unfold collect_album. repeat case_match; done.
  - unfold collect_other_playlist. repeat case_match; done.
Qed.

Lemma log_playlists_others_log_other_playlist (s : state) (info : playlist_info)
    (d : str) (log_id : Z) (status : str) :
  log_playlists_others (log_other_playlist s info d log_id status)
  = log_playlists_others s ++
      [mk_log_entry log_id (pi_playlist_uri info) d (pi_found_on_try info)
         (pi_difference_ms info) (pi_tracks_in_desc info) (pi_q info)
         (pi_search_type_id info) status].
Proof. reflexivity. Qed.

Lemma collect_other_playlist_log (s : state) (info : playlist_info) (d : str) :
  log_playlists_others (snd (collect_other_playlist s info d)) = log_playlists_others s.
Proof. unfold collect_other_playlist. repeat case_match; done. Qed.

Lemma save_other_playlist_twice (s : state) (info info' : playlist_info) (d : str)
    (log_id log_id' : Z) :
  pi_playlist_uri info' = pi_playlist_uri info ->
  in_log (pi_playlist_uri info) d (log_playlists_others s) = false ->
  exists e1 e2,
    log_playlists_others
      (save_other_playlist (save_other_playlist s info d log_id) info' d log_id')
    = log_playlists_others s ++ [e1; e2]
    /\ statuses [e1; e2] = [saved; skipped_during].
Proof.
  intros Huri Hlog.
  destruct (collect_other_playlist_first s info d Hlog) as [H1 _].
  pose proof (collect_other_playlist_log s info d) as H2.
  unfold save_other_playlist at 2.
  destruct (collect_other_playlist s info d) as [st1 s1] eqn:Hc1.
  simpl in H1, H2. subst st1.
  unfold save_other_playlist. rewrite collect_other_playlist_seen.
  - rewrite !log_playlists_others_log_other_playlist, H2, <- app_assoc. simpl.
    by do 2 eexists.
  - rewrite log_playlists_others_log_other_playlist, in_log_app, Huri, in_log_entry.
    apply orb_true_r.
Qed.

(** C4. Collecting the same (entity_uri, destination) pair twice in one run
    (a track, an album or a playlist; the pair new to the ledger and not a
    liked entity bound for the library) appends two ledger entries whose
    statuses are "saved" and "skipped (saved during the run)", in that
    order; a track or album pair already in the ledger is skipped before
    anything is staged; and a track or album of the pre-run snapshot
    collected for the library sentinel "0" gets "skipped (saved before the
    run)" on first encounter and nothing is staged. *)
Theorem C4_dedup :
  (forall s info info' d log_id log_id' liked,
     ti_track_uri info' = ti_track_uri info ->
     in_log (ti_track_uri info) d (log_tracks s) = false ->
     ~ (ti_track_uri info ∈ liked /\ d = liked_sentinel) ->
     exists e1 e2,
       log_tracks (save_track (save_track s info d log_id liked) info' d log_id' liked)
       = log_tracks s ++ [e1; e2]
       /\ statuses [e1; e2] = [saved; skipped_during])
  /\ (forall s info info' d log_id log_id' liked,
        ai_album_uri info' = ai_album_uri info ->
        in_log (ai_album_uri info) d (log_albums s) = false ->
        ~ (ai_album_uri info ∈ liked /\ d = liked_sentinel) ->
        exists e1 e2,
          log_albums (save_album (save_album s info d log_id liked) info' d log_id' liked)
          = log_albums s ++ [e1; e2]
          /\ statuses [e1; e2] = [saved; skipped_during])
  /\ (forall s info info' d log_id log_id',
        pi_playlist_uri info' = pi_playlist_uri info ->
        in_log (pi_playlist_uri info) d (log_playlists_others s) = false ->
        exists e1 e2,
          log_playlists_others
            (save_other_playlist (save_other_playlist s info d log_id) info' d log_id')
          = log_playlists_others s ++ [e1; e2]
          /\ statuses [e1; e2] = [saved; skipped_during])
  /\ (forall s info d liked,
        in_log (ti_track_uri info) d (log_tracks s) = true ->
        collect_track s info d liked = (skipped_during, s))
  /\ (forall s info d liked,
        in_log (ai_album_uri info) d (log_albums s) = true ->
        collect_album s info d liked = (skipped_during, s))
  /\ (forall s info liked,
        in_log (ti_track_uri info) liked_sentinel (log_tracks s) = false ->
        ti_track_uri info ∈ liked ->
        collect_track s info liked_sentinel liked = (skipped_before, s))
  /\ (forall s info liked,
        in_log (ai_album_uri info) liked_sentinel (log_albums s) = false ->
        ai_album_uri info ∈ liked ->
        collect_album s info liked_sentinel liked = (skipped_before, s)).
Proof.
  repeat split.
  - apply save_track_twice.
  - apply save_album_twice.
  - apply save_other_playlist_twice.
  - apply collect_track_seen.
  - apply collect_album_seen.
  - apply collect_track_liked.
  - apply collect_album_liked.
Qed.

Lemma C4_dedup_witness :
  statuses
    (log_tracks
       (save_track (save_track init Sample.track_match liked_sentinel 1 [])
          Sample.track_match liked_sentinel 2 []))
  = [saved; skipped_during]
  /\ statuses
       (log_albums
          (save_album (save_album init Sample.album_one (lit "PL1") 1 [])
             Sample.album_one (lit "PL1") 2 []))
     = [saved; skipped_during]
  /\ collect_track init Sample.track_match liked_sentinel [lit "spotify:track:song"]
     = (skipped_before, init)
  /\ collect_album init Sample.album_one liked_sentinel [lit "spotify:album:one"]
     = (skipped_before, init).
Proof.
  destruct C4_dedup as (Ht & Ha & _ & _ & _ & Htl & Hal).
  split; [|split; [|split]].
  - destruct (Ht init Sample.track_match Sample.track_match liked_sentinel 1%Z 2%Z [])
      as (e1 & e2 & -> & Hst); [reflexivity | reflexivity | | exact Hst].
    intros [Hin _]. by apply elem_of_nil in Hin.
  - destruct (Ha init Sample.album_one Sample.album_one (lit "PL1") 1%Z 2%Z [])
      as (e1 & e2 & -> & Hst); [reflexivity | reflexivity | | exact Hst].
    intros [Hin _]. by apply elem_of_nil in Hin.
  - apply Htl; [reflexivity | apply list_elem_of_singleton; reflexivity].
  - apply Hal; [reflexivity | apply list_elem_of_singleton; reflexivity].
Defined.




(** C6. No list of the playlist staging map ever holds a track URI twice:
    this holds at the start of a run and every collect operation (and every
    other operation on the shared state) preserves it, so it holds after
    every sequence of operations, also when two matched albums share a
    track or one album lists a track twice. *)
Theorem C6_staging_nodup :
  staging_nodup init
  /\ (forall s o, staging_nodup s -> staging_nodup (exec s o))
  /\ (forall ops, staging_nodup (run ops init)).
Proof.
  assert (H0 : staging_nodup init) by (intros d l H; cbn in H; by rewrite lookup_empty in H).
  split; [done|]. split; [apply exec_staging|].
  intros ops. by apply run_staging.
Qed.

Lemma C6_staging_nodup_witness :
  let s := run [CollectAlbum Sample.album_one (lit "PL1") [];
                LogAlbum Sample.album_one (lit "PL1") 1 saved;
                CollectAlbum Sample.album_two (lit "PL1") [];
                LogAlbum Sample.album_two (lit "PL1") 2 saved] init in
  playlist_items s !! lit "PL1" = Some [lit "t1"; lit "t2"; lit "t3"]
  /\ staging_nodup s
  /\ staging_nodup (exec s (CollectTrack Sample.track_match (lit "PL1") [])).
Proof.
  destruct C6_staging_nodup as (_ & Hstep & Hrun).
  split; [vm_compute; reflexivity|]. split; [apply Hrun|]. apply Hstep, Hrun.
Defined.

(** C10. The collector of matched playlists never answers "skipped (saved
    before the run)": its only test is the search of the ledger of this
    run.  A playlist new to the ledger is "saved", and for the library
    sentinel "0" its id is appended to the playlists to like; a playlist
    already in the ledger is "skipped (saved during the run)" and nothing
    changes. *)
Theorem C10_playlist_never_skipped_before (s : state) (info : playlist_info)
    (d : str) :
  fst (collect_other_playlist s info d) <> skipped_before
  /\ (in_log (pi_playlist_uri info) d (log_playlists_others s) = false ->
      fst (collect_other_playlist s info d) = saved
      /\ (d = liked_sentinel ->
          playlists_to_like (snd (collect_other_playlist s info d))
          = playlists_to_like s ++ [pi_playlist_id info]))
  /\ (in_log (pi_playlist_uri info) d (log_playlists_others s) = true ->
      collect_other_playlist s info d = (skipped_during, s)).
Proof.
  split; [|split].
  - destruct (in_log (pi_playlist_uri info) d (log_playlists_others s)) eqn:H.
    + by rewrite collect_other_playlist_seen.
    + destruct (collect_other_playlist_first s info d H) as [-> _]. discriminate.
  - intros H. destruct (collect_other_playlist_first s info d H) as [H1 H2].
    split; [done|]. intros Hd. by rewrite H2.
  - apply collect_other_playlist_seen.
Qed.

Lemma C10_playlist_never_skipped_before_witness :
  collect_other_playlist init Sample.playlist_one liked_sentinel
  = (saved,
     set_playlists_to_like [lit "spotify:playlist:one"] init).
Proof.
  destruct (C10_playlist_never_skipped_before init Sample.playlist_one liked_sentinel)
    as (_ & H & _).
  destruct H as [H1 H2]; [reflexivity|].
  reflexivity.
Defined.

(** The snapshots of liked albums and tracks play no part once the album
    cascade has found nothing. *)
Lemma prepare_spotify_playlist_ignores_snapshots (lower : str -> str) (sp : spotify)
    (threshold : option Z) (s : state) (r : row) (df_playlists : list playlist_row)
    (liked_albums_uri liked_tracks_uri liked_albums_uri' liked_tracks_uri' : list str) :
  over_threshold threshold r = true ->
  find_album lower sp r = Ok None ->
  prepare_spotify lower sp threshold s r df_playlists liked_albums_uri liked_tracks_uri
  = prepare_spotify lower sp threshold s r df_playlists liked_albums_uri' liked_tracks_uri'.
Proof.
  intros Hth Hal. unfold prepare_spotify.
  destruct (get_user_playlist_id r df_playlists) as [d|e]; [|done].
  simpl. by rewrite Hth, Hal.
Qed.

(* ===================================================================== *)
(** * Further properties of the title normalizer *)
(* ===================================================================== *)

Lemma fix_youtube_title_length (s : str) :
  length (fix_youtube_title s) <= length s.
Proof. apply sublist_length, (fix_youtube_title_sublist_len (length s)). lia. Qed.

Lemma fix_youtube_title_shorter_len (n : nat) (s : str) :
  length s <= n -> has_span s = true ->
  length (fix_youtube_title s) < length s.
Proof.
  revert s. induction n as [|n IH]; intros [|y r] Hlen; simpl in Hlen; try done; try lia.
  rewrite fix_youtube_title_cons. simpl has_span.
  destruct (closing y) as [d|].
  - destruct (find_close d r) as [rest|] eqn:Hrest.
    + intros _. pose proof (find_close_length _ _ _ Hrest).
      pose proof (fix_youtube_title_length rest). simpl. lia.
    + rewrite bool_decide_eq_false_2 by by intros [? ?]. simpl.
      intros H. apply IH in H; [simpl; lia | lia].
  - intros H. apply IH in H; [simpl; lia | lia].
Qed.

(** X1. The normalizer leaves a title as it is exactly when the title holds no
    bracketed span on one line, and shortens it otherwise. *)
Theorem fix_youtube_title_fixed_point (x : str) :
  (fix_youtube_title x = x <-> ~ line_span x)
  /\ (line_span x <-> length (fix_youtube_title x) < length x).
Proof.
  rewrite <- has_span_line_span.
  destruct (has_span x) eqn:H.
  - pose proof (fix_youtube_title_shorter_len (length x) x (le_n _) H) as Hlt.
    split; split; try done.
    + intros Heq. rewrite Heq in Hlt. lia.
  - pose proof (fix_youtube_title_id x H) as Heq.
    split; split; try done.
    rewrite Heq. lia.
Qed.

(* ===================================================================== *)
(** * Further properties of the scorers *)
(* ===================================================================== *)

Section MoreRules.
Variable lower : str -> str.

(** ** What an accepted album carries *)

Lemma album_loop_fold (r : row) (tracks : list sp_album_track) (acc : album_acc) :
  fold_left (album_step lower r) tracks acc
  = {| acc_tracks_uri := acc_tracks_uri acc ++ map at_uri tracks;
       acc_tracks_info :=
         acc_tracks_info acc
         ++ map (fun t => (at_uri t, at_name t, at_duration_ms t)) tracks;
       acc_diff := (acc_diff acc - album_duration tracks)%Z;
       acc_tracks_in_desc :=
         acc_tracks_in_desc acc
         + count_if (fun t => contains (lower (at_name t)) (row_description r)) tracks;
       acc_length := (acc_length acc + album_duration tracks)%Z |}.
Proof.
  revert acc. induction tracks as [|t tracks IH]; intros acc.
  - destruct acc. simpl. unfold album_duration, count_if. simpl.
    rewrite !app_nil_r, Z.sub_0_r, Z.add_0_r, Nat.add_0_r. done.
  - simpl. rewrite IH. unfold album_step at 1 2 3 4 5. simpl.
    rewrite <- !app_assoc. simpl.
    unfold album_duration, count_if. simpl.
    f_equal; [lia| |lia].
    destruct (contains (lower (at_name t)) (row_description r)); simpl; lia.
Qed.

(** X2. An accepted album has at least one track; its diagnostics are those of
    the tracks fetched: their URIs in order, their number, the sum of their
    durations, the distance of that sum from the duration of the video, and
    a count of titles in the description that is at most their number. *)
Theorem score_album_diagnostics (r : row) (q : str) (search_type_id album_num : nat)
    (a : sp_album) (tracks : list sp_album_track) (info : album_info) :
  score_album lower r q search_type_id album_num a tracks = Ok (Some info) ->
  tracks <> []
  /\ ai_album_uri info = sa_uri a
  /\ ai_tracks_uri info = map at_uri tracks
  /\ map (fun '(uri, _, _) => uri) (ai_tracks_info info) = ai_tracks_uri info
  /\ ai_total_tracks info = length tracks
  /\ ai_duration_ms info = album_duration tracks
  /\ ai_difference_ms info = Z.abs (row_duration_ms r - ai_duration_ms info)
  /\ ai_tracks_in_desc info <= ai_total_tracks info
  /\ ((ai_difference_ms info < 40000)%Z \/ 4 <= ai_total_tracks info)
  /\ (ai_found_on_try info, ai_q info, ai_search_type_id info)
     = (album_num, q, search_type_id).
Proof.
  unfold score_album, album_loop. rewrite album_loop_fold.
  cbn [acc_tracks_uri acc_tracks_info acc_diff acc_tracks_in_desc acc_length].
  rewrite !app_nil_l, length_map, Nat.add_0_l, Z.add_0_l.
  set (k := count_if _ tracks).
  assert (Hk : k <= length tracks) by apply count_if_le.
  destruct (length tracks) as [|n] eqn:Hlen; [done|].
  assert (Hne : tracks <> []) by (intros ->; done).
  unfold percent_in_desc, mbind, result_bind. cbv beta iota. unfold max_diff.
  destruct (Z.ltb_spec (Z.abs (row_duration_ms r - album_duration tracks)) 40000)
    as [Hd|Hd];
    destruct (Nat.leb_spec 4 (S n)) as [Hn|Hn];
    destruct (at_least_60 (percent_of k (S n))); cbn [orb andb]; intros [= <-];
    cbn [ai_album_uri ai_tracks_uri ai_tracks_info ai_total_tracks ai_duration_ms
         ai_difference_ms ai_tracks_in_desc ai_found_on_try ai_q ai_search_type_id].
  all: repeat split; try done;
    try (rewrite map_map; by apply map_ext; intros []); auto.
Qed.

(** ** The playlist rule *)

Lemma playlist_loop_fold (r : row) (entries : list (option sp_playlist_track))
    (acc : playlist_acc) :
  fold_left (playlist_step lower r) entries acc
  = {| pacc_tracks_uri := pacc_tracks_uri acc ++ map pt_uri (available entries);
       pacc_tracks_info :=
         pacc_tracks_info acc
         ++ map (fun t => (pt_uri t, pt_name t, pt_artists t, pt_duration_ms t,
                           pt_album_uri t)) (available entries);
       pacc_diff := (pacc_diff acc - playlist_duration (available entries))%Z;
       pacc_tracks_in_desc :=
         pacc_tracks_in_desc acc
         + playlist_titles_in_desc lower r (available entries);
       pacc_length := (pacc_length acc + playlist_duration (available entries))%Z |}.
Proof.
  revert acc. induction entries as [|[t|] entries IH]; intros acc.
  - destruct acc. simpl. unfold playlist_duration, playlist_titles_in_desc, count_if.
    simpl. rewrite !app_nil_r, Z.sub_0_r, Z.add_0_r, Nat.add_0_r. done.
  - simpl. rewrite IH. simpl. rewrite <- !app_assoc. simpl.
    unfold playlist_duration, playlist_titles_in_desc, count_if. simpl.
    f_equal; [lia| |lia].
    destruct (contains (lower (pt_name t)) (row_description r)); simpl; lia.
  - simpl. apply IH.
Qed.

Lemma available_map_Some (tracks : list sp_playlist_track) :
  available (map Some tracks) = tracks.
Proof. induction tracks as [|t l IH]; [done|]. simpl. by rewrite IH. Qed.

Lemma playlist_loop_available (r : row) (entries : list (option sp_playlist_track)) :
  playlist_loop lower r entries
  = playlist_loop lower r (map Some (available entries)).
Proof.
  unfold playlist_loop. by rewrite !playlist_loop_fold, available_map_Some.
Qed.

(** X3. The playlist scorer reads only the entries whose track is still
    there; with at least one of them it returns without raising and accepts
    if and only if the duration of the video is within 40000 ms of their
    total duration, or they are at least 4 and the titles of at least 60
    percent of them are in the description. *)
Theorem score_playlist_rule (r : row) (q : str) (search_type_id playlist_num : nat)
    (p : sp_playlist) (entries : list (option sp_playlist_track)) :
  available entries <> [] ->
  score_playlist lower r q search_type_id playlist_num p entries
  = score_playlist lower r q search_type_id playlist_num p
      (map Some (available entries))
  /\ exists found,
       score_playlist lower r q search_type_id playlist_num p entries = Ok found
       /\ (is_Some found <-> playlist_rule lower r (available entries))
       /\ (forall info, found = Some info ->
             pi_tracks_uri info = map pt_uri (available entries)
             /\ pi_total_tracks info = length (available entries)
             /\ pi_duration_ms info = playlist_duration (available entries)).
Proof.
  intros Hne. split.
  { unfold score_playlist. by rewrite playlist_loop_available. }
  unfold score_playlist, playlist_loop. rewrite playlist_loop_fold.
  cbn [pacc_tracks_uri pacc_tracks_info pacc_diff pacc_tracks_in_desc pacc_length].
  rewrite !app_nil_l, length_map, Nat.add_0_l, Z.add_0_l.
  unfold playlist_rule, max_diff.
  assert (Hlen : length (available entries) <> 0) by by destruct (available entries).
  destruct (length (available entries)) as [|n]; [done|].
  unfold percent_in_desc, mbind, result_bind. cbv beta iota.
  destruct (Z.ltb_spec (Z.abs (row_duration_ms r - playlist_duration (available entries)))
              40000) as [Hd|Hd];
    destruct (Nat.leb_spec 4 (S n)) as [Hn|Hn];
    destruct (at_least_60
                (percent_of (playlist_titles_in_desc lower r (available entries)) (S n)))
      eqn:Hp;
    cbn [orb andb]; eexists; (split; [reflexivity|]);
    (split; [split; [intros [? ?]; try discriminate; auto | intros H; try by eexists]
            | intros info [= <-]; try done]).
  all: destruct H as [?|[? ?]]; try lia; try discriminate.
Qed.

End MoreRules.

(* ===================================================================== *)
(** * Further properties of the cascades *)
(* ===================================================================== *)

Section MoreCascades.
Variable lower : str -> str.
Variable sp : spotify.

(** ** Albums *)

Lemma score_album_None_any (r : row) (q q' : str) (st st' n n' : nat)
    (a : sp_album) (tracks : list sp_album_track) :
  score_album lower r q st n a tracks = Ok None ->
  score_album lower r q' st' n' a tracks = Ok None.
Proof.
  unfold score_album. destruct (percent_in_desc _ _) as [p|e]; [|done].
  unfold mbind, result_bind. by destruct (_ || _).
Qed.

Lemma qsearch_album_loop_None_any (r : row) (q q' : str) (st st' n n' : nat)
    (items : list sp_album) :
  qsearch_album_loop lower sp r q st n items = Ok None ->
  qsearch_album_loop lower sp r q' st' n' items = Ok None.
Proof.
  revert n n'. induction items as [|a items IH]; intros n n';
    cbn [qsearch_album_loop]; [done|]. unfold mbind, result_bind.
  destruct (score_album lower r q st n a (album sp (sa_uri a))) as [[info|]|e] eqn:Hs;
    try done.
  rewrite (score_album_None_any r q q' st st' n n' a _ Hs). apply IH.
Qed.

Lemma qsearch_album_loop_found (r : row) (q : str) (st n : nat)
    (items : list sp_album) (info : album_info) :
  qsearch_album_loop lower sp r q st n items = Ok (Some info) ->
  exists i a,
    items !! i = Some a
    /\ score_album lower r q st (n + i) a (album sp (sa_uri a)) = Ok (Some info).
Proof.
  revert n. induction items as [|a items IH]; intros n;
    cbn [qsearch_album_loop]; [done|]. unfold mbind, result_bind.
  destruct (score_album lower r q st n a (album sp (sa_uri a))) as [[found|]|e] eqn:Hs;
    try done.
  - intros [= <-]. exists 0, a. by rewrite Nat.add_0_r.
  - intros (i & a' & Hi & Ha)%IH. exists (S i), a'.
    by rewrite Nat.add_succ_r.
Qed.

Lemma score_album_found (r : row) (q : str) (st n : nat) (a : sp_album)
    (tracks : list sp_album_track) (info : album_info) :
  score_album lower r q st n a tracks = Ok (Some info) ->
  (ai_found_on_try info, ai_q info, ai_search_type_id info) = (n, q, st)
  /\ ai_album_uri info = sa_uri a.
Proof.
  unfold score_album. destruct (percent_in_desc _ _) as [pc|e]; [|done].
  unfold mbind, result_bind. destruct (_ || _); [|done]. by intros [= <-].
Qed.

Lemma qsearch_album_found (r : row) (q : str) (st limit : nat) (info : album_info) :
  qsearch_album lower sp r q st limit = Ok (Some info) ->
  (ai_q info, ai_search_type_id info) = (q, st)
  /\ ai_found_on_try info < length (search_album sp q limit)
  /\ exists a,
       a ∈ search_album sp q limit /\ ai_album_uri info = sa_uri a
       /\ score_album lower r q st (ai_found_on_try info) a (album sp (sa_uri a))
          = Ok (Some info).
Proof.
  intros (i & a & Hi & Hs)%qsearch_album_loop_found.
  destruct (score_album_found _ _ _ _ _ _ _ Hs) as ([= Hn Hq Hst] & Huri).
  simpl in Hn. split; [by rewrite Hq, Hst|].
  split; [rewrite Hn; by eapply lookup_lt_Some|].
  exists a. split; [by eapply list_elem_of_lookup_2|]. split; [done|].
  by rewrite Hn.
Qed.

Lemma find_album_cases (r : row) (info : album_info) :
  find_album lower sp r = Ok (Some info) ->
  let youtube_title := fix_youtube_title (row_youtube_title r) in
  qsearch_album lower sp r youtube_title 0 1 = Ok (Some info)
  \/ (qsearch_album lower sp r youtube_title 0 1 = Ok None
      /\ qsearch_album lower sp r (lit "album " ++ [dquote] ++ youtube_title ++ [dquote]) 1 1
         = Ok (Some info))
  \/ (qsearch_album lower sp r youtube_title 0 1 = Ok None
      /\ qsearch_album lower sp r (lit "album " ++ [dquote] ++ youtube_title ++ [dquote]) 1 1
         = Ok None
      /\ qsearch_album lower sp r (row_youtube_title r) 2 1 = Ok (Some info)).
Proof.
  unfold find_album. cbv zeta. unfold mbind, result_bind.
  destruct (qsearch_album lower sp r (fix_youtube_title _) 0 1) as [[i0|]|e];
    cbn [negb bool_decide]; try done.
  - rewrite bool_decide_eq_true_2 by by eexists. cbn [negb].
    intros [= <-]. by left.
  - rewrite bool_decide_eq_false_2 by by intros [? ?]. cbn [negb].
    destruct (qsearch_album lower sp r _ 1 1) as [[i1|]|e]; try done.
    + rewrite bool_decide_eq_true_2 by by eexists. cbn [negb].
      intros [= <-]. right. by left.
    + rewrite bool_decide_eq_false_2 by by intros [? ?]. cbn [negb].
      destruct (qsearch_album lower sp r _ 2 1) as [[i2|]|e]; try done.
      intros [= <-]. right. by right.
Qed.


(** X5. An album found by [find_album] records the strategy that found it:
    type 0 with the normalized title, type 1 with the normalized title in
    quotes after "album" (the first query having found nothing), or type 2
    with the raw title (the two others having found nothing).  Its rank is
    below the number of candidates the search returned, and it is one of
    those candidates, accepted by the scorer on its fetched tracks. *)
Theorem find_album_strategy (r : row) (info : album_info) :
  find_album lower sp r = Ok (Some info) ->
  let youtube_title := fix_youtube_title (row_youtube_title r) in
  let quoted := lit "album " ++ [dquote] ++ youtube_title ++ [dquote] in
  ((ai_search_type_id info, ai_q info) = (0, youtube_title)
   \/ ((ai_search_type_id info, ai_q info) = (1, quoted)
       /\ qsearch_album lower sp r youtube_title 0 1 = Ok None)
   \/ ((ai_search_type_id info, ai_q info) = (2, row_youtube_title r)
       /\ qsearch_album lower sp r youtube_title 0 1 = Ok None
       /\ qsearch_album lower sp r quoted 1 1 = Ok None))
  /\ ai_found_on_try info < length (search_album sp (ai_q info) 1)
  /\ exists a,
       a ∈ search_album sp (ai_q info) 1 /\ ai_album_uri info = sa_uri a
       /\ score_album lower r (ai_q info) (ai_search_type_id info)
            (ai_found_on_try info) a (album sp (sa_uri a))
          = Ok (Some info).
Proof.
  intros Hfind. cbv zeta.
  destruct (find_album_cases r info Hfind) as [H0|[[H0 H1]|(H0 & H1 & H2)]].
  - destruct (qsearch_album_found _ _ _ _ _ H0) as ([= Hq Hst] & Hn & Ha).
    rewrite Hq, Hst. split; [by left|]. by split.
  - destruct (qsearch_album_found _ _ _ _ _ H1) as ([= Hq Hst] & Hn & Ha).
    rewrite Hq, Hst. split; [right; by left|]. by split.
  - destruct (qsearch_album_found _ _ _ _ _ H2) as ([= Hq Hst] & Hn & Ha).
    rewrite Hq, Hst. split; [right; by right|]. by split.
Qed.

(** X6. On a title without a bracketed span the third query of [find_album]
    repeats the first: no album is ever found by strategy 2. *)
Theorem find_album_third_query_repeats (r : row) (info : album_info) :
  ~ line_span (row_youtube_title r) ->
  find_album lower sp r = Ok (Some info) ->
  ai_search_type_id info <= 1.
Proof.
  intros Hspan Hfind.
  assert (Hfix : fix_youtube_title (row_youtube_title r) = row_youtube_title r).
  { apply fix_youtube_title_id.
    destruct (has_span (row_youtube_title r)) eqn:H; [|done].
    by apply has_span_line_span in H. }
  destruct (find_album_cases r info Hfind) as [H0|[[H0 H1]|(H0 & H1 & H2)]].
  - destruct (qsearch_album_found _ _ _ _ _ H0) as ([= _ ->] & _). lia.
  - destruct (qsearch_album_found _ _ _ _ _ H1) as ([= _ ->] & _). lia.
  - rewrite Hfix in H0. unfold qsearch_album in H0, H2.
    by rewrite (qsearch_album_loop_None_any _ _ _ _ 2 _ 0 _ H0) in H2.
Qed.

(** ** Playlists *)

Lemma score_playlist_found (r : row) (q : str) (st n : nat) (p : sp_playlist)
    (entries : list (option sp_playlist_track)) (info : playlist_info) :
  score_playlist lower r q st n p entries = Ok (Some info) ->
  (pi_found_on_try info, pi_q info, pi_search_type_id info) = (n, q, st)
  /\ pi_playlist_uri info = sl_uri p /\ pi_playlist_id info = sl_id p.
Proof.
  unfold score_playlist. destruct (percent_in_desc _ _) as [pc|e]; [|done].
  unfold mbind, result_bind. destruct (_ || _); [|done]. by intros [= <-].
Qed.

Lemma qsearch_playlist_loop_found (r : row) (q : str) (st n : nat)
    (items : list sp_playlist) (info : playlist_info) :
  qsearch_playlist_loop lower sp r q st n items = Ok (Some info) ->
  exists i p,
    items !! i = Some p
    /\ score_playlist lower r q st (n + i) p (playlist sp (sl_uri p)) = Ok (Some info).
Proof.
  revert n. induction items as [|p items IH]; intros n;
    cbn [qsearch_playlist_loop]; [done|]. unfold mbind, result_bind.
  destruct (score_playlist lower r q st n p (playlist sp (sl_uri p)))
    as [[found|]|e] eqn:Hs; try done.
  - intros [= <-]. exists 0, p. by rewrite Nat.add_0_r.
  - intros (i & p' & Hi & Hp)%IH. exists (S i), p'.
    by rewrite Nat.add_succ_r.
Qed.

Lemma qsearch_playlist_found (r : row) (q : str) (st limit : nat)
    (info : playlist_info) :
  qsearch_playlist lower sp r q st limit = Ok (Some info) ->
  (pi_q info, pi_search_type_id info) = (q, st)
  /\ pi_found_on_try info < length (search_playlist sp q limit)
  /\ exists p,
       p ∈ search_playlist sp q limit /\ pi_playlist_uri info = sl_uri p
       /\ score_playlist lower r q st (pi_found_on_try info) p (playlist sp (sl_uri p))
          = Ok (Some info).
Proof.
  intros (i & p & Hi & Hs)%qsearch_playlist_loop_found.
  destruct (score_playlist_found _ _ _ _ _ _ _ Hs) as ([= Hn Hq Hst] & Huri & _).
  simpl in Hn. split; [by rewrite Hq, Hst|].
  split; [rewrite Hn; by eapply lookup_lt_Some|].
  exists p. split; [by eapply list_elem_of_lookup_2|]. split; [done|].
  by rewrite Hn.
Qed.

(** X7. A playlist found by [find_other_playlist] records the strategy that
    found it: type 1 with the raw title, type 2 with the title in quotes
    after "playlist", or type 3 with the channel name before the title,
    each only when the strategies before it found nothing.  Its rank is
    below the number of candidates the search returned, and it is one of
    those candidates, accepted by the scorer on its fetched entries. *)
Theorem find_other_playlist_strategy (r : row) (info : playlist_info) :
  find_other_playlist lower sp r = Ok (Some info) ->
  let title := row_youtube_title r in
  let quoted := lit "playlist " ++ [dquote] ++ title ++ [dquote] in
  let with_channel := row_youtube_channel r ++ lit " " ++ title in
  ((pi_search_type_id info, pi_q info) = (1, title)
   \/ ((pi_search_type_id info, pi_q info) = (2, quoted)
       /\ qsearch_playlist lower sp r title 1 2 = Ok None)
   \/ ((pi_search_type_id info, pi_q info) = (3, with_channel)
       /\ qsearch_playlist lower sp r title 1 2 = Ok None
       /\ qsearch_playlist lower sp r quoted 2 2 = Ok None))
  /\ pi_found_on_try info < length (search_playlist sp (pi_q info) 2)
  /\ exists p,
       p ∈ search_playlist sp (pi_q info) 2 /\ pi_playlist_uri info = sl_uri p
       /\ score_playlist lower r (pi_q info) (pi_search_type_id info)
            (pi_found_on_try info) p (playlist sp (sl_uri p))
          = Ok (Some info).
Proof.
  unfold find_other_playlist. cbv zeta. unfold mbind, result_bind.
  destruct (qsearch_playlist lower sp r (row_youtube_title r) 1 2) as [[i0|]|e] eqn:H0;
    try done.
  - rewrite bool_decide_eq_true_2 by by eexists. cbn [negb]. intros [= <-].
    destruct (qsearch_playlist_found _ _ _ _ _ H0) as ([= Hq Hst] & Hn & Ha).
    rewrite Hq, Hst. split; [by left|]. by split.
  - rewrite bool_decide_eq_false_2 by by intros [? ?]. cbn [negb].
    destruct (qsearch_playlist lower sp r _ 2 2) as [[i1|]|e] eqn:H1; try done.
    + rewrite bool_decide_eq_true_2 by by eexists. cbn [negb]. intros [= <-].
      destruct (qsearch_playlist_found _ _ _ _ _ H1) as ([= Hq Hst] & Hn & Ha).
      rewrite Hq, Hst. split; [right; by left|]. by split.
    + rewrite bool_decide_eq_false_2 by by intros [? ?]. cbn [negb].
      destruct (qsearch_playlist lower sp r _ 3 2) as [[i2|]|e] eqn:H2; try done.
      intros [= <-].
      destruct (qsearch_playlist_found _ _ _ _ _ H2) as ([= Hq Hst] & Hn & Ha).
      rewrite Hq, Hst. split; [right; by right|]. by split.
Qed.

(** ** Tracks *)

Lemma score_track_found (r : row) (q : str) (st n : nat) (track : sp_track)
    (info : track_info) :
  score_track lower r q st n track = Some info ->
  (ti_found_on_try info, ti_q info, ti_search_type_id info) = (n, q, st)
  /\ ti_track_uri info = st_uri track
  /\ ti_duration_ms info = st_duration_ms track
  /\ ti_difference_ms info = Z.abs (st_duration_ms track - row_duration_ms r).
Proof.
  unfold score_track. destruct (artists_loop lower r _) as [artists k].
  destruct (_ || _); [|done]. intros [= <-]. simpl.
  by rewrite Z.abs_idemp.
Qed.

(** X4. [find_track] finds a track only for a topic channel, and never by
    strategy 1: the track found records type 0, 2 or 3, its rank is below
    the number of candidates returned for its query, and it is one of those
    candidates, accepted by the track rule. *)
Theorem find_track_found (r : row) (info : track_info) :
  find_track lower sp r = Ok (Some info) ->
  contains topic_marker (row_youtube_channel r) = true
  /\ ti_search_type_id info ∈ [0; 2; 3]
  /\ ti_found_on_try info < length (search_track sp (ti_q info) 2)
  /\ exists track,
       track ∈ search_track sp (ti_q info) 2
       /\ ti_track_uri info = st_uri track
       /\ ti_difference_ms info = Z.abs (st_duration_ms track - row_duration_ms r)
       /\ track_rule lower r track.
Proof.
  intros Hfind.
  destruct (contains topic_marker (row_youtube_channel r)) eqn:Htopic.
  2:{ unfold find_track in Hfind. by rewrite Htopic in Hfind. }
  split; [done|].
  assert (Hloop : forall q st,
    qsearch_track_loop lower r q st 0 (search_track sp q 2) = Some info ->
    ti_search_type_id info = st
    /\ ti_found_on_try info < length (search_track sp (ti_q info) 2)
    /\ exists track,
         track ∈ search_track sp (ti_q info) 2
         /\ ti_track_uri info = st_uri track
         /\ ti_difference_ms info = Z.abs (st_duration_ms track - row_duration_ms r)
         /\ track_rule lower r track).
  { intros q st (i & track & Hi & Hs & _)%qsearch_track_loop_first.
    destruct (score_track_found _ _ _ _ _ _ Hs) as ([= Hn Hq Hst] & Huri & _ & Hd).
    simpl in Hn. rewrite Hq, Hn. split; [done|].
    split; [by eapply lookup_lt_Some|].
    exists track. split; [by eapply list_elem_of_lookup_2|].
    repeat split; try done. apply (score_track_accepts lower r q st (0 + i) track).
    rewrite Hs. by eexists. }
  rewrite (find_track_topic lower sp r Htopic) in Hfind. cbv zeta in Hfind.
  injection Hfind as Hfind.
  destruct (qsearch_track_loop lower r _ 0 _) as [i0|] eqn:H0.
  - injection Hfind as ->. destruct (Hloop _ _ H0) as (-> & H). split; [|done].
    apply list_elem_of_here.
  - destruct (qsearch_track_loop lower r _ 2 _) as [i1|] eqn:H1.
    + injection Hfind as ->. destruct (Hloop _ _ H1) as (-> & H). split; [|done].
      apply list_elem_of_further, list_elem_of_here.
    + destruct (Hloop _ _ Hfind) as (-> & H). split; [|done].
      do 2 apply list_elem_of_further. apply list_elem_of_here.
Qed.

End MoreCascades.

(* ===================================================================== *)
(** * Further properties of the collectors *)
(* ===================================================================== *)

Lemma extend_unique_prefix (l uris : list str) : l `prefix_of` extend_unique l uris.
Proof.
  revert l. induction uris as [|u uris IH]; intros l; simpl; [done|].
  destruct (bool_decide (u ∈ l)); [apply IH|].
  etrans; [|apply IH]. by apply prefix_app_r.
Qed.

Lemma elem_of_extend_unique (l uris : list str) (x : str) :
  x ∈ extend_unique l uris <-> x ∈ l \/ x ∈ uris.
Proof.
  revert l. induction uris as [|u uris IH]; intros l; simpl.
  - split; [by left|]. intros [?|H]; [done|]. by apply elem_of_nil in H.
  - destruct (bool_decide (u ∈ l)) eqn:Hu; rewrite IH, elem_of_cons.
    + apply bool_decide_eq_true in Hu. split; [tauto|].
      intros [?|[->|?]]; auto.
    + rewrite elem_of_app, list_elem_of_singleton. tauto.
Qed.

Lemma dd_get_spec (m m' : gmap str (list str)) (d : str) (l : list str) :
  dd_get m d = (l, m') ->
  l = default [] (m !! d)
  /\ forall v k, <[d := v]> m' !! k = if decide (k = d) then Some v else m !! k.
Proof.
  unfold dd_get. destruct (m !! d) as [l0|] eqn:Hd; intros [= <- <-].
  - split; [done|]. intros v k. destruct (decide (k = d)) as [->|Hne].
    + apply lookup_insert_eq.
    + by rewrite lookup_insert_ne.
  - split; [done|]. intros v k. destruct (decide (k = d)) as [->|Hne].
    + apply lookup_insert_eq.
    + by rewrite !lookup_insert_ne.
Qed.

Lemma dd_get_lookup (m m' : gmap str (list str)) (d : str) (l : list str) :
  dd_get m d = (l, m') ->
  forall k, m' !! k = if decide (k = d) then Some l else m !! k.
Proof.
  unfold dd_get. destruct (m !! d) as [l0|] eqn:Hd; intros [= <- <-] k.
  - destruct (decide (k = d)) as [->|Hne]; done.
  - destruct (decide (k = d)) as [->|Hne].
    + apply lookup_insert_eq.
    + by rewrite lookup_insert_ne.
Qed.

Lemma staged_for_playlist_insert (s : state) (d : str) (l l' : list str)
    (m : gmap str (list str)) (uris : list str) :
  d <> liked_sentinel ->
  dd_get (playlist_items s) d = (l, m) ->
  l `prefix_of` l' ->
  (forall x, x ∈ l' <-> x ∈ l \/ x ∈ uris) ->
  staged_for_playlist s (set_playlist_items (<[d := l']> m) s) d uris.
Proof.
  intros Hd Hget Hpre Hin. destruct (dd_get_spec _ _ _ _ Hget) as [-> Hm].
  unfold staged_for_playlist, staged. cbn [playlist_items set_playlist_items].
  rewrite Hm, decide_True by done. simpl.
  split; [done|]. split; [done|]. split; [exact Hin|]. split; [by eexists|].
  split; [|done]. intros k Hk. by rewrite Hm, decide_False.
Qed.

Lemma collect_track_cases (s s' : state) (info : track_info) (d : str)
    (liked : list str) (status : str) :
  collect_track s info d liked = (status, s') ->
  (status = skipped_during /\ s' = s
   /\ in_log (ti_track_uri info) d (log_tracks s) = true)
  \/ (status = skipped_before /\ s' = s /\ d = liked_sentinel
      /\ ti_track_uri info ∈ liked
      /\ in_log (ti_track_uri info) d (log_tracks s) = false)
  \/ (status = saved /\ in_log (ti_track_uri info) d (log_tracks s) = false
      /\ staged_for_playlist s s' d [ti_track_uri info])
  \/ (status = saved /\ in_log (ti_track_uri info) d (log_tracks s) = false
      /\ d = liked_sentinel /\ (ti_track_uri info ∉ liked)
      /\ s' = set_tracks_to_like (tracks_to_like s ++ [ti_track_uri info]) s).
Proof.
  unfold collect_track.
  destruct (in_log _ _ _) eqn:Hlog; [intros [= <- <-]; by left|].
  destruct (bool_decide (ti_track_uri info ∈ liked)) eqn:Hl;
    destruct (bool_decide (d = liked_sentinel)) eqn:Hd; cbn [andb].
  - apply bool_decide_eq_true in Hl, Hd. intros [= <- <-]. right. by left.
  - apply bool_decide_eq_false in Hd. rewrite bool_decide_eq_true_2 by done.
    destruct (dd_get _ _) as [l m] eqn:Hget.
    destruct (bool_decide (ti_track_uri info ∈ l)) eqn:Hin; intros [= <- <-];
      right; right; left; (split; [done|]); (split; [done|]).
    + apply bool_decide_eq_true in Hin.
      rewrite <- (insert_id m d l) at 1
        by (rewrite (dd_get_lookup _ _ _ _ Hget); by rewrite decide_True).
      apply (staged_for_playlist_insert s d l l m); try done.
      intros x. rewrite list_elem_of_singleton. split; [by left|].
      intros [? | ->]; done.
    + apply (staged_for_playlist_insert s d l _ m); try done.
      * by apply prefix_app_r.
      * intros x. by rewrite elem_of_app.
  - apply bool_decide_eq_true in Hd. apply bool_decide_eq_false in Hl.
    rewrite bool_decide_eq_false_2 by auto. intros [= <- <-].
    right. right. by right.
  - apply bool_decide_eq_false in Hd. rewrite bool_decide_eq_true_2 by done.
    destruct (dd_get _ _) as [l m] eqn:Hget.
    destruct (bool_decide (ti_track_uri info ∈ l)) eqn:Hin; intros [= <- <-];
      right; right; left; (split; [done|]); (split; [done|]).
    + apply bool_decide_eq_true in Hin.
      rewrite <- (insert_id m d l) at 1
        by (rewrite (dd_get_lookup _ _ _ _ Hget); by rewrite decide_True).
      apply (staged_for_playlist_insert s d l l m); try done.
      intros x. rewrite list_elem_of_singleton. split; [by left|].
      intros [? | ->]; done.
    + apply (staged_for_playlist_insert s d l _ m); try done.
      * by apply prefix_app_r.
      * intros x. by rewrite elem_of_app.
Qed.

Lemma collect_album_cases (s s' : state) (info : album_info) (d : str)
    (liked : list str) (status : str) :
  collect_album s info d liked = (status, s') ->
  (status = skipped_during /\ s' = s
   /\ in_log (ai_album_uri info) d (log_albums s) = true)
  \/ (status = skipped_before /\ s' = s /\ d = liked_sentinel
      /\ ai_album_uri info ∈ liked
      /\ in_log (ai_album_uri info) d (log_albums s) = false)
  \/ (status = saved /\ in_log (ai_album_uri info) d (log_albums s) = false
      /\ staged_for_playlist s s' d (ai_tracks_uri info))
  \/ (status = saved /\ in_log (ai_album_uri info) d (log_albums s) = false
      /\ d = liked_sentinel /\ (ai_album_uri info ∉ liked)
      /\ s' = set_albums_to_like (albums_to_like s ++ [ai_album_uri info]) s).
Proof.
  unfold collect_album.
  destruct (in_log _ _ _) eqn:Hlog; [intros [= <- <-]; by left|].
  destruct (bool_decide (ai_album_uri info ∈ liked)) eqn:Hl;
    destruct (bool_decide (d = liked_sentinel)) eqn:Hd; cbn [andb].
  - apply bool_decide_eq_true in Hl, Hd. intros [= <- <-]. right. by left.
  - apply bool_decide_eq_false in Hd. rewrite bool_decide_eq_true_2 by done.
    destruct (dd_get _ _) as [l m] eqn:Hget. intros [= <- <-].
    right; right; left; (split; [done|]); (split; [done|]).
    apply (staged_for_playlist_insert s d l _ m); try done.
    + apply extend_unique_prefix.
    + intros x. apply elem_of_extend_unique.
  - apply bool_decide_eq_true in Hd. apply bool_decide_eq_false in Hl.
    rewrite bool_decide_eq_false_2 by auto. intros [= <- <-].
    right. right. by right.
  - apply bool_decide_eq_false in Hd. rewrite bool_decide_eq_true_2 by done.
    destruct (dd_get _ _) as [l m] eqn:Hget. intros [= <- <-].
    right; right; left; (split; [done|]); (split; [done|]).
    apply (staged_for_playlist_insert s d l _ m); try done.
    + apply extend_unique_prefix.
    + intros x. apply elem_of_extend_unique.
Qed.

Lemma collect_other_playlist_cases (s s' : state) (info : playlist_info) (d : str)
    (status : str) :
  collect_other_playlist s info d = (status, s') ->
  (status = skipped_during /\ s' = s
   /\ in_log (pi_playlist_uri info) d (log_playlists_others s) = true)
  \/ (status = saved
      /\ in_log (pi_playlist_uri info) d (log_playlists_others s) = false
      /\ staged_for_playlist s s' d (pi_tracks_uri info))
  \/ (status = saved
      /\ in_log (pi_playlist_uri info) d (log_playlists_others s) = false
      /\ d = liked_sentinel
      /\ s' = set_playlists_to_like (playlists_to_like s ++ [pi_playlist_id info]) s).
Proof.
  unfold collect_other_playlist.
  destruct (in_log _ _ _) eqn:Hlog; cbn [negb]; [intros [= <- <-]; by left|].
  destruct (bool_decide (d ≠ liked_sentinel)) eqn:Hd.
  - apply bool_decide_eq_true in Hd.
    destruct (dd_get _ _) as [l m] eqn:Hget. intros [= <- <-].
    right; left; (split; [done|]); (split; [done|]).
    apply (staged_for_playlist_insert s d l _ m); try done.
    + apply extend_unique_prefix.
    + intros x. apply elem_of_extend_unique.
  - apply bool_decide_eq_false in Hd. intros [= <- <-]. right. right.
    repeat split; try done. by destruct (decide (d = liked_sentinel)).
Qed.

(** X8. A collector that answers "saved" for a playlist has staged every URI of
    the match in the list of that playlist, after the URIs the list had and
    without touching any other list; for the sentinel "0" it has appended
    the entity to the list to like and left the staging map alone.  With
    any other answer the state is as it was. *)
Theorem collect_saved_stages :
  (forall s s' info d liked status,
     collect_track s info d liked = (status, s') ->
     (status = saved /\ d <> liked_sentinel
      -> staged_for_playlist s s' d [ti_track_uri info])
     /\ (status = saved /\ d = liked_sentinel
         -> s' = set_tracks_to_like (tracks_to_like s ++ [ti_track_uri info]) s)
     /\ (status <> saved -> s' = s))
  /\ (forall s s' info d liked status,
        collect_album s info d liked = (status, s') ->
        (status = saved /\ d <> liked_sentinel
         -> staged_for_playlist s s' d (ai_tracks_uri info))
        /\ (status = saved /\ d = liked_sentinel
            -> s' = set_albums_to_like (albums_to_like s ++ [ai_album_uri info]) s)
        /\ (status <> saved -> s' = s))
  /\ (forall s s' info d status,
        collect_other_playlist s info d = (status, s') ->
        (status = saved /\ d <> liked_sentinel
         -> staged_for_playlist s s' d (pi_tracks_uri info))
        /\ (status = saved /\ d = liked_sentinel
            -> s' = set_playlists_to_like
                      (playlists_to_like s ++ [pi_playlist_id info]) s)
        /\ (status <> saved -> s' = s)).
Proof.
  pose proof status_values_differ as (H1 & H2 & H3).
  split; [|split].
  - intros s s' info d liked status Hc.
    destruct (collect_track_cases _ _ _ _ _ _ Hc)
      as [(Hs & Hs' & _)|[(Hs & Hs' & _)|[(Hs & _ & Hst)|(Hs & _ & Hd & _ & Hs')]]];
      subst status; (split; [|split]); try done; try (intros [? ?]; congruence).
    + intros [_ Hd]. by destruct Hst as [? _].
  - intros s s' info d liked status Hc.
    destruct (collect_album_cases _ _ _ _ _ _ Hc)
      as [(Hs & Hs' & _)|[(Hs & Hs' & _)|[(Hs & _ & Hst)|(Hs & _ & Hd & _ & Hs')]]];
      subst status; (split; [|split]); try done; try (intros [? ?]; congruence).
    + intros [_ Hd]. by destruct Hst as [? _].
  - intros s s' info d status Hc.
    destruct (collect_other_playlist_cases _ _ _ _ _ Hc)
      as [(Hs & Hs' & _)|[(Hs & _ & Hst)|(Hs & _ & Hd & Hs')]];
      subst status; (split; [|split]); try done; try (intros [? ?]; congruence).
    + intros [_ Hd]. by destruct Hst as [? _].
Qed.

(* ===================================================================== *)
(** * Further properties of the registries *)
(* ===================================================================== *)

Lemma log_track_fields (s : state) (info : track_info) (d : str) (log_id : Z)
    (status : str) :
  let s' := log_track s info d log_id status in
  distinct_albums s' = distinct_albums s
  /\ distinct_playlists_others s' = distinct_playlists_others s
  /\ albums_to_like s' = albums_to_like s
  /\ playlists_to_like s' = playlists_to_like s
  /\ tracks_to_like s' = tracks_to_like s
  /\ playlist_items s' = playlist_items s
  /\ log_albums s' = log_albums s
  /\ log_playlists_others s' = log_playlists_others s.
Proof. unfold log_track. by destruct (may_write _ _). Qed.

Lemma distinct_tracks_log_track_keys (s : state) (info : track_info) (d : str)
    (log_id : Z) (status : str) (k : str) :
  is_Some (distinct_tracks s !! k) \/ k = ti_track_uri info ->
  is_Some (distinct_tracks (log_track s info d log_id status) !! k).
Proof.
  unfold log_track, may_write.
  destruct (distinct_tracks s !! ti_track_uri info) as [e|] eqn:He.
  - destruct (falsy (te_playlist_uri e)); simpl.
    + intros [H | ->]; [|rewrite lookup_insert_eq; by eexists].
      destruct (decide (ti_track_uri info = k)) as [->|Hne].
      * rewrite lookup_insert_eq. by eexists.
      * by rewrite lookup_insert_ne.
    + intros [H | ->]; [done|]. rewrite He. by eexists.
  - simpl. intros [H | ->]; [|rewrite lookup_insert_eq; by eexists].
    destruct (decide (ti_track_uri info = k)) as [->|Hne].
    + rewrite lookup_insert_eq. by eexists.
    + by rewrite lookup_insert_ne.
Qed.

Lemma log_album_tracks_keys (info : album_info) (dt : gmap str track_entry) (k : str) :
  is_Some (dt !! k) \/ k ∈ map (fun '(uri, _, _) => uri) (ai_tracks_info info) ->
  is_Some (log_album_tracks info dt !! k).
Proof.
  unfold log_album_tracks. generalize (ai_tracks_info info) as l. intros l. revert dt.
  induction l as [|[[uri title] dur] l IH]; intros dt; simpl.
  - intros [H|H]; [done|]. by apply elem_of_nil in H.
  - intros H. apply IH.
    assert (Hstep : forall e' : track_entry,
              is_Some (dt !! k) ->
              is_Some ((if may_write dt uri then <[uri := e']> dt else dt) !! k)).
    { intros e Hk. destruct (may_write dt uri); [|done].
      destruct (decide (uri = k)) as [->|Hne].
      - rewrite lookup_insert_eq. by eexists.
      - by rewrite lookup_insert_ne. }
    destruct H as [H|[->|H]%elem_of_cons]; [left; by apply Hstep| |by right].
    left. unfold may_write. destruct (dt !! uri) as [e|] eqn:He.
    + destruct (falsy _); [rewrite lookup_insert_eq; by eexists|].
      rewrite He. by eexists.
    + rewrite lookup_insert_eq. by eexists.
Qed.

Lemma log_other_playlist_tracks_keys (info : playlist_info)
    (dt : gmap str track_entry) (k : str) :
  is_Some (dt !! k) -> is_Some (log_other_playlist_tracks info dt !! k).
Proof.
  intros [e He].
  pose proof (log_other_playlist_tracks_lookup info dt k) as H.
  rewrite He in H. simpl in H.
  destruct (log_other_playlist_tracks info dt !! k); [by eexists|].
  by destruct (bool_decide _).
Qed.

(** The registries only gain keys: whatever operation is run, an entity
    that is in a registry stays in it. *)
Lemma registries_grow (s : state) (o : op) :
  (forall k, is_Some (distinct_tracks s !! k) ->
             is_Some (distinct_tracks (exec s o) !! k))
  /\ (forall k, is_Some (distinct_albums s !! k) ->
                is_Some (distinct_albums (exec s o) !! k))
  /\ (forall k, is_Some (distinct_playlists_others s !! k) ->
                is_Some (distinct_playlists_others (exec s o) !! k)).
Proof.
  destruct o as [info d liked|info d id st|info d liked|info d id st|info d|info d id st];
    cbn [exec].
  - unfold collect_track. repeat case_match; done.
  - destruct (log_track_fields s info d id st) as (-> & -> & _).
    split; [|done]. intros k Hk. apply distinct_tracks_log_track_keys. by left.
  - unfold collect_album. repeat case_match; done.
  - simpl. split; [|split; [|done]].
    + intros k Hk. apply log_album_tracks_keys. by left.
    + intros k Hk. destruct (decide (ai_album_uri info = k)) as [->|Hne].
      * rewrite lookup_insert_eq. by eexists.
      * by rewrite lookup_insert_ne.
  - unfold collect_other_playlist. repeat case_match; done.
  - simpl. split; [|split; [done|]].
    + intros k Hk. by apply log_other_playlist_tracks_keys.
    + intros k Hk. destruct (decide (pi_playlist_uri info = k)) as [->|Hne].
      * rewrite lookup_insert_eq. by eexists.
      * by rewrite lookup_insert_ne.
Qed.

Lemma log_album_tracks_album_uri (info : album_info) (dt : gmap str track_entry)
    (k : str) (e : track_entry) :
  k ∈ map (fun '(uri, _, _) => uri) (ai_tracks_info info) ->
  (forall e0, dt !! k = Some e0 -> falsy (te_playlist_uri e0) = true) ->
  log_album_tracks info dt !! k = Some e ->
  te_album_uri e = ai_album_uri info /\ te_playlist_uri e = None
  /\ te_track_artists e = ai_album_artists info.
Proof.
  unfold log_album_tracks. generalize (ai_tracks_info info) as l. intros l.
  assert (Hgen : forall dt : gmap str track_entry,
    (forall e0, dt !! k = Some e0 ->
       falsy (te_playlist_uri e0) = true
       \/ (te_album_uri e0 = ai_album_uri info /\ te_playlist_uri e0 = None
           /\ te_track_artists e0 = ai_album_artists info)) ->
    (k ∈ map (fun '(uri, _, _) => uri) l
     \/ forall e0, dt !! k = Some e0 ->
          te_album_uri e0 = ai_album_uri info /\ te_playlist_uri e0 = None
          /\ te_track_artists e0 = ai_album_artists info) ->
    fold_left
      (fun dt '(track_uri, title, duration_ms) =>
         if may_write dt track_uri then
           <[track_uri :=
               {| te_album_uri := ai_album_uri info;
                  te_playlist_uri := None;
                  te_track_title := title;
                  te_track_artists := ai_album_artists info;
                  te_duration_ms := duration_ms |}]> dt
         else dt) l dt !! k = Some e ->
    te_album_uri e = ai_album_uri info /\ te_playlist_uri e = None
    /\ te_track_artists e = ai_album_artists info).
  { clear dt. induction l as [|[[uri title] dur] l IH]; intros dt Hinv Hin; simpl.
    - destruct Hin as [Hin|Hin]; [by apply elem_of_nil in Hin|]. apply Hin.
    - apply IH.
      + intros e0. destruct (may_write dt uri) eqn:Hw; [|apply Hinv].
        destruct (decide (uri = k)) as [->|Hne].
        * rewrite lookup_insert_eq. intros [= <-]. by right.
        * rewrite lookup_insert_ne by done. apply Hinv.
      + destruct Hin as [[->|Hin]%elem_of_cons|Hin].
        * right. intros e0. unfold may_write.
          destruct (dt !! uri) as [e1|] eqn:He1.
          -- destruct (Hinv e1 eq_refl) as [Hf|Hd].
             ++ rewrite Hf, lookup_insert_eq. by intros [= <-].
             ++ destruct Hd as (? & Hp & ?). rewrite Hp. simpl.
                rewrite lookup_insert_eq. by intros [= <-].
          -- rewrite lookup_insert_eq. by intros [= <-].
        * by left.
        * right. intros e0. destruct (may_write dt uri) eqn:Hw; [|apply Hin].
          destruct (decide (uri = k)) as [->|Hne].
          -- rewrite lookup_insert_eq. by intros [= <-].
          -- rewrite lookup_insert_ne by done. apply Hin. }
  intros Hin Hf. apply Hgen; [|by left]. intros e0 He0. left. by apply Hf.
Qed.

(** X9. Logging an album registers the album under its URI with the totals of
    the match, and every track of the match: a track that no playlist owns
    gets the album's URI and artists and no playlist reference.  Logging a
    playlist registers it and every track of the match with the playlist as
    its reference.  Logging a track registers the track. *)
Theorem log_registers (s : state) (d : str) (log_id : Z) (status : str) :
  (forall info,
     let s' := log_album s info d log_id status in
     distinct_albums s' !! ai_album_uri info
     = Some {| ee_title := ai_album_title info; ee_by := ai_album_artists info;
               ee_duration_ms := ai_duration_ms info;
               ee_total_tracks := ai_total_tracks info |}
     /\ forall k, k ∈ map (fun '(uri, _, _) => uri) (ai_tracks_info info) ->
          exists e, distinct_tracks s' !! k = Some e
            /\ (owning_playlist s k = None ->
                te_album_uri e = ai_album_uri info /\ te_playlist_uri e = None
                /\ te_track_artists e = ai_album_artists info))
  /\ (forall info,
        let s' := log_other_playlist s info d log_id status in
        distinct_playlists_others s' !! pi_playlist_uri info
        = Some {| ee_title := pi_playlist_title info; ee_by := pi_playlist_owner info;
                  ee_duration_ms := pi_duration_ms info;
                  ee_total_tracks := pi_total_tracks info |}
        /\ forall k, k ∈ playlist_track_uris info ->
             exists e, distinct_tracks s' !! k = Some e
               /\ te_playlist_uri e = Some (pi_playlist_uri info))
  /\ (forall info,
        let s' := log_track s info d log_id status in
        exists e, distinct_tracks s' !! ti_track_uri info = Some e
          /\ (owning_playlist s (ti_track_uri info) = None ->
              e = {| te_album_uri := ti_album_uri info; te_playlist_uri := None;
                     te_track_title := ti_track_title info;
                     te_track_artists := ti_track_artists info;
                     te_duration_ms := ti_duration_ms info |})).
Proof.
  split; [|split].
  - intros info s'. split; [apply lookup_insert_eq|]. intros k Hk.
    destruct (log_album_tracks_keys info (distinct_tracks s) k (or_intror Hk))
      as [e He].
    exists e. split; [exact He|]. intros Hown.
    apply (log_album_tracks_album_uri info (distinct_tracks s) k e Hk); [|exact He].
    intros e0 He0. unfold owning_playlist in Hown. rewrite He0 in Hown.
    destruct (falsy (te_playlist_uri e0)) eqn:Hf; [done|].
    destruct (te_playlist_uri e0); done.
  - intros info s'. split; [apply lookup_insert_eq|]. intros k Hk.
    pose proof (log_other_playlist_tracks_lookup info (distinct_tracks s) k) as H.
    rewrite bool_decide_eq_true_2 in H by done.
    change (distinct_tracks s' !! k) with
      (log_other_playlist_tracks info (distinct_tracks s) !! k).
    destruct (log_other_playlist_tracks info (distinct_tracks s) !! k) as [e|];
      [|done].
    exists e. split; [done|]. by injection H.
  - intros info s'. subst s'. unfold log_track, may_write, owning_playlist.
    destruct (distinct_tracks s !! ti_track_uri info) as [e0|] eqn:He0.
    + destruct (falsy (te_playlist_uri e0)) eqn:Hf; simpl.
      * rewrite lookup_insert_eq. by eexists.
      * rewrite He0. exists e0. split; [done|]. by destruct (te_playlist_uri e0).
    + simpl. rewrite lookup_insert_eq. by eexists.
Qed.

(* ===================================================================== *)
(** * Properties of a run *)
(* ===================================================================== *)

Lemma get_user_playlist_id_Ok (r : row) (df_playlists : list playlist_row) (d : str) :
  get_user_playlist_id r df_playlists = Ok d ->
  exists p, p ∈ df_playlists
    /\ pr_youtube_playlist_id p = row_youtube_playlist_id r
    /\ pr_spotify_playlist_id p = d.
Proof.
  unfold get_user_playlist_id.
  destruct (filter _ df_playlists) as [|p l] eqn:Hf; [done|]. intros [= <-].
  assert (Hp : p ∈ filter (fun p => pr_youtube_playlist_id p = row_youtube_playlist_id r)
                   df_playlists) by (rewrite Hf; left).
  apply list_elem_of_filter in Hp as [Hp1 Hp2]. by exists p.
Qed.

(** ** What saving a match does to the ledgers *)

Lemma collect_track_keeps (s : state) (info : track_info) (d : str) (liked : list str) :
  let s' := snd (collect_track s info d liked) in
  log_tracks s' = log_tracks s /\ log_albums s' = log_albums s
  /\ log_playlists_others s' = log_playlists_others s
  /\ distinct_tracks s' = distinct_tracks s /\ distinct_albums s' = distinct_albums s
  /\ distinct_playlists_others s' = distinct_playlists_others s
  /\ albums_to_like s' = albums_to_like s.
Proof. unfold collect_track. repeat case_match; done. Qed.

Lemma collect_album_keeps (s : state) (info : album_info) (d : str) (liked : list str) :
  let s' := snd (collect_album s info d liked) in
  log_tracks s' = log_tracks s /\ log_albums s' = log_albums s
  /\ log_playlists_others s' = log_playlists_others s
  /\ distinct_tracks s' = distinct_tracks s /\ distinct_albums s' = distinct_albums s
  /\ distinct_playlists_others s' = distinct_playlists_others s
  /\ tracks_to_like s' = tracks_to_like s.
Proof. unfold collect_album. repeat case_match; done. Qed.

Lemma collect_other_playlist_keeps (s : state) (info : playlist_info) (d : str) :
  let s' := snd (collect_other_playlist s info d) in
  log_tracks s' = log_tracks s /\ log_albums s' = log_albums s
  /\ log_playlists_others s' = log_playlists_others s
  /\ distinct_tracks s' = distinct_tracks s /\ distinct_albums s' = distinct_albums s
  /\ distinct_playlists_others s' = distinct_playlists_others s
  /\ tracks_to_like s' = tracks_to_like s /\ albums_to_like s' = albums_to_like s.
Proof. unfold collect_other_playlist. repeat case_match; done. Qed.

Lemma collect_track_status (s : state) (info : track_info) (d : str) (liked : list str) :
  fst (collect_track s info d liked) ∈ [saved; skipped_during; skipped_before].
Proof.
  unfold collect_track. repeat case_match; simpl;
    repeat (first [apply list_elem_of_here | apply list_elem_of_further]).
Qed.

Lemma collect_album_status (s : state) (info : album_info) (d : str) (liked : list str) :
  fst (collect_album s info d liked) ∈ [saved; skipped_during; skipped_before].
Proof.
  unfold collect_album. repeat case_match; simpl;
    repeat (first [apply list_elem_of_here | apply list_elem_of_further]).
Qed.

Lemma collect_other_playlist_status (s : state) (info : playlist_info) (d : str) :
  fst (collect_other_playlist s info d) ∈ [saved; skipped_during].
Proof.
  unfold collect_other_playlist. repeat case_match; simpl;
    repeat (first [apply list_elem_of_here | apply list_elem_of_further]).
Qed.

Lemma save_track_ledger (s : state) (info : track_info) (d : str) (log_id : Z)
    (liked : list str) :
  exists e,
    ledger_grows s (save_track s info d log_id liked) [e] [] []
    /\ (le_log_id e, le_uri e, le_user_playlist_id e)
       = (log_id, ti_track_uri info, d)
    /\ le_status e = fst (collect_track s info d liked).
Proof.
  unfold save_track, ledger_grows.
  pose proof (collect_track_keeps s info d liked) as (Ht & Ha & Hp & _).
  destruct (collect_track s info d liked) as [st s1]. cbn [fst snd] in *.
  destruct (log_track_fields s1 info d log_id st) as (_ & _ & _ & _ & _ & _ & -> & ->).
  rewrite log_tracks_log_track, Ht, Ha, Hp, !app_nil_r. by eexists.
Qed.

Lemma save_album_ledger (s : state) (info : album_info) (d : str) (log_id : Z)
    (liked : list str) :
  exists e,
    ledger_grows s (save_album s info d log_id liked) [] [e] []
    /\ (le_log_id e, le_uri e, le_user_playlist_id e)
       = (log_id, ai_album_uri info, d)
    /\ le_status e = fst (collect_album s info d liked).
Proof.
  unfold save_album, ledger_grows.
  pose proof (collect_album_keeps s info d liked) as (Ht & Ha & Hp & _).
  destruct (collect_album s info d liked) as [st s1]. cbn [fst snd] in *.
  simpl. rewrite Ht, Ha, Hp, !app_nil_r. by eexists.
Qed.

Lemma save_other_playlist_ledger (s : state) (info : playlist_info) (d : str)
    (log_id : Z) :
  exists e,
    ledger_grows s (save_other_playlist s info d log_id) [] [] [e]
    /\ (le_log_id e, le_uri e, le_user_playlist_id e)
       = (log_id, pi_playlist_uri info, d)
    /\ le_status e = fst (collect_other_playlist s info d).
Proof.
  unfold save_other_playlist, ledger_grows.
  pose proof (collect_other_playlist_keeps s info d) as (Ht & Ha & Hp & _).
  destruct (collect_other_playlist s info d) as [st s1]. cbn [fst snd] in *.
  simpl. rewrite Ht, Ha, Hp, !app_nil_r. by eexists.
Qed.

Section Run.
Variable lower : str -> str.
Variable sp : spotify.
Variable threshold : option Z.

(** A record that [prepare_spotify] gets through either leaves the state
    as it is (nothing found) or saves one match for the destination of the
    record: a track when the video is under the threshold, else an album,
    else (no album found) a playlist. *)
Lemma prepare_spotify_cases (s s' : state) (r : row)
    (df_playlists : list playlist_row) (liked_albums_uri liked_tracks_uri : list str) :
  prepare_spotify lower sp threshold s r df_playlists liked_albums_uri liked_tracks_uri
  = Ok s' ->
  exists d,
    get_user_playlist_id r df_playlists = Ok d
    /\ ((s' = s
         /\ (if over_threshold threshold r
             then find_album lower sp r = Ok None
                  /\ find_other_playlist lower sp r = Ok None
             else find_track lower sp r = Ok None))
        \/ (exists info,
              over_threshold threshold r = false
              /\ find_track lower sp r = Ok (Some info)
              /\ s' = save_track s info d (row_log_id r) liked_tracks_uri)
        \/ (exists info,
              over_threshold threshold r = true
              /\ find_album lower sp r = Ok (Some info)
              /\ s' = save_album s info d (row_log_id r) liked_albums_uri)
        \/ (exists info,
              over_threshold threshold r = true
              /\ find_album lower sp r = Ok None
              /\ find_other_playlist lower sp r = Ok (Some info)
              /\ s' = save_other_playlist s info d (row_log_id r))).
Proof.
  unfold prepare_spotify, mbind, result_bind.
  destruct (get_user_playlist_id r df_playlists) as [d|e]; [|done].
  intros H. exists d. split; [done|].
  destruct (over_threshold threshold r).
  - destruct (find_album lower sp r) as [[info|]|e]; try done.
    + right. right. left. exists info. repeat split; try done.
      unfold save_album. destruct (collect_album _ _ _ _). by injection H.
    + destruct (find_other_playlist lower sp r) as [[info|]|e]; try done.
      * right. right. right. exists info. repeat split; try done.
        unfold save_other_playlist. destruct (collect_other_playlist _ _ _).
        by injection H.
      * left. by injection H.
  - destruct (find_track lower sp r) as [[info|]|e]; try done.
    + right. left. exists info. repeat split; try done.
      unfold save_track. destruct (collect_track _ _ _ _). by injection H.
    + left. by injection H.
Qed.

Lemma prepare_spotify_appends (s s' : state) (r : row)
    (df_playlists : list playlist_row) (liked_albums_uri liked_tracks_uri : list str) :
  prepare_spotify lower sp threshold s r df_playlists liked_albums_uri liked_tracks_uri
  = Ok s' ->
  exists tracks albums playlists,
    ledger_grows s s' tracks albums playlists
    /\ length (tracks ++ albums ++ playlists) <= 1
    /\ forall e, e ∈ tracks ++ albums ++ playlists ->
         le_log_id e = row_log_id r
         /\ get_user_playlist_id r df_playlists = Ok (le_user_playlist_id e)
         /\ le_status e ∈ [saved; skipped_during; skipped_before].
Proof.
  intros (d & Hd & [[-> _]|[(info & Hth & _ & ->)|[(info & Hth & _ & ->)|(info & Hth & _ & _ & ->)]]])%prepare_spotify_cases.
  - exists [], [], []. unfold ledger_grows. rewrite !app_nil_r.
    split; [done|]. split; [simpl; lia|].
    intros e0 He. by apply elem_of_nil in He.
  - destruct (save_track_ledger s info d (row_log_id r) liked_tracks_uri)
      as (e & Hg & [= H1 H2 H3] & Hst).
    exists [e], [], []. split; [done|]. split; [simpl; lia|].
    intros e' ->%list_elem_of_singleton. rewrite H1, H3, Hst.
    repeat split; try done. apply collect_track_status.
  - destruct (save_album_ledger s info d (row_log_id r) liked_albums_uri)
      as (e & Hg & [= H1 H2 H3] & Hst).
    exists [], [e], []. split; [done|]. split; [simpl; lia|].
    intros e' ->%list_elem_of_singleton. rewrite H1, H3, Hst.
    repeat split; try done. apply collect_album_status.
  - destruct (save_other_playlist_ledger s info d (row_log_id r))
      as (e & Hg & [= H1 H2 H3] & Hst).
    exists [], [], [e]. split; [done|]. split; [simpl; lia|].
    intros e' ->%list_elem_of_singleton. rewrite H1, H3, Hst.
    repeat split; try done.
    pose proof (collect_other_playlist_status s info d) as Hs.
    apply elem_of_cons in Hs as [Hs|Hs]; [rewrite Hs; apply list_elem_of_here|].
    apply list_elem_of_singleton in Hs. rewrite Hs.
    apply list_elem_of_further, list_elem_of_here.
Qed.

(** X10. Each record adds at most one entry to the ledgers, after the entries
    they hold: it carries the id of the record, the destination that
    [df_playlists] gives for it and one of the three statuses. *)
Theorem prepare_spotify_ledger (s s' : state) (r : row)
    (df_playlists : list playlist_row) (liked_albums_uri liked_tracks_uri : list str) :
  prepare_spotify lower sp threshold s r df_playlists liked_albums_uri liked_tracks_uri
  = Ok s' ->
  exists tracks albums playlists,
    ledger_grows s s' tracks albums playlists
    /\ length (tracks ++ albums ++ playlists) <= 1
    /\ (over_threshold threshold r = true -> tracks = [])
    /\ (over_threshold threshold r = false -> albums = [] /\ playlists = [])
    /\ forall e, e ∈ tracks ++ albums ++ playlists ->
         le_log_id e = row_log_id r
         /\ get_user_playlist_id r df_playlists = Ok (le_user_playlist_id e)
         /\ le_status e ∈ [saved; skipped_during; skipped_before].
Proof.
  intros (d & Hd & [[-> _]|[(info & Hth & _ & ->)|[(info & Hth & _ & ->)|(info & Hth & _ & _ & ->)]]])%prepare_spotify_cases.
  - exists [], [], []. unfold ledger_grows. rewrite !app_nil_r.
    split; [done|]. split; [simpl; lia|]. split; [done|]. split; [done|].
    intros e0 He. by apply elem_of_nil in He.
  - destruct (save_track_ledger s info d (row_log_id r) liked_tracks_uri)
      as (e & Hg & [= H1 H2 H3] & Hst).
    exists [e], [], []. split; [done|]. split; [simpl; lia|].
    split; [congruence|]. split; [done|].
    intros e' ->%list_elem_of_singleton. rewrite H1, H3, Hst.
    repeat split; try done. apply collect_track_status.
  - destruct (save_album_ledger s info d (row_log_id r) liked_albums_uri)
      as (e & Hg & [= H1 H2 H3] & Hst).
    exists [], [e], []. split; [done|]. split; [simpl; lia|].
    split; [done|]. split; [congruence|].
    intros e' ->%list_elem_of_singleton. rewrite H1, H3, Hst.
    repeat split; try done. apply collect_album_status.
  - destruct (save_other_playlist_ledger s info d (row_log_id r))
      as (e & Hg & [= H1 H2 H3] & Hst).
    exists [], [], [e]. split; [done|]. split; [simpl; lia|].
    split; [done|]. split; [congruence|].
    intros e' ->%list_elem_of_singleton. rewrite H1, H3, Hst.
    repeat split; try done.
    pose proof (collect_other_playlist_status s info d) as Hs.
    apply elem_of_cons in Hs as [Hs|Hs]; [rewrite Hs; apply list_elem_of_here|].
    apply list_elem_of_singleton in Hs. rewrite Hs.
    apply list_elem_of_further, list_elem_of_here.
Qed.

End Run.

(** ** Nothing is liked twice, nothing that was liked before the run *)

Lemma likes_ok_keep (la lt : list str) (s s' : state) :
  tracks_to_like s' = tracks_to_like s ->
  albums_to_like s' = albums_to_like s ->
  (forall u, in_log u liked_sentinel (log_tracks s) = true ->
             in_log u liked_sentinel (log_tracks s') = true) ->
  (forall u, in_log u liked_sentinel (log_albums s) = true ->
             in_log u liked_sentinel (log_albums s') = true) ->
  likes_ok la lt s -> likes_ok la lt s'.
Proof.
  intros Ht Ha Hlt Hla (H1 & H2 & H3 & H4). unfold likes_ok. rewrite Ht, Ha.
  split; [done|]. split; [done|]. split.
  - intros u Hu. destruct (H3 u Hu). auto.
  - intros u Hu. destruct (H4 u Hu). auto.
Qed.

Lemma in_log_grows (u d : str) (log new : list log_entry) :
  in_log u d log = true -> in_log u d (log ++ new) = true.
Proof. intros H. by rewrite in_log_app, H. Qed.

Lemma save_track_likes_ok (la lt : list str) (s : state) (info : track_info)
    (d : str) (log_id : Z) :
  likes_ok la lt s -> likes_ok la lt (save_track s info d log_id lt).
Proof.
  intros Hok. unfold save_track.
  pose proof (collect_track_keeps s info d lt) as (Hlt & Hla & _ & _ & _ & _ & Hal).
  destruct (collect_track s info d lt) as [st s1] eqn:Hc. cbn [fst snd] in *.
  destruct (log_track_fields s1 info d log_id st)
    as (_ & _ & Ha1 & _ & Ht1 & _ & Hla1 & _).
  pose proof (log_tracks_log_track s1 info d log_id st) as Hlog.
  assert (Hkeep : tracks_to_like s1 = tracks_to_like s ->
                  likes_ok la lt (log_track s1 info d log_id st)).
  { intros Hsame. apply (likes_ok_keep la lt s); try congruence.
    intros u Hu. rewrite Hlog, Hlt. by apply in_log_grows. }
  destruct (collect_track_cases _ _ _ _ _ _ Hc)
    as [(_ & -> & _)|[(_ & -> & _)|[(_ & _ & Hst)|(_ & Hnew & -> & Hnl & Hs1)]]];
    try by apply Hkeep.
  - apply Hkeep. destruct Hst as (_ & _ & _ & _ & _ & ->). done.
  - destruct Hok as (H1 & H2 & H3 & H4). unfold likes_ok.
    rewrite Ht1, Ha1, Hla1, Hlog, Hal, Hla, Hlt. rewrite Hs1.
    cbn [tracks_to_like set_tracks_to_like].
    split; [|split; [done|split; [|done]]].
    + apply NoDup_app. split; [done|]. split; [|apply NoDup_singleton].
      intros x Hx ->%list_elem_of_singleton.
      destruct (H3 _ Hx) as [_ Hin]. congruence.
    + intros u [Hu| ->%list_elem_of_singleton]%elem_of_app.
      * destruct (H3 u Hu). split; [done|]. by apply in_log_grows.
      * split; [done|]. rewrite in_log_app, in_log_entry. apply orb_true_r.
Qed.

Lemma save_album_likes_ok (la lt : list str) (s : state) (info : album_info)
    (d : str) (log_id : Z) :
  likes_ok la lt s -> likes_ok la lt (save_album s info d log_id la).
Proof.
  intros Hok. unfold save_album.
  pose proof (collect_album_keeps s info d la) as (Hlt & Hla & _ & _ & _ & _ & Htl).
  destruct (collect_album s info d la) as [st s1] eqn:Hc. cbn [fst snd] in *.
  pose proof (log_albums_log_album s1 info d log_id st) as Hlog.
  assert (Hkeep : albums_to_like s1 = albums_to_like s ->
                  likes_ok la lt (log_album s1 info d log_id st)).
  { intros Hsame. apply (likes_ok_keep la lt s); try done.
    - simpl. by rewrite Hlt.
    - intros u Hu. rewrite Hlog, Hla. by apply in_log_grows. }
  destruct (collect_album_cases _ _ _ _ _ _ Hc)
    as [(_ & -> & _)|[(_ & -> & _)|[(_ & _ & Hst)|(_ & Hnew & -> & Hnl & Hs1)]]];
    try by apply Hkeep.
  - apply Hkeep. destruct Hst as (_ & _ & _ & _ & _ & ->). done.
  - destruct Hok as (H1 & H2 & H3 & H4). unfold likes_ok.
    rewrite Hlog. change (tracks_to_like (log_album s1 info liked_sentinel log_id st))
      with (tracks_to_like s1).
    change (albums_to_like (log_album s1 info liked_sentinel log_id st))
      with (albums_to_like s1).
    change (log_tracks (log_album s1 info liked_sentinel log_id st))
      with (log_tracks s1).
    rewrite Htl, Hla, Hlt. rewrite Hs1.
    cbn [albums_to_like set_albums_to_like].
    split; [done|]. split; [|split; [done|]].
    + apply NoDup_app. split; [done|]. split; [|apply NoDup_singleton].
      intros x Hx ->%list_elem_of_singleton.
      destruct (H4 _ Hx) as [_ Hin]. congruence.
    + intros u [Hu| ->%list_elem_of_singleton]%elem_of_app.
      * destruct (H4 u Hu). split; [done|]. by apply in_log_grows.
      * split; [done|]. rewrite in_log_app, in_log_entry. apply orb_true_r.
Qed.

Lemma save_other_playlist_likes_ok (la lt : list str) (s : state)
    (info : playlist_info) (d : str) (log_id : Z) :
  likes_ok la lt s -> likes_ok la lt (save_other_playlist s info d log_id).
Proof.
  intros Hok. unfold save_other_playlist.
  pose proof (collect_other_playlist_keeps s info d)
    as (Hlt & Hla & _ & _ & _ & _ & Htl & Hal).
  destruct (collect_other_playlist s info d) as [st s1]. cbn [fst snd] in *.
  apply (likes_ok_keep la lt s); try done; simpl; by rewrite ?Hlt, ?Hla.
Qed.

(** ** The ledgers point into the registries *)

Lemma save_track_ledger_in_registry (s : state) (info : track_info) (d : str)
    (log_id : Z) (liked : list str) :
  ledger_in_registry s -> ledger_in_registry (save_track s info d log_id liked).
Proof.
  intros (H1 & H2 & H3). unfold save_track.
  pose proof (collect_track_keeps s info d liked) as (Hlt & Hla & Hlp & Hdt & Hda & Hdp & _).
  destruct (collect_track s info d liked) as [st s1]. cbn [fst snd] in *.
  destruct (log_track_fields s1 info d log_id st)
    as (Ha1 & Hp1 & _ & _ & _ & _ & Hla1 & Hlp1).
  unfold ledger_in_registry. rewrite Ha1, Hp1, Hla1, Hlp1, Hla, Hlp, Hda, Hdp.
  split; [|done]. rewrite log_tracks_log_track, Hlt.
  intros e [He| ->%list_elem_of_singleton]%elem_of_app;
    apply distinct_tracks_log_track_keys.
  - left. rewrite Hdt. by apply H1.
  - by right.
Qed.

Lemma save_album_ledger_in_registry (s : state) (info : album_info) (d : str)
    (log_id : Z) (liked : list str) :
  ledger_in_registry s -> ledger_in_registry (save_album s info d log_id liked).
Proof.
  intros (H1 & H2 & H3). unfold save_album.
  pose proof (collect_album_keeps s info d liked) as (Hlt & Hla & Hlp & Hdt & Hda & Hdp & _).
  destruct (collect_album s info d liked) as [st s1]. cbn [fst snd] in *.
  unfold ledger_in_registry. simpl. rewrite Hlt, Hla, Hlp, Hdt, Hda, Hdp.
  split; [|split; [|done]].
  - intros e He. apply log_album_tracks_keys. left. by apply H1.
  - intros e [He| ->%list_elem_of_singleton]%elem_of_app.
    + destruct (decide (ai_album_uri info = le_uri e)) as [->|Hne].
      * rewrite lookup_insert_eq. by eexists.
      * rewrite lookup_insert_ne by done. by apply H2.
    + simpl. rewrite lookup_insert_eq. by eexists.
Qed.

Lemma save_other_playlist_ledger_in_registry (s : state) (info : playlist_info)
    (d : str) (log_id : Z) :
  ledger_in_registry s -> ledger_in_registry (save_other_playlist s info d log_id).
Proof.
  intros (H1 & H2 & H3). unfold save_other_playlist.
  pose proof (collect_other_playlist_keeps s info d)
    as (Hlt & Hla & Hlp & Hdt & Hda & Hdp & _).
  destruct (collect_other_playlist s info d) as [st s1]. cbn [fst snd] in *.
  unfold ledger_in_registry. simpl. rewrite Hlt, Hla, Hlp, Hdt, Hda, Hdp.
  split; [|split; [done|]].
  - intros e He. apply log_other_playlist_tracks_keys. by apply H1.
  - intros e [He| ->%list_elem_of_singleton]%elem_of_app.
    + destruct (decide (pi_playlist_uri info = le_uri e)) as [->|Hne].
      * rewrite lookup_insert_eq. by eexists.
      * rewrite lookup_insert_ne by done. by apply H3.
    + simpl. rewrite lookup_insert_eq. by eexists.
Qed.

(** ** The staging map holds playlists of the table only *)

Lemma staged_for_playlist_known (df : list playlist_row) (s s' : state) (d : str)
    (uris : list str) :
  (exists p, p ∈ df /\ pr_spotify_playlist_id p = d) ->
  staged_for_playlist s s' d uris ->
  staging_known df s -> staging_known df s'.
Proof.
  intros Hd (Hne & _ & _ & _ & Hother & _) Hk k l Hl.
  destruct (decide (k = d)) as [->|Hkd]; [done|].
  rewrite Hother in Hl by done. by eapply Hk.
Qed.

Lemma save_keeps_staging (s s1 : state) (df : list playlist_row) :
  playlist_items s1 = playlist_items s -> staging_known df s -> staging_known df s1.
Proof. intros H Hk k l. rewrite H. apply Hk. Qed.

Lemma save_track_staging_known (df : list playlist_row) (s : state)
    (info : track_info) (d : str) (log_id : Z) (liked : list str) :
  (exists p, p ∈ df /\ pr_spotify_playlist_id p = d) ->
  staging_known df s -> staging_known df (save_track s info d log_id liked).
Proof.
  intros Hd Hk. unfold save_track.
  destruct (collect_track s info d liked) as [st s1] eqn:Hc.
  destruct (log_track_fields s1 info d log_id st) as (_ & _ & _ & _ & _ & Hpi & _).
  apply (save_keeps_staging s1); [done|].
  destruct (collect_track_cases _ _ _ _ _ _ Hc)
    as [(_ & -> & _)|[(_ & -> & _)|[(_ & _ & Hst)|(_ & _ & _ & _ & ->)]]]; try done.
  by eapply staged_for_playlist_known.
Qed.

Lemma save_album_staging_known (df : list playlist_row) (s : state)
    (info : album_info) (d : str) (log_id : Z) (liked : list str) :
  (exists p, p ∈ df /\ pr_spotify_playlist_id p = d) ->
  staging_known df s -> staging_known df (save_album s info d log_id liked).
Proof.
  intros Hd Hk. unfold save_album.
  destruct (collect_album s info d liked) as [st s1] eqn:Hc.
  apply (save_keeps_staging s1); [done|].
  destruct (collect_album_cases _ _ _ _ _ _ Hc)
    as [(_ & -> & _)|[(_ & -> & _)|[(_ & _ & Hst)|(_ & _ & _ & _ & ->)]]]; try done.
  by eapply staged_for_playlist_known.
Qed.

Lemma save_other_playlist_staging_known (df : list playlist_row) (s : state)
    (info : playlist_info) (d : str) (log_id : Z) :
  (exists p, p ∈ df /\ pr_spotify_playlist_id p = d) ->
  staging_known df s -> staging_known df (save_other_playlist s info d log_id).
Proof.
  intros Hd Hk. unfold save_other_playlist.
  destruct (collect_other_playlist s info d) as [st s1] eqn:Hc.
  apply (save_keeps_staging s1); [done|].
  destruct (collect_other_playlist_cases _ _ _ _ _ Hc)
    as [(_ & -> & _)|[(_ & _ & Hst)|(_ & _ & _ & ->)]]; try done.
  by eapply staged_for_playlist_known.
Qed.

(** ** The run as a whole *)

Section WholeRun.
Variable lower : str -> str.
Variable sp : spotify.
Variable threshold : option Z.
Variable df_playlists : list playlist_row.
Variable liked_albums_uri : list str.
Variable liked_tracks_uri : list str.

Lemma apply_prepare_spotify_invariant (P : state -> Prop) :
  (forall s r s', P s ->
     prepare_spotify lower sp threshold s r df_playlists
       liked_albums_uri liked_tracks_uri = Ok s' -> P s') ->
  forall df_videos s s', P s ->
    apply_prepare_spotify lower sp threshold s df_videos df_playlists
      liked_albums_uri liked_tracks_uri = Ok s' -> P s'.
Proof.
  intros Hstep. induction df_videos as [|r rows IH]; intros s s' Hs; simpl.
  - by intros [= <-].
  - unfold mbind, result_bind.
    destruct (prepare_spotify lower sp threshold s r df_playlists
                liked_albums_uri liked_tracks_uri) as [s1|e] eqn:H1; [|done].
    apply IH. by eapply Hstep.
Qed.

Lemma prepare_spotify_likes_ok (s s' : state) (r : row) :
  likes_ok liked_albums_uri liked_tracks_uri s ->
  prepare_spotify lower sp threshold s r df_playlists liked_albums_uri liked_tracks_uri
  = Ok s' ->
  likes_ok liked_albums_uri liked_tracks_uri s'.
Proof.
  intros Hok (d & _ & [[-> _]|[(info & _ & _ & ->)|[(info & _ & _ & ->)|(info & _ & _ & _ & ->)]]])%prepare_spotify_cases.
  - done.
  - by apply save_track_likes_ok.
  - by apply save_album_likes_ok.
  - by apply save_other_playlist_likes_ok.
Qed.

Lemma prepare_spotify_ledger_in_registry (s s' : state) (r : row) :
  ledger_in_registry s ->
  prepare_spotify lower sp threshold s r df_playlists liked_albums_uri liked_tracks_uri
  = Ok s' ->
  ledger_in_registry s'.
Proof.
  intros Hok (d & _ & [[-> _]|[(info & _ & _ & ->)|[(info & _ & _ & ->)|(info & _ & _ & _ & ->)]]])%prepare_spotify_cases.
  - done.
  - by apply save_track_ledger_in_registry.
  - by apply save_album_ledger_in_registry.
  - by apply save_other_playlist_ledger_in_registry.
Qed.

Lemma prepare_spotify_staging_known (s s' : state) (r : row) :
  staging_known df_playlists s ->
  prepare_spotify lower sp threshold s r df_playlists liked_albums_uri liked_tracks_uri
  = Ok s' ->
  staging_known df_playlists s'.
Proof.
  intros Hok (d & Hd & H)%prepare_spotify_cases.
  apply get_user_playlist_id_Ok in Hd as (p & Hp & _ & Hid).
  assert (Hknown : exists p, p ∈ df_playlists /\ pr_spotify_playlist_id p = d)
    by by exists p.
  destruct H as [[-> _]|[(info & _ & _ & ->)|[(info & _ & _ & ->)|(info & _ & _ & _ & ->)]]].
  - done.
  - by apply save_track_staging_known.
  - by apply save_album_staging_known.
  - by apply save_other_playlist_staging_known.
Qed.

(** X11. After a run nothing is staged for liking twice and nothing that the
    snapshot of liked tracks, or of liked albums, holds; and whatever is
    staged for liking is in the ledger for the destination "0". *)
Theorem run_likes_ok (df_videos : list row) (s : state) :
  apply_prepare_spotify lower sp threshold init df_videos df_playlists
    liked_albums_uri liked_tracks_uri = Ok s ->
  likes_ok liked_albums_uri liked_tracks_uri s.
Proof.
  apply (apply_prepare_spotify_invariant
           (likes_ok liked_albums_uri liked_tracks_uri)).
  - intros s0 r s' H0 H. by eapply prepare_spotify_likes_ok.
  - unfold likes_ok. simpl. split; [apply NoDup_nil_2|].
    split; [apply NoDup_nil_2|]. split; intros u0 Hu; by apply elem_of_nil in Hu.
Qed.

(** X12. After a run every entry of the three ledgers has its entity in the
    registry of its kind. *)
Theorem run_ledger_in_registry (df_videos : list row) (s : state) :
  apply_prepare_spotify lower sp threshold init df_videos df_playlists
    liked_albums_uri liked_tracks_uri = Ok s ->
  ledger_in_registry s.
Proof.
  apply (apply_prepare_spotify_invariant ledger_in_registry).
  - intros s0 r s' H0 H. by eapply prepare_spotify_ledger_in_registry.
  - unfold ledger_in_registry. simpl.
    split; [|split]; intros e0 He; by apply elem_of_nil in He.
Qed.

Lemma run_ledger_from (df_videos : list row) (s s' : state) :
  apply_prepare_spotify lower sp threshold s df_videos df_playlists
    liked_albums_uri liked_tracks_uri = Ok s' ->
  exists tracks albums playlists,
    ledger_grows s s' tracks albums playlists
    /\ length tracks + length albums + length playlists <= length df_videos
    /\ forall e, e ∈ tracks ++ albums ++ playlists ->
         exists r, r ∈ df_videos /\ le_log_id e = row_log_id r
           /\ get_user_playlist_id r df_playlists = Ok (le_user_playlist_id e).
Proof.
  revert s. induction df_videos as [|r rows IH]; intros s; simpl.
  - intros [= <-]. exists [], [], []. unfold ledger_grows. rewrite !app_nil_r.
    split; [done|]. split; [simpl; lia|]. intros e He. by apply elem_of_nil in He.
  - unfold mbind, result_bind.
    destruct (prepare_spotify lower sp threshold s r df_playlists
                liked_albums_uri liked_tracks_uri) as [s1|e] eqn:H1; [|done].
    intros (t2 & a2 & p2 & (Ht2 & Ha2 & Hp2) & Hlen2 & He2)%IH.
    destruct (prepare_spotify_appends lower sp threshold _ _ _ _ _ _ H1)
      as (t1 & a1 & p1 & (Ht1 & Ha1 & Hp1) & Hlen1 & He1).
    exists (t1 ++ t2), (a1 ++ a2), (p1 ++ p2). unfold ledger_grows.
    rewrite Ht2, Ha2, Hp2, Ht1, Ha1, Hp1, <- !app_assoc.
    split; [done|]. rewrite !length_app in *. split; [lia|].
    intros e He.
    assert (Hcases : e ∈ t1 ++ a1 ++ p1 \/ e ∈ t2 ++ a2 ++ p2).
    { rewrite !elem_of_app in *. tauto. }
    destruct Hcases as [H|H].
    + destruct (He1 e H) as (Hid & Hd & _). exists r. split; [left|done].
    + destruct (He2 e H) as (r' & Hr' & H'). exists r'. split; [by right|done].
Qed.

(** X13. A run appends to the ledgers at most one entry for each video, none
    for a video it was not given, each with the destination that
    [df_playlists] gives for its video. *)
Theorem run_ledger (df_videos : list row) (s : state) :
  apply_prepare_spotify lower sp threshold init df_videos df_playlists
    liked_albums_uri liked_tracks_uri = Ok s ->
  length (log_tracks s) + length (log_albums s) + length (log_playlists_others s)
  <= length df_videos
  /\ forall e, e ∈ log_tracks s ++ log_albums s ++ log_playlists_others s ->
       exists r, r ∈ df_videos /\ le_log_id e = row_log_id r
         /\ get_user_playlist_id r df_playlists = Ok (le_user_playlist_id e).
Proof.
  intros (t & a & p & (Ht & Ha & Hp) & Hlen & He)%run_ledger_from.
  simpl in Ht, Ha, Hp. by rewrite Ht, Ha, Hp.
Qed.

(** ** The flush of the staging map *)

Lemma populate_user_playlists_known
    (split_to_50size_chunks : list str -> list (list str))
    (items : list (str * list str)) :
  (forall d l, (d, l) ∈ items ->
     exists p, p ∈ df_playlists /\ pr_spotify_playlist_id p = d) ->
  populate_user_playlists split_to_50size_chunks items df_playlists
  = (concat (map (fun '(d, l) => map (playlist_add_items d) (split_to_50size_chunks l))
                 items),
     None).
Proof.
  induction items as [|[d l] items IH]; intros Hknown; simpl; [done|].
  destruct (filter (fun p => pr_spotify_playlist_id p = d) df_playlists)
    as [|p0 rest] eqn:Hf.
  - destruct (Hknown d l) as (p & Hp & Hid); [left|].
    assert (Hin : p ∈ filter (fun p => pr_spotify_playlist_id p = d) df_playlists)
      by by apply list_elem_of_filter.
    rewrite Hf in Hin. by apply elem_of_nil in Hin.
  - rewrite IH; [done|]. intros d' l' H'. apply (Hknown d' l'). by right.
Qed.

(** X14. After a run [populate_user_playlists] does not raise: every playlist
    of the staging map has its row in [df_playlists], so its name is found;
    the sentinel "0" is no key of the map, and the calls made are those for
    the chunks of each staged list, playlist by playlist. *)
Theorem run_populate_user_playlists (df_videos : list row) (s : state)
    (split_to_50size_chunks : list str -> list (list str))
    (items : list (str * list str)) :
  apply_prepare_spotify lower sp threshold init df_videos df_playlists
    liked_albums_uri liked_tracks_uri = Ok s ->
  items ≡ₚ map_to_list (playlist_items s) ->
  populate_user_playlists split_to_50size_chunks items df_playlists
  = (concat (map (fun '(d, l) => map (playlist_add_items d) (split_to_50size_chunks l))
                 items),
     None)
  /\ playlist_items s !! liked_sentinel = None
  /\ forall d l, (d, l) ∈ items -> d <> liked_sentinel /\ NoDup l.
Proof.
  intros Hrun Hitems.
  assert (Hknown : staging_known df_playlists s).
  { revert Hrun. apply (apply_prepare_spotify_invariant (staging_known df_playlists)).
    - intros s0 r s' H0 H. by eapply prepare_spotify_staging_known.
    - intros d l H. simpl in H. by rewrite lookup_empty in H. }
  assert (Hnodup : staging_nodup s).
  { revert Hrun. apply (apply_prepare_spotify_invariant staging_nodup).
    - intros s0 r s' H0 (d & _ & [[-> _]|[(info & _ & _ & ->)|[(info & _ & _ & ->)|(info & _ & _ & _ & ->)]]])%prepare_spotify_cases.
      + done.
      + unfold save_track.
        pose proof (collect_track_staging s0 info d liked_tracks_uri H0) as H1.
        destruct (collect_track s0 info d liked_tracks_uri) as [st s1].
        apply (exec_staging s1 (LogTrack info d (row_log_id r) st) H1).
      + unfold save_album.
        pose proof (collect_album_staging s0 info d liked_albums_uri H0) as H1.
        destruct (collect_album s0 info d liked_albums_uri) as [st s1].
        apply (exec_staging s1 (LogAlbum info d (row_log_id r) st) H1).
      + unfold save_other_playlist.
        pose proof (collect_other_playlist_staging s0 info d H0) as H1.
        destruct (collect_other_playlist s0 info d) as [st s1].
        apply (exec_staging s1 (LogOtherPlaylist info d (row_log_id r) st) H1).
    - intros d l H. simpl in H. by rewrite lookup_empty in H. }
  assert (Hitem : forall d l, (d, l) ∈ items -> playlist_items s !! d = Some l).
  { intros d l H. rewrite Hitems in H. by apply elem_of_map_to_list in H. }
  split; [|split].
  - apply populate_user_playlists_known. intros d l H%Hitem.
    by destruct (Hknown d l H).
  - destruct (playlist_items s !! liked_sentinel) as [l|] eqn:H; [|done].
    by destruct (Hknown _ _ H).
  - intros d l H%Hitem. split; [by destruct (Hknown d l H)|]. by eapply Hnodup.
Qed.

Lemma like_calls_uris (f : list str -> api_call) (chunks : list (list str)) :
  (forall uris, uris_of_call (f uris) = uris) ->
  concat (map uris_of_call (map f chunks)) = concat chunks.
Proof.
  intros Hf. rewrite map_map. f_equal.
  rewrite <- (map_id chunks) at 2. apply map_ext. exact Hf.
Qed.

(** X15. After a run the calls of [like_tracks] and of [like_albums] carry,
    chunk after chunk, the URIs staged for liking: no URI twice and none
    that the snapshot taken before the run holds, as long as
    [split_to_50size_chunks] cuts a list into consecutive pieces. *)
Theorem run_like_calls (df_videos : list row) (s : state)
    (split_to_50size_chunks : list str -> list (list str)) :
  apply_prepare_spotify lower sp threshold init df_videos df_playlists
    liked_albums_uri liked_tracks_uri = Ok s ->
  (forall l, concat (split_to_50size_chunks l) = l) ->
  let tracks :=
    concat (map uris_of_call (like_tracks split_to_50size_chunks (tracks_to_like s))) in
  let albums :=
    concat (map uris_of_call (like_albums split_to_50size_chunks (albums_to_like s))) in
  tracks = tracks_to_like s /\ NoDup tracks
  /\ (forall u, u ∈ tracks -> u ∉ liked_tracks_uri)
  /\ albums = albums_to_like s /\ NoDup albums
  /\ (forall u, u ∈ albums -> u ∉ liked_albums_uri).
Proof.
  intros Hrun Hsplit tracks albums.
  assert (Hlikes : likes_ok liked_albums_uri liked_tracks_uri s).
  { revert Hrun.
    apply (apply_prepare_spotify_invariant
             (likes_ok liked_albums_uri liked_tracks_uri)).
    - intros s0 r s' H0 H. by eapply prepare_spotify_likes_ok.
    - unfold likes_ok. simpl. split; [apply NoDup_nil_2|].
      split; [apply NoDup_nil_2|]. split; intros u0 Hu; by apply elem_of_nil in Hu. }
  destruct Hlikes as (Hnt & Hna & Ht & Ha).
  assert (Htracks : tracks = tracks_to_like s).
  { subst tracks. unfold like_tracks.
    destruct (tracks_to_like s) as [|u l] eqn:Hl; [done|].
    rewrite like_calls_uris by done. apply Hsplit. }
  assert (Halbums : albums = albums_to_like s).
  { subst albums. unfold like_albums.
    destruct (albums_to_like s) as [|u l] eqn:Hl; [done|].
    rewrite like_calls_uris by done. apply Hsplit. }
  rewrite Htracks, Halbums.
  split; [done|]. split; [done|]. split; [intros u Hu; by apply Ht|].
  split; [done|]. split; [done|]. intros u Hu. by apply Ha.
Qed.

End WholeRun.

(* ===================================================================== *)
(** * Properties of the playlists created before the run *)
(* ===================================================================== *)

Section CreatedPlaylists.
Variable api : Type.
Variable user_playlist_create : api -> str -> str -> api * str.

Lemma create_user_playlists_rows (a : api) (user_id : str) (df : list (str * str)) :
  map (fun p => (pr_youtube_playlist_id p, pr_playlist_name p))
      (snd (create_user_playlists api user_playlist_create a user_id df))
  = df.
Proof.
  revert a. induction df as [|[y name] df IH]; intros a; simpl; [done|].
  destruct (create_user_playlists_from_df _ _ a user_id y name) as [a1 sid].
  specialize (IH a1).
  destruct (create_user_playlists api user_playlist_create a1 user_id df) as [a2 rows].
  simpl in *. by rewrite IH.
Qed.

Lemma create_user_playlists_sentinel_rows (a : api) (user_id : str)
    (df : list (str * str)) (p : playlist_row) :
  p ∈ snd (create_user_playlists api user_playlist_create a user_id df) ->
  pr_youtube_playlist_id p = lit "0" ->
  pr_spotify_playlist_id p = liked_sentinel.
Proof.
  revert a. induction df as [|[y name] df IH]; intros a; simpl.
  - intros H. by apply elem_of_nil in H.
  - unfold create_user_playlists_from_df.
    destruct (bool_decide (y ≠ lit "0")) eqn:Hy.
    + apply bool_decide_eq_true in Hy.
      destruct (user_playlist_create a user_id name) as [a1 sid].
      specialize (IH a1).
      destruct (create_user_playlists api user_playlist_create a1 user_id df)
        as [a2 rows].
      simpl in *. intros [->|H]%elem_of_cons; [done|]. by apply IH.
    + specialize (IH a).
      destruct (create_user_playlists api user_playlist_create a user_id df)
        as [a2 rows].
      simpl in *. intros [->|H]%elem_of_cons; [done|]. by apply IH.
Qed.

(** X16. No playlist is created for the row of the sentinel "0": the catalog is
    left as creating the other rows leaves it, and the row keeps "0" as its
    Spotify id.  So a video whose playlist is "0" gets the destination "0"
    whenever the table has a row for "0", and a video whose playlist is in
    no row of the table makes [get_user_playlist_id] raise. *)
Theorem create_user_playlists_sentinel (a : api) (user_id : str)
    (df : list (str * str)) :
  let created := create_user_playlists api user_playlist_create a user_id df in
  fst created
  = fst (create_user_playlists api user_playlist_create a user_id
           (filter (fun row => fst row ≠ lit "0") df))
  /\ (forall r,
        row_youtube_playlist_id r = lit "0" ->
        lit "0" ∈ map fst df ->
        get_user_playlist_id r (snd created) = Ok liked_sentinel)
  /\ (forall r,
        row_youtube_playlist_id r ∉ map fst df ->
        get_user_playlist_id r (snd created) = Raise IndexError).
Proof.
  cbv zeta. split; [|split].
  - revert a. induction df as [|[y name] df IH]; intros a; [done|].
    destruct (decide (y ≠ lit "0")) as [Hy|Hy].
    + rewrite filter_cons_True by done. simpl.
      destruct (create_user_playlists_from_df _ _ a user_id y name) as [a1 sid].
      specialize (IH a1).
      destruct (create_user_playlists api user_playlist_create a1 user_id df)
        as [a2 rows].
      destruct (create_user_playlists api user_playlist_create a1 user_id (filter _ df))
        as [a3 rows3].
      done.
    + rewrite filter_cons_False by done. simpl.
      unfold create_user_playlists_from_df.
      rewrite bool_decide_eq_false_2 by done.
      specialize (IH a).
      destruct (create_user_playlists api user_playlist_create a user_id df)
        as [a2 rows].
      done.
  - intros r Hr Hin.
    pose proof (create_user_playlists_rows a user_id df) as Hrows.
    set (rows := snd (create_user_playlists api user_playlist_create a user_id df)) in *.
    unfold get_user_playlist_id.
    destruct (filter _ rows) as [|p l] eqn:Hf.
    + exfalso. rewrite <- Hrows, <- list_fmap_compose in Hin.
      apply list_elem_of_fmap in Hin as (p & Hp & Hin). simpl in Hp.
      assert (H : p ∈ filter (fun p => pr_youtube_playlist_id p = row_youtube_playlist_id r)
                      rows).
      { apply list_elem_of_filter. split; [congruence|done]. }
      rewrite Hf in H. by apply elem_of_nil in H.
    + assert (H : p ∈ filter (fun p => pr_youtube_playlist_id p = row_youtube_playlist_id r)
                      rows) by (rewrite Hf; left).
      apply list_elem_of_filter in H as [H1 H2]. f_equal.
      apply (create_user_playlists_sentinel_rows a user_id df p H2). congruence.
  - intros r Hr. apply get_user_playlist_id_unknown.
    intros p Hp Heq. apply Hr.
    rewrite <- (create_user_playlists_rows a user_id df), <- list_fmap_compose.
    apply list_elem_of_fmap. exists p. by split.
Qed.

End CreatedPlaylists.

(* ===================================================================== *)
(** * Properties of the log table *)
(* ===================================================================== *)

Lemma log_frames_columns (la lp lt : list log_entry) :
  all_columns
    [DataFrame la log_cols;
     DataFrame lp (<[1 := lit "playlist_uri"]> log_cols);
     DataFrame lt (<[1 := lit "track_uri"]> (<[1 := lit "playlist_uri"]> log_cols))]
  = log_cols ++ [lit "playlist_uri"; lit "track_uri"].
Proof. vm_compute. reflexivity. Qed.

Lemma log_table_columns :
  list_pop 4
    (list_insert_at 1 (lit "album_uri")
       (list_insert_at 1 (lit "playlist_uri")
          (<[1 := lit "track_uri"]> (<[1 := lit "playlist_uri"]> log_cols))))
  = log_schema.
Proof. vm_compute. reflexivity. Qed.

(** X17. The log table has the columns of the schema that [main] gives for it,
    in that order, and one row for each entry of the three ledgers: albums
    first, then playlists, then tracks.  The URI of the entity is in the
    column of its kind, the two other URI columns are empty, and the
    destination of the entry is not in the table. *)
Theorem create_df_spotify_log_rows (la lp lt : list log_entry) :
  create_df_spotify_log la lp lt
  = Some {| f_columns := log_schema;
            f_rows := map (log_table_row 0) la ++ map (log_table_row 1) lp
                      ++ map (log_table_row 2) lt |}.
Proof.
  unfold create_df_spotify_log. cbv zeta. rewrite log_table_columns.
  unfold select, pd_concat. cbn [f_columns f_rows]. rewrite log_frames_columns.
  rewrite bool_decide_eq_true_2.
  2:{ apply Forall_forall. intros c Hc.
      repeat (apply elem_of_cons in Hc as [->|Hc];
              [repeat (first [apply list_elem_of_here | apply list_elem_of_further])|]).
      by apply elem_of_nil in Hc. }
  f_equal. f_equal. unfold laid_out at 1. cbn [f_columns f_rows concat map].
  rewrite app_nil_r, !map_app. unfold laid_out, DataFrame. cbn [f_columns f_rows].
  rewrite !map_map.
  assert (Hrow : forall (kind : nat) (f g : log_entry -> list cell) (l : list log_entry),
            (forall e, f e = g e) -> map f l = map g l)
    by (intros kind f g l H; by apply map_ext).
  rewrite (Hrow 0 _ (log_table_row 0) la) by (intros e; reflexivity).
  rewrite (Hrow 1 _ (log_table_row 1) lp) by (intros e; reflexivity).
  rewrite (Hrow 2 _ (log_table_row 2) lt) by (intros e; reflexivity).
  reflexivity.
Qed.

(* ===================================================================== *)
(** * The earlier resolver *)
(* ===================================================================== *)

Section EarlierResolver.

Variable lower : str -> str.
Variable sp : spotify.
Variable THRESHOLD_MS : option Z.

Lemma like_or_skip_cases st uri playlist_id to_playlist to_library verdict cs :
  Earlier.like_or_skip st uri playlist_id to_playlist to_library = (verdict, cs) ->
  (verdict = lit "saved" /\
   Earlier.logged uri playlist_id (Earlier.spotify_log st) = false /\
   exists c, cs = [c]) \/
  (verdict = lit "skipped" /\
   Earlier.logged uri playlist_id (Earlier.spotify_log st) = true /\ cs = []).
Proof.
  unfold Earlier.like_or_skip.
  destruct (Earlier.logged uri playlist_id (Earlier.spotify_log st)); cbn [negb].
  - intros [= <- <-]. right. done.
  - intros [= <- <-]. left. split; [done|]. split; [done|].
    destruct (Earlier.has_playlist playlist_id); eauto.
Qed.

Lemma earlier_score_track_cases st v playlist_id query ty track st' b :
  Earlier.score_track lower st v playlist_id query ty 0 track = (st', b) ->
  (b = false /\ st' = st) \/
  (b = true /\ exists e,
     Earlier.one_entry v playlist_id st st' e /\
     Earlier.q e = query /\ Earlier.search_type_id e = ty /\
     Earlier.spotify_uri e = st_uri track).
Proof.
  unfold Earlier.score_track.
  destruct (Earlier.artists_loop lower v (st_artists track)) as [artists n].
  case_match; [|intros [= <- <-]; by left].
  destruct (Earlier.like_or_skip _ _ _ _ _) as [verdict cs] eqn:Hlike.
  intros [= <- <-]. right. split; [done|].
  apply like_or_skip_cases in Hlike.
  eexists. split.
  { unfold Earlier.one_entry. cbn.
    do 4 (split; [reflexivity|]). split; [by vm_compute|].
    destruct Hlike as [(-> & Hl & c & ->) | (-> & Hl & ->)].
    - left. eauto.
    - right. rewrite app_nil_r. done. }
  split; [reflexivity|split; reflexivity].
Qed.

Lemma earlier_search_track_cases st v playlist_id query ty limit st' r :
  Earlier.search_track lower sp st v playlist_id query ty limit = (st', r) ->
  (Earlier.not_found r = true /\ st' = st) \/
  (r = Some true /\ exists track e,
     head (Earlier.sp_search_track sp query limit) = Some track /\
     Earlier.one_entry v playlist_id st st' e /\
     Earlier.q e = query /\ Earlier.search_type_id e = ty /\
     Earlier.spotify_uri e = st_uri track).
Proof.
  unfold Earlier.search_track.
  destruct (Earlier.sp_search_track sp query limit) as [|track rest].
  - intros [= <- <-]. by left.
  - destruct (Earlier.score_track _ _ _ _ _ _ _ _) as [st1 b] eqn:Hscore.
    intros [= <- <-].
    apply earlier_score_track_cases in Hscore as [[-> ->]| [-> (e & He)]].
    + by left.
    + right. split; [done|]. exists track, e. done.
Qed.

Lemma save_track_one_entry st v playlist_id :
  Earlier.save_track lower sp st v playlist_id = st \/
  exists e,
    Earlier.one_entry v playlist_id st
      (Earlier.save_track lower sp st v playlist_id) e.
Proof.
  unfold Earlier.save_track.
  destruct (if contains (lit " - Topic") (Earlier.channel_name v) then _ else _)
    as [st1 r1] eqn:H1.
  assert (H1' : (Earlier.not_found r1 = true /\ st1 = st) \/
                (r1 = Some true /\ exists e, Earlier.one_entry v playlist_id st st1 e)).
  { destruct (contains _ _);
      apply earlier_search_track_cases in H1
        as [? | [-> (track & e & _ & He & _)]]; eauto. }
  clear H1. destruct H1' as [[Hnf ->] | [-> [e He]]];
    [rewrite Hnf | cbn [Earlier.not_found]; eauto].
  destruct (Earlier.search_track _ _ _ _ _ _ _ _) as [st2 r2] eqn:H2.
  apply earlier_search_track_cases in H2
    as [[Hnf2 ->] | [-> (track & e & _ & He & _)]];
    [rewrite Hnf2 | cbn [Earlier.not_found]; eauto].
  destruct (Earlier.search_track _ _ _ _ _ _ _ _) as [st3 r3] eqn:H3.
  apply earlier_search_track_cases in H3
    as [[_ ->] | [-> (track & e & _ & He & _)]]; eauto.
Qed.


(** X18. [save_track] of the earlier resolver leaves the state as it was or
    appends one entry to the log.  The entry records the strategy that
    found the track: type 0 (title and artist after the field names) for a
    topic channel and type 1 (the raw title) for any other channel, then
    type 2 (the title in quotes after "track"), then type 3 (the channel
    name before the title).  Its URI is that of the first candidate the
    catalog returns for the query recorded, of the two asked for. *)
Theorem save_track_strategy st v playlist_id :
  let topic := contains (lit " - Topic") (Earlier.channel_name v) in
  let artist := re_sub_literal (lit " - Topic") [] (Earlier.channel_name v) in
  let first :=
    if topic
    then (lit "0",
          lit "track:" ++ Earlier.title v ++ lit " artist:" ++
            re_sub_literal (lit "'") (lit " ") artist)
    else (lit "1", Earlier.title v) in
  let st' := Earlier.save_track lower sp st v playlist_id in
  st' = st \/
  exists track e,
    Earlier.one_entry v playlist_id st st' e /\
    (Earlier.search_type_id e, Earlier.q e) ∈
      [first;
       (lit "2", lit "track " ++ [dquote] ++ Earlier.title v ++ [dquote]);
       (lit "3", artist ++ lit " " ++ Earlier.title v)] /\
    head (Earlier.sp_search_track sp (Earlier.q e) 2) = Some track /\
    Earlier.spotify_uri e = st_uri track.
Proof.
  intros topic artist first st'. subst st'. unfold Earlier.save_track.
  change (contains (lit " - Topic") (Earlier.channel_name v)) with topic.
  change (re_sub_literal (lit " - Topic") [] (Earlier.channel_name v)) with artist.
  assert (Hfirst : exists st1 r1,
    (if topic
     then Earlier.search_track lower sp st v playlist_id
            (lit "track:" ++ Earlier.title v ++ lit " artist:" ++
               re_sub_literal (lit "'") (lit " ") artist) (lit "0") 2
     else Earlier.search_track lower sp st v playlist_id (Earlier.title v) (lit "1") 2)
    = (st1, r1) /\
    ((Earlier.not_found r1 = true /\ st1 = st) \/
     (r1 = Some true /\ exists track e,
        Earlier.one_entry v playlist_id st st1 e /\
        (Earlier.search_type_id e, Earlier.q e) = first /\
        head (Earlier.sp_search_track sp (Earlier.q e) 2) = Some track /\
        Earlier.spotify_uri e = st_uri track))).
  { subst first. destruct topic.
    - destruct (Earlier.search_track _ _ _ _ _ _ _ _) as [st1 r1] eqn:H1.
      exists st1, r1. split; [done|].
      apply earlier_search_track_cases in H1
        as [?| [-> (track & e & Hh & He & Hq & Hty & Hu)]]; [by left|].
      right. split; [done|]. exists track, e. rewrite Hq, Hty. done.
    - destruct (Earlier.search_track _ _ _ _ _ _ _ _) as [st1 r1] eqn:H1.
      exists st1, r1. split; [done|].
      apply earlier_search_track_cases in H1
        as [?| [-> (track & e & Hh & He & Hq & Hty & Hu)]]; [by left|].
      right. split; [done|]. exists track, e. rewrite Hq, Hty. done. }
  destruct Hfirst as (st1 & r1 & -> & Hfirst).
  destruct Hfirst as [[Hnf ->]| [-> (track & e & He & Hin & Hh & Hu)]].
  2:{ cbn [Earlier.not_found]. right. exists track, e.
      split; [done|]. split; [|done]. rewrite Hin, !elem_of_cons. auto. }
  rewrite Hnf.
  destruct (Earlier.search_track _ _ _ _ _ _ _ _) as [st2 r2] eqn:H2.
  apply earlier_search_track_cases in H2
    as [[Hnf2 ->]| [-> (track & e & Hh & He & Hq & Hty & Hu)]].
  2:{ cbn [Earlier.not_found]. right. exists track, e.
      split; [done|]. split; [|by rewrite Hq].
      rewrite Hq, Hty, !elem_of_cons. auto. }
  rewrite Hnf2.
  destruct (Earlier.search_track _ _ _ _ _ _ _ _) as [st3 r3] eqn:H3.
  apply earlier_search_track_cases in H3
    as [[Hnf3 ->]| [-> (track & e & Hh & He & Hq & Hty & Hu)]]; [by left|].
  right. exists track, e.
  split; [done|]. split; [|by rewrite Hq].
  rewrite Hq, Hty, !elem_of_cons. auto.
Qed.

Lemma earlier_score_album_cases st v playlist_id query ty a st' b :
  Earlier.score_album lower sp st v playlist_id query ty 0 a = Ok (st', b) ->
  (b = false /\ st' = st) \/
  (b = true /\ exists e,
     Earlier.one_entry v playlist_id st st' e /\
     Earlier.q e = query /\ Earlier.search_type_id e = ty /\
     Earlier.spotify_uri e = sa_uri a).
Proof.
  unfold Earlier.score_album.
  destruct (percent_in_desc _ _) as [percent|err]; [|done].
  unfold mbind, result_bind. cbv beta iota.
  case_match; [|intros [= <- <-]; by left].
  destruct (Earlier.like_or_skip _ _ _ _ _) as [verdict cs] eqn:Hlike.
  intros [= <- <-]. right. split; [done|].
  apply like_or_skip_cases in Hlike.
  eexists. split.
  { unfold Earlier.one_entry. cbn.
    do 4 (split; [reflexivity|]). split; [by vm_compute|].
    destruct Hlike as [(-> & Hl & c & ->) | (-> & Hl & ->)].
    - left. eauto.
    - right. rewrite app_nil_r. done. }
  split; [reflexivity|split; reflexivity].
Qed.

Lemma earlier_search_album_cases st v playlist_id query ty limit st' r :
  Earlier.search_album lower sp st v playlist_id query ty limit = Ok (st', r) ->
  (Earlier.not_found r = true /\ st' = st) \/
  (r = Some true /\ exists a e,
     head (Earlier.sp_search_album sp query limit) = Some a /\
     Earlier.one_entry v playlist_id st st' e /\
     Earlier.q e = query /\ Earlier.search_type_id e = ty /\
     Earlier.spotify_uri e = sa_uri a).
Proof.
  unfold Earlier.search_album.
  destruct (Earlier.sp_search_album sp query limit) as [|a rest].
  - intros [= <- <-]. by left.
  - destruct (Earlier.score_album _ _ _ _ _ _ _ _ _) as [[st1 b]|err] eqn:Hscore;
      [|done].
    unfold mbind, result_bind. cbv beta iota.
    intros [= <- <-].
    apply earlier_score_album_cases in Hscore as [[-> ->] | [-> (e & He)]].
    + by left.
    + right. split; [done|]. exists a, e. done.
Qed.

Lemma save_album_cases st v playlist_id st' :
  Earlier.save_album lower sp st v playlist_id = Ok st' ->
  st' = st \/
  exists a e,
    Earlier.one_entry v playlist_id st st' e /\
    (Earlier.search_type_id e, Earlier.q e) ∈
      [(lit "1", Earlier.title v);
       (lit "2", lit "album " ++ [dquote] ++ Earlier.title v ++ [dquote])] /\
    head (Earlier.sp_search_album sp (Earlier.q e) 2) = Some a /\
    Earlier.spotify_uri e = sa_uri a.
Proof.
  unfold Earlier.save_album.
  destruct (Earlier.search_album _ _ _ _ _ _ _ _) as [[st1 r1]|err] eqn:H1; [|done].
  unfold mbind, result_bind. cbv beta iota.
  apply earlier_search_album_cases in H1
    as [[Hnf ->] | [-> (a & e & Hh & He & Hq & Hty & Hu)]].
  2:{ cbn [Earlier.not_found]. intros [= <-]. right. exists a, e.
      split; [done|]. split; [|by rewrite Hq].
      rewrite Hq, Hty, !elem_of_cons. auto. }
  rewrite Hnf.
  destruct (Earlier.search_album _ _ _ _ _ _ _ _) as [[st2 r2]|err] eqn:H2; [|done].
  intros [= <-].
  apply earlier_search_album_cases in H2
    as [[Hnf2 ->] | [-> (a & e & Hh & He & Hq & Hty & Hu)]]; [by left|].
  right. exists a, e.
  split; [done|]. split; [|by rewrite Hq].
  rewrite Hq, Hty, !elem_of_cons. auto.
Qed.

Lemma populate_spotify_cases st v df st' :
  Earlier.populate_spotify lower sp THRESHOLD_MS st v df = Ok st' ->
  exists ms playlist_id,
    st' = Earlier.add_messages ms st \/
    exists e, Earlier.one_entry v playlist_id (Earlier.add_messages ms st) st' e.
Proof.
  intros Hrun. unfold Earlier.populate_spotify in Hrun.
  assert (Hst : st = Earlier.add_messages [] st).
  { destruct st. unfold Earlier.add_messages. cbn. by rewrite app_nil_r. }
  destruct (match Earlier.playlist_name v with
            | Some (c :: name) => _
            | _ => (None, st)
            end) as [playlist_id st0] eqn:Hlookup.
  assert (exists ms, st0 = Earlier.add_messages ms st) as [ms ->].
  { destruct (Earlier.playlist_name v) as [[|c name]|].
    - exists []. congruence.
    - destruct (Etl.get_spotify_playlist_id _ _) as [id ms].
      exists ms. congruence.
    - exists []. congruence. }
  exists ms, playlist_id.
  destruct (Earlier.over_threshold THRESHOLD_MS v).
  - apply save_album_cases in Hrun as [-> | (a & e & He & _)]; eauto.
  - injection Hrun as <-.
    destruct (save_track_one_entry (Earlier.add_messages ms st) v playlist_id)
      as [-> | (e & He)]; eauto.
Qed.

Lemma logged_false uri playlist_id log :
  Earlier.logged uri playlist_id log = false ->
  (uri, playlist_id) ∉ map Earlier.key log.
Proof.
  unfold Earlier.logged. intros Hl Hin.
  apply list_elem_of_In, in_map_iff in Hin as (e & Hk & He).
  apply not_true_iff_false in Hl. apply Hl.
  apply existsb_exists. exists e. split; [done|].
  apply bool_decide_eq_true. exact Hk.
Qed.

Lemma saved_keys_app log e :
  Earlier.saved_keys (log ++ [e]) =
  Earlier.saved_keys log ++ (if Earlier.is_saved e then [Earlier.key e] else []).
Proof.
  unfold Earlier.saved_keys. rewrite filter_app, map_app. f_equal.
  rewrite filter_cons, filter_nil.
  destruct (Earlier.is_saved e) eqn:Hs.
  - rewrite decide_True by done. done.
  - rewrite decide_False by (by intros ?). done.
Qed.

Lemma saved_keys_subset log k :
  k ∈ Earlier.saved_keys log -> k ∈ map Earlier.key log.
Proof.
  unfold Earlier.saved_keys. intros Hin.
  apply list_elem_of_In, in_map_iff in Hin as (e & <- & He).
  apply list_elem_of_In, list_elem_of_filter in He as [_ He].
  apply list_elem_of_In, in_map. by apply list_elem_of_In.
Qed.

Lemma one_entry_calls_match_log v playlist_id st st' e :
  Earlier.one_entry v playlist_id st st' e ->
  Earlier.calls_match_log st -> Earlier.calls_match_log st'.
Proof.
  intros (Hlog & _ & Hpid & _ & _ & Hstatus) [Hnodup Hlen].
  unfold Earlier.calls_match_log. rewrite Hlog, saved_keys_app.
  destruct Hstatus as [(Hs & Hl & c & ->) | (Hs & Hl & ->)].
  - unfold Earlier.is_saved. rewrite bool_decide_eq_true_2 by done.
    split.
    + apply NoDup_app. split; [done|]. split; [|apply NoDup_singleton].
      intros k Hk ->%list_elem_of_singleton.
      apply logged_false in Hl. apply Hl.
      apply saved_keys_subset in Hk. unfold Earlier.key in Hk.
      by rewrite Hpid in Hk.
    + rewrite !length_app, Hlen. done.
  - unfold Earlier.is_saved. rewrite bool_decide_eq_false_2.
    + by rewrite app_nil_r.
    + rewrite Hs. by vm_compute.
Qed.

Lemma populate_spotify_calls_match_log st v df st' :
  Earlier.populate_spotify lower sp THRESHOLD_MS st v df = Ok st' ->
  Earlier.calls_match_log st ->
  Earlier.calls_match_log st' /\
  exists new,
    Earlier.spotify_log st' = Earlier.spotify_log st ++ new /\
    length new <= 1 /\
    Forall (fun e => Earlier.found_on_try e = lit "0" /\
                     Earlier.youtube_video_id e = Earlier.video_id v) new.
Proof.
  intros (ms & playlist_id & [-> | [e He]])%populate_spotify_cases Hinv.
  - split; [done|]. exists []. rewrite app_nil_r. cbn. split; [done|].
    split; [lia|]. constructor.
  - split; [by eapply one_entry_calls_match_log|].
    destruct He as (Hlog & _ & _ & Hv & Hf & _). cbn in Hlog.
    exists [e]. split; [done|]. split; [cbn; lia|].
    constructor; [done|constructor].
Qed.

Lemma apply_populate_spotify_from videos : forall st df st',
  Earlier.apply_populate_spotify lower sp THRESHOLD_MS st videos df = Ok st' ->
  Earlier.calls_match_log st ->
  Earlier.calls_match_log st' /\
  exists new,
    Earlier.spotify_log st' = Earlier.spotify_log st ++ new /\
    length new <= length videos /\
    Forall (fun e => Earlier.found_on_try e = lit "0" /\
                     exists v, v ∈ videos /\
                       Earlier.youtube_video_id e = Earlier.video_id v) new.
Proof.
  induction videos as [|v rest IH]; intros st df st'; cbn [Earlier.apply_populate_spotify].
  - intros [= <-] Hinv. split; [done|]. exists []. rewrite app_nil_r.
    split; [done|]. split; [cbn; lia|constructor].
  - destruct (Earlier.populate_spotify _ _ _ _ _ _) as [st1|err] eqn:Hstep; [|done].
    unfold mbind, result_bind. cbv beta iota.
    intros Hrest Hinv.
    destruct (populate_spotify_calls_match_log _ _ _ _ Hstep Hinv)
      as (Hinv1 & new1 & Hlog1 & Hlen1 & Hall1).
    destruct (IH _ _ _ Hrest Hinv1) as (Hinv' & new2 & Hlog2 & Hlen2 & Hall2).
    split; [done|].
    exists (new1 ++ new2). rewrite Hlog2, Hlog1, app_assoc.
    split; [done|]. split; [rewrite length_app; cbn; lia|].
    apply Forall_app. split.
    + eapply Forall_impl; [exact Hall1|]. intros e [? ?]. split; [done|].
      exists v. split; [apply elem_of_cons; by left|done].
    + eapply Forall_impl; [exact Hall2|]. intros e (? & v' & ? & ?). split; [done|].
      exists v'. split; [apply elem_of_cons; by right|done].
Qed.

(** X19. A run of the earlier resolver from the empty log saves no pair of
    URI and playlist twice and makes one call to the catalog for each
    saved entry, none for a skipped one.  The log holds at most one entry
    for each video, each found as candidate 0 and each for a video of the
    run. *)
Theorem apply_populate_spotify_log videos df st :
  Earlier.apply_populate_spotify lower sp THRESHOLD_MS Earlier.empty videos df = Ok st ->
  NoDup (Earlier.saved_keys (Earlier.spotify_log st)) /\
  length (Earlier.calls st) = length (Earlier.saved_keys (Earlier.spotify_log st)) /\
  length (Earlier.spotify_log st) <= length videos /\
  forall e, e ∈ Earlier.spotify_log st ->
    Earlier.found_on_try e = lit "0" /\
    exists v, v ∈ videos /\ Earlier.youtube_video_id e = Earlier.video_id v.
Proof.
  intros Hrun.
  destruct (apply_populate_spotify_from _ _ _ _ Hrun)
    as ([Hnodup Hlen] & new & Hlog & Hle & Hall).
  { split; [constructor|done]. }
  cbn in Hlog. subst new.
  split; [done|]. split; [done|]. split; [done|].
  intros e He. by apply (proj1 (Forall_forall _ _) Hall).
Qed.

Lemma scan_tracks_without_playlist v tracks : forall acc,
  Earlier.scan_tracks lower (Earlier.without_playlist v) acc tracks =
  Earlier.scan_tracks lower v acc tracks.
Proof.
  induction tracks as [|track rest IH]; intros acc; [done|].
  cbn [Earlier.scan_tracks]. rewrite IH. done.
Qed.

Lemma score_album_without_playlist st v playlist_id query ty n a :
  Earlier.score_album lower sp st (Earlier.without_playlist v) playlist_id query ty n a =
  Earlier.score_album lower sp st v playlist_id query ty n a.
Proof.
  unfold Earlier.score_album. rewrite scan_tracks_without_playlist. done.
Qed.

Lemma search_album_without_playlist st v playlist_id query ty limit :
  Earlier.search_album lower sp st (Earlier.without_playlist v) playlist_id query ty limit =
  Earlier.search_album lower sp st v playlist_id query ty limit.
Proof.
  unfold Earlier.search_album.
  destruct (Earlier.sp_search_album sp query limit); [done|].
  by rewrite score_album_without_playlist.
Qed.

Lemma save_album_without_playlist st v playlist_id :
  Earlier.save_album lower sp st (Earlier.without_playlist v) playlist_id =
  Earlier.save_album lower sp st v playlist_id.
Proof.
  unfold Earlier.save_album.
  cbn [Earlier.without_playlist Earlier.title].
  rewrite search_album_without_playlist.
  destruct (Earlier.search_album _ _ _ _ _ _ _ _) as [[st1 r1]|err]; [|done].
  unfold mbind, result_bind. cbv beta iota.
  destruct (Earlier.not_found r1); [|done].
  by rewrite search_album_without_playlist.
Qed.

(** X20. A video whose playlist has no row in the table of playlists is
    announced as skipped and then resolved all the same, as the video
    without a playlist is: what is found for it goes to the library. *)
Theorem populate_spotify_unknown_playlist st v df c name :
  Earlier.playlist_name v = Some (c :: name) ->
  filter (fun p => pr_playlist_name p = c :: name) df = [] ->
  Earlier.populate_spotify lower sp THRESHOLD_MS st v df =
  Earlier.populate_spotify lower sp THRESHOLD_MS
    (Earlier.add_messages [Etl.NotFoundSkipped (c :: name) (Earlier.title v)] st)
    (Earlier.without_playlist v) df.
Proof.
  intros Hname Hnone.
  unfold Earlier.populate_spotify, Etl.get_spotify_playlist_id.
  rewrite Hname.
  cbn [Etl.v_playlist_name Etl.v_title Earlier.without_playlist
       Earlier.playlist_name Earlier.title].
  rewrite Hnone. cbv beta iota.
  change (Earlier.over_threshold THRESHOLD_MS (Earlier.without_playlist v))
    with (Earlier.over_threshold THRESHOLD_MS v).
  destruct (Earlier.over_threshold THRESHOLD_MS v).
  - symmetry. apply save_album_without_playlist.
  - reflexivity.
Qed.

(** X21. The earlier resolver divides by the number of tracks scanned without
    a guard as well: [save_album] raises ZeroDivisionError when the first
    candidate for the title has no track. *)
Theorem save_album_empty_album st v playlist_id a rest :
  Earlier.sp_search_album sp (Earlier.title v) 2 = a :: rest ->
  Earlier.sp_album_tracks sp (sa_uri a) = [] ->
  Earlier.save_album lower sp st v playlist_id = Raise ZeroDivisionError.
Proof.
  intros Hsearch Htracks.
  unfold Earlier.save_album, Earlier.search_album. rewrite Hsearch.
  unfold Earlier.score_album. rewrite Htracks. reflexivity.
Qed.

End EarlierResolver.

Lemma scan_tracks_spec lower v tracks : forall acc,
  exists n, (n <= length tracks)%nat /\
    Earlier.tracks_uri (Earlier.scan_tracks lower v acc tracks) =
      Earlier.tracks_uri acc ++ map at_uri (take n tracks) /\
    Earlier.album_length (Earlier.scan_tracks lower v acc tracks) =
      (Earlier.album_length acc + album_duration (take n tracks))%Z /\
    Earlier.diff (Earlier.scan_tracks lower v acc tracks) =
      (Earlier.diff acc - album_duration (take n tracks))%Z /\
    ((n < length tracks)%nat ->
     (Earlier.diff (Earlier.scan_tracks lower v acc tracks) < -20000)%Z) /\
    (forall m, (0 < m < n)%nat ->
       (-20000 <= Earlier.diff acc - album_duration (take m tracks))%Z) /\
    (tracks <> [] -> (0 < n)%nat).
Proof.
  induction tracks as [|track rest IH]; intros acc.
  - exists 0%nat. cbn. rewrite app_nil_r.
    repeat split; try done; try lia.
  - cbn [Earlier.scan_tracks]. cbv zeta. cbn [Earlier.diff].
    destruct (Earlier.diff acc - at_duration_ms track <? -20000)%Z eqn:Hstop.
    + exists 1%nat.
      change (take 1 (track :: rest)) with [track].
      cbn [length Earlier.tracks_uri Earlier.album_length Earlier.diff map].
      unfold album_duration. cbn [map fold_right].
      apply Z.ltb_lt in Hstop.
      split; [lia|]. split; [done|]. split; [lia|]. split; [lia|].
      split; [lia|]. split; [lia|lia].
    + apply Z.ltb_ge in Hstop.
      destruct (IH {| Earlier.in_desc :=
                        if contains (lower (at_name track)) (Earlier.description v)
                        then S (Earlier.in_desc acc) else Earlier.in_desc acc;
                      Earlier.tracks_uri := Earlier.tracks_uri acc ++ [at_uri track];
                      Earlier.tracks_info :=
                        Earlier.tracks_info acc ++
                          [(at_uri track, at_name track, at_duration_ms track)];
                      Earlier.album_length :=
                        (Earlier.album_length acc + at_duration_ms track)%Z;
                      Earlier.diff := (Earlier.diff acc - at_duration_ms track)%Z |})
        as (n & Hn & Huri & Hlen & Hdiff & Hshort & Hbefore & _).
      cbn [Earlier.tracks_uri Earlier.album_length Earlier.diff] in *.
      exists (S n).
      change (take (S n) (track :: rest)) with (track :: take n rest).
      cbn [length map].
      assert (Hsum : forall l, album_duration (track :: l) =
                               (at_duration_ms track + album_duration l)%Z) by done.
      rewrite Hsum.
      split; [lia|]. split; [by rewrite Huri, <- app_assoc|].
      split; [lia|]. split; [lia|]. split; [intros; apply Hshort; lia|].
      split; [|lia].
      intros [|m] Hm; [lia|].
      change (take (S m) (track :: rest)) with (track :: take m rest).
      rewrite Hsum.
      destruct m as [|m].
      * rewrite take_0. unfold album_duration at 1. cbn. lia.
      * specialize (Hbefore (S m)). lia.
Qed.

(** X22. The scan of an album by the earlier resolver reads a prefix of the
    tracks: at least one track, and it stops after the first track that
    leaves the album more than 20 seconds longer than the video. *)
Theorem scan_tracks_stops lower v tracks :
  let acc := Earlier.scan_tracks lower v (Earlier.start v) tracks in
  exists n, (n <= length tracks)%nat /\
    Earlier.tracks_uri acc = map at_uri (take n tracks) /\
    Earlier.album_length acc = album_duration (take n tracks) /\
    Earlier.diff acc = (Earlier.duration_ms v - Earlier.album_length acc)%Z /\
    ((n < length tracks)%nat -> (Earlier.diff acc < -20000)%Z) /\
    (forall m, (0 < m < n)%nat ->
       (-20000 <= Earlier.duration_ms v - album_duration (take m tracks))%Z) /\
    (tracks <> [] -> (0 < n)%nat).
Proof.
  intros acc. subst acc.
  destruct (scan_tracks_spec lower v tracks (Earlier.start v))
    as (n & Hn & Huri & Hlen & Hdiff & Hshort & Hbefore & Hpos).
  cbn [Earlier.start Earlier.tracks_uri Earlier.album_length Earlier.diff] in *.
  exists n. rewrite Huri, Hlen, Hdiff.
  split; [done|]. split; [done|]. split; [lia|]. split; [lia|].
  split; [lia|]. split; [|done].
  intros m Hm. by apply Hbefore.
Qed.

(* ===================================================================== *)
(** * The further properties at the sample data *)
(* ===================================================================== *)

Lemma score_album_diagnostics_witness :
  exists info,
    score_album ascii_lower Sample.album_row [] 0 0 Sample.an_album Sample.five_tracks
    = Ok (Some info)
    /\ ai_total_tracks info = 5 /\ ai_duration_ms info = 860000%Z
    /\ ai_difference_ms info = 2740000%Z.
Proof.
  eexists. split; [vm_compute; reflexivity|].
  destruct (score_album_diagnostics ascii_lower Sample.album_row [] 0 0 Sample.an_album
              Sample.five_tracks _ eq_refl)
    as (_ & _ & _ & _ & Hn & Hd & Hdiff & _).
  split; [exact Hn|]. split; [exact Hd|]. reflexivity.
Defined.

Lemma score_playlist_rule_witness :
  exists info,
    score_playlist ascii_lower Sample.album_row [] 1 0 Sample.a_playlist Cases.entries
    = Ok (Some info)
    /\ playlist_rule ascii_lower Sample.album_row (available Cases.entries).
Proof.
  destruct (score_playlist_rule ascii_lower Sample.album_row [] 1 0 Sample.a_playlist
              Cases.entries) as (_ & found & Hs & Hiff & _); [discriminate|].
  assert (Hfound : is_Some found).
  { apply Hiff. right. split; [vm_compute; lia | reflexivity]. }
  destruct Hfound as [info ->]. exists info. split; [exact Hs|].
  apply Hiff. by eexists.
Defined.

Lemma find_album_strategy_witness :
  exists info,
    find_album ascii_lower Sample.album_catalog Sample.album_row = Ok (Some info)
    /\ (ai_search_type_id info, ai_q info) = (0, lit "Album Name  ")
    /\ ai_found_on_try info < 1.
Proof.
  eexists. split; [vm_compute; reflexivity|].
  destruct (find_album_strategy ascii_lower Sample.album_catalog Sample.album_row _ eq_refl)
    as (_ & Hn & _).
  split; [reflexivity | exact Hn].
Defined.

Lemma find_album_third_query_repeats_witness :
  exists info,
    find_album ascii_lower Sample.album_catalog Cases.bare_album_row = Ok (Some info)
    /\ ai_search_type_id info <= 1.
Proof.
  eexists. split; [vm_compute; reflexivity|].
  apply (find_album_third_query_repeats ascii_lower Sample.album_catalog
           Cases.bare_album_row); [|reflexivity].
  intros H%has_span_line_span. vm_compute in H. discriminate H.
Defined.

Lemma find_other_playlist_strategy_witness :
  exists info,
    find_other_playlist ascii_lower Cases.playlist_catalog Sample.album_row
    = Ok (Some info)
    /\ pi_found_on_try info < 1
    /\ pi_total_tracks info = 4.
Proof.
  eexists. split; [vm_compute; reflexivity|].
  destruct (find_other_playlist_strategy ascii_lower Cases.playlist_catalog
              Sample.album_row _ eq_refl) as (_ & Hn & _).
  split; [exact Hn | reflexivity].
Defined.

Lemma find_track_found_witness :
  exists info,
    find_track ascii_lower Sample.catalog Sample.topic_row = Ok (Some info)
    /\ ti_search_type_id info ∈ [0; 2; 3]
    /\ ti_found_on_try info < 1.
Proof.
  eexists. split; [vm_compute; reflexivity|].
  destruct (find_track_found ascii_lower Sample.catalog Sample.topic_row _ eq_refl)
    as (_ & Hst & Hn & _).
  split; [exact Hst | exact Hn].
Defined.

Lemma collect_saved_stages_witness :
  staged_for_playlist init
    (snd (collect_track init Sample.track_match (lit "sp1") []))
    (lit "sp1") [ti_track_uri Sample.track_match].
Proof.
  destruct collect_saved_stages as (Htrack & _ & _).
  destruct (Htrack init (snd (collect_track init Sample.track_match (lit "sp1") []))
              Sample.track_match (lit "sp1") [] saved eq_refl) as (Hstaged & _ & _).
  apply Hstaged. split; [reflexivity|]. intros H. vm_compute in H. discriminate H.
Defined.

Lemma log_registers_witness :
  exists e,
    distinct_tracks (log_other_playlist init Sample.playlist_one (lit "sp1") 1 saved)
      !! lit "t2" = Some e
    /\ te_playlist_uri e = Some (pi_playlist_uri Sample.playlist_one).
Proof.
  destruct (log_registers init (lit "sp1") 1 saved) as (_ & Hplaylist & _).
  destruct (Hplaylist Sample.playlist_one) as [_ Htracks].
  apply Htracks. apply list_elem_of_In. vm_compute. auto.
Defined.

Lemma prepare_spotify_ledger_witness :
  exists s',
    prepare_spotify ascii_lower Cases.full_catalog (Some 600000%Z) init
      Sample.album_row Sample.two_playlists [] [] = Ok s'
    /\ exists tracks albums playlists,
         ledger_grows init s' tracks albums playlists
         /\ length (tracks ++ albums ++ playlists) <= 1
         /\ tracks = [].
Proof.
  eexists. split; [vm_compute; reflexivity|].
  destruct (prepare_spotify_ledger ascii_lower Cases.full_catalog (Some 600000%Z)
              init _ Sample.album_row Sample.two_playlists [] [] eq_refl)
    as (tracks & albums & playlists & Hgrows & Hlen & Hover & _).
  exists tracks, albums, playlists.
  split; [exact Hgrows|]. split; [exact Hlen|]. apply Hover. reflexivity.
Defined.

Lemma run_likes_ok_witness :
  exists s,
    apply_prepare_spotify ascii_lower Cases.full_catalog (Some 600000%Z) init
      Cases.videos Sample.two_playlists [] [] = Ok s
    /\ tracks_to_like s = [st_uri Sample.song]
    /\ likes_ok [] [] s.
Proof.
  eexists. split; [vm_compute; reflexivity|]. split; [reflexivity|].
  apply (run_likes_ok ascii_lower Cases.full_catalog (Some 600000%Z)
           Sample.two_playlists [] [] Cases.videos).
  reflexivity.
Defined.

Lemma run_ledger_in_registry_witness :
  exists s,
    apply_prepare_spotify ascii_lower Cases.full_catalog (Some 600000%Z) init
      Cases.videos Sample.two_playlists [] [] = Ok s
    /\ length (log_albums s) = 2
    /\ ledger_in_registry s.
Proof.
  eexists. split; [vm_compute; reflexivity|]. split; [reflexivity|].
  apply (run_ledger_in_registry ascii_lower Cases.full_catalog (Some 600000%Z)
           Sample.two_playlists [] [] Cases.videos).
  reflexivity.
Defined.

Lemma run_ledger_witness :
  exists s,
    apply_prepare_spotify ascii_lower Cases.full_catalog (Some 600000%Z) init
      Cases.videos Sample.two_playlists [] [] = Ok s
    /\ length (log_tracks s) + length (log_albums s)
       + length (log_playlists_others s) <= 3.
Proof.
  eexists. split; [vm_compute; reflexivity|].
  apply (run_ledger ascii_lower Cases.full_catalog (Some 600000%Z)
           Sample.two_playlists [] [] Cases.videos).
  reflexivity.
Defined.

Lemma run_populate_user_playlists_witness :
  exists s,
    apply_prepare_spotify ascii_lower Cases.full_catalog (Some 600000%Z) init
      Cases.videos Sample.two_playlists [] [] = Ok s
    /\ playlist_items s !! liked_sentinel = None
    /\ snd (populate_user_playlists (fun l => [l]) (map_to_list (playlist_items s))
              Sample.two_playlists) = None.
Proof.
  destruct (apply_prepare_spotify ascii_lower Cases.full_catalog (Some 600000%Z) init
              Cases.videos Sample.two_playlists [] []) as [s|e] eqn:Hrun;
    [|vm_compute in Hrun; discriminate Hrun].
  exists s. split; [reflexivity|].
  destruct (run_populate_user_playlists ascii_lower Cases.full_catalog
              (Some 600000%Z) Sample.two_playlists [] [] Cases.videos s
              (fun l => [l]) (map_to_list (playlist_items s)) Hrun (reflexivity _))
    as (Hcalls & Hnone & _).
  split; [exact Hnone|]. rewrite Hcalls. reflexivity.
Defined.

Lemma run_like_calls_witness :
  exists s,
    apply_prepare_spotify ascii_lower Cases.full_catalog (Some 600000%Z) init
      Cases.videos Sample.two_playlists [] [] = Ok s
    /\ (forall l : list str, concat [l] = l)
    /\ concat (map uris_of_call (like_tracks (fun l => [l]) (tracks_to_like s)))
       = tracks_to_like s.
Proof.
  destruct (apply_prepare_spotify ascii_lower Cases.full_catalog (Some 600000%Z) init
              Cases.videos Sample.two_playlists [] []) as [s|e] eqn:Hrun;
    [|vm_compute in Hrun; discriminate Hrun].
  exists s. split; [reflexivity|]. split; [intros l; apply app_nil_r|].
  apply (run_like_calls ascii_lower Cases.full_catalog (Some 600000%Z)
           Sample.two_playlists [] [] Cases.videos s (fun l => [l]) Hrun).
  intros l. apply app_nil_r.
Defined.

Lemma create_user_playlists_sentinel_witness :
  get_user_playlist_id Sample.topic_row
    (snd (create_user_playlists nat Cases.create_numbered 0 (lit "me")
            Cases.youtube_playlists))
  = Ok liked_sentinel.
Proof.
  destruct (create_user_playlists_sentinel nat Cases.create_numbered 0 (lit "me")
              Cases.youtube_playlists) as (_ & Hliked & _).
  apply Hliked; [reflexivity|].
  apply list_elem_of_In. vm_compute. auto.
Defined.

Lemma apply_populate_spotify_log_witness :
  exists st,
    Earlier.apply_populate_spotify ascii_lower Cases.full_catalog (Some 600000%Z)
      Earlier.empty EarlierCases.videos Sample.two_playlists = Ok st
    /\ map Earlier.status (Earlier.spotify_log st)
       = [lit "saved"; lit "saved"; lit "skipped"; lit "skipped"]
    /\ length (Earlier.calls st)
       = length (Earlier.saved_keys (Earlier.spotify_log st)).
Proof.
  eexists. split; [vm_compute; reflexivity|]. split; [reflexivity|].
  apply (apply_populate_spotify_log ascii_lower Cases.full_catalog (Some 600000%Z)
           EarlierCases.videos Sample.two_playlists).
  reflexivity.
Defined.

Lemma populate_spotify_unknown_playlist_witness :
  Earlier.populate_spotify ascii_lower Cases.full_catalog (Some 600000%Z)
    Earlier.empty EarlierCases.unknown_video Sample.two_playlists
  = Earlier.populate_spotify ascii_lower Cases.full_catalog (Some 600000%Z)
      (Earlier.add_messages
         [Etl.NotFoundSkipped (lit "Gone") (lit "Artist - Song")] Earlier.empty)
      (Earlier.without_playlist EarlierCases.unknown_video) Sample.two_playlists.
Proof.
  apply (populate_spotify_unknown_playlist ascii_lower Cases.full_catalog
           (Some 600000%Z) Earlier.empty EarlierCases.unknown_video
           Sample.two_playlists 71%N (lit "one")); reflexivity.
Defined.

Lemma save_album_empty_album_witness :
  Earlier.save_album ascii_lower Sample.empty_album_catalog Earlier.empty
    EarlierCases.album_video (Some (lit "sp1"))
  = Raise ZeroDivisionError.
Proof.
  apply (save_album_empty_album ascii_lower Sample.empty_album_catalog Earlier.empty
           EarlierCases.album_video (Some (lit "sp1")) Sample.an_album []);
    reflexivity.
Defined.
